(** * A shell with job control: jobs table, built-ins and the evaluator

    The development embeds the three translation units of the shell
    (the evaluator [shell.c], the jobs table and the built-in commands)
    as functions in a state-and-trace monad, and settles the properties
    of the job-control engine on that embedding.

    Conventions.
    - A C [int], [pid_t] or file descriptor is a [Z]; an array index that
      the code keeps non-negative is a [nat].
    - A [(pointer, count)] array such as [job->proc]/[job->nproc] or
      [jobs]/[njobmax] is a [list]; the count is its length.
    - A [char**]/[token_t*] pointer into the token array is the suffix of
      the array that starts at the pointee.
    - Every system call leaves an [event] in the trace returned with the
      result, so "what the shell did" is a list one can inspect. *)

From Stdlib Require Import ZArith String Ascii Lia.
From stdpp Require Import base list.

Local Open Scope string_scope.
Local Open Scope list_scope.

(** ** shell.h *)

(** Modelled from the spec: [shell.h] is not among the sources.  The token
    type is a tagged item: a literal string (an argv word) or one of the
    separators [<], [>], [|], [&] and the end-of-args marker. *)
Inductive token_t : Type :=
| T_NULL
| T_INPUT
| T_OUTPUT
| T_PIPE
| T_BGJOB
| T_STR (s : string).

(** Modelled from the spec: the [string_p] predicate of [shell.h], true of
    literal strings only. *)
Definition string_p (t : token_t) : bool :=
  match t with T_STR _ => true | _ => false end.

(** [a == b] on tokens; the code only ever compares a token with one of
    the separators. *)
Definition token_eqb (a b : token_t) : bool :=
  match a, b with
  | T_NULL, T_NULL | T_INPUT, T_INPUT | T_OUTPUT, T_OUTPUT
  | T_PIPE, T_PIPE | T_BGJOB, T_BGJOB => true
  | T_STR s, T_STR t => String.eqb s t
  | _, _ => false
  end.

(** Modelled from the spec: slot 0 is the foreground slot, slots from 1 on
    are background slots ([FG] and [BG] of [shell.h]). *)
Definition FG : Z := 0.
Definition BG : Z := 1.

(** The enumerators of job and process states, and the [ALL] selector of
    [watchjobs], are declared in [shell.h]; their values are parameters.
    The three states are the [case] labels of one [switch] in [watchjobs],
    hence pairwise distinct. *)
Class shell_h : Type := ShellH {
  FINISHED : Z;
  RUNNING : Z;
  STOPPED : Z;
  ALL : Z;
  case_labels_distinct :
    FINISHED <> RUNNING /\ FINISHED <> STOPPED /\ RUNNING <> STOPPED
}.

(** ** The operating system as seen by the shell *)

Inductive signal : Type :=
| SIGCHLD | SIGINT | SIGTSTP | SIGTTIN | SIGTTOU | SIGCONT | SIGTERM.

Inductive sighandler : Type := SIG_DFL | SIG_IGN | Handler (name : string).

Inductive oflags : Type := O_RDONLY | O_WRONLY_O_CREAT.

(** An argument of a [printf]-style call; [AStr None] is a null pointer
    given to [%s], [AStrerror] stands for [strerror(errno)]. *)
Inductive fmt_arg : Type :=
| AInt (n : Z)
| AStr (s : option string)
| AStrerror.

Inductive event : Type :=
| EMsg (fmt : string) (args : list fmt_arg)
| EOpen (file : string) (flags : oflags) (fd : Z)
| EClose (fd : Z)
| EDup2 (oldfd newfd : Z)
| EPipe (readfd writefd : Z)
| EFork (pid : Z)
| ESetpgid (pid pgid : Z)
| EKill (pid : Z) (sig : signal)
| ETcsetpgrp (fd pgrp : Z)
| ESignal (sig : signal) (h : sighandler)
| EChdir (path : option string)
| EFcntl (fd : Z)
| EExecve (path : string) (argv : list string).

(** A wait status is read through the macros of [<sys/wait.h>] only. *)
Record wstatus : Type := WStatus {
  WIFEXITED : bool;
  WIFSIGNALED : bool;
  WIFCONTINUED : bool;
  WIFSTOPPED : bool;
  WEXITSTATUS : Z
}.

(** The parts of the system that do not change while the shell runs. *)
Record system : Type := System {
  sys_open : string -> oflags -> Z;     (* descriptor, or -1 *)
  sys_execve : string -> bool;          (* does execve of this path succeed *)
  sys_chdir : option string -> bool;    (* does chdir succeed *)
  env_PATH : option string;
  env_HOME : option string;
  sys_getpgrp : Z;
  sys_isatty_stdin : bool;
  sys_dup_stdin : Z
}.

(** ** The jobs table (data) *)

Record proc_t : Type := Proc {
  proc_pid : Z;        (* process identifier *)
  proc_state : Z;      (* RUNNING or STOPPED or FINISHED *)
  proc_exitcode : Z    (* -1 if exit status not yet received *)
}.

Record job_t : Type := Job {
  job_pgid : Z;                  (* 0 if slot is free *)
  job_proc : list proc_t;        (* proc, nproc *)
  job_state : Z;                 (* changes when live processes have same state *)
  job_command : option string    (* textual representation of command line *)
}.

Definition job_nproc (job : job_t) : Z := Z.of_nat (length (job_proc job)).

(** A slot after [memset(.., 0, sizeof(job_t))] or [calloc]. *)
Definition zero_job : job_t := Job 0 [] 0 None.

(** ** Process state and the monad *)

Record world : Type := World {
  jobs : list job_t;                       (* jobs, njobmax *)
  tty_fd : Z;
  sigchld_blocked : bool;                  (* is SIGCHLD in the signal mask *)
  children : list (Z * wstatus);           (* state changes waitpid will report *)
  wakeups : list (list (Z * wstatus));     (* what each coming SIGCHLD brings *)
  forks : list Z;                          (* what the coming fork calls return *)
  pipes : list (Z * Z);                    (* what the coming pipe calls return *)
  os : system;
  arrivals : list nat                      (* how many of the coming SIGCHLDs
                                              arrive at each coming prompt *)
}.

Definition njobmax (w : world) : nat := length (jobs w).

(** How a process stops running the code that follows. *)
Inductive halt : Type :=
| Exited (code : Z)               (* exit(code) *)
| Execed (path : string)          (* execve succeeded *)
| Aborted (assertion : string)    (* a failed assert *)
| Fatal (call : string)           (* a failed Fork or Pipe wrapper *)
| Suspended                       (* sigsuspend never returns *)
| Undefined (what : string)       (* behaviour C leaves undefined *)
| Unbounded (loop : string).      (* a loop outran the bound of its model *)

Inductive result (A : Type) : Type :=
| Ret (a : A)
| Halt (h : halt).
Arguments Ret {A} a.
Arguments Halt {A} h.

Record run (A : Type) : Type := Run {
  res : result A;
  st : world;
  evs : list event
}.
Arguments Run {A} res st evs.
Arguments res {A} r.
Arguments st {A} r.
Arguments evs {A} r.

Definition M (A : Type) : Type := world -> run A.

Definition ret {A} (a : A) : M A := fun w => Run (Ret a) w [].

Definition bind {A B} (m : M A) (k : A -> M B) : M B := fun w =>
  let r := m w in
  match res r with
  | Ret a => let r' := k a (st r) in Run (res r') (st r') (evs r ++ evs r')
  | Halt h => Run (Halt h) (st r) (evs r)
  end.

Declare Scope shell_scope.
Delimit Scope shell_scope with shell.
Notation "x <- m ;; k" := (bind m (fun x => k))
  (at level 100, m at next level, right associativity) : shell_scope.
Notation "m ;; k" := (bind m (fun _ => k))
  (at level 100, right associativity) : shell_scope.
Local Open Scope shell_scope.

Definition stop {A} (h : halt) : M A := fun w => Run (Halt h) w [].
Definition emit (e : event) : M unit := fun w => Run (Ret tt) w [e].
Definition get : M world := fun w => Run (Ret w) w [].
Definition assert (b : bool) (text : string) : M unit :=
  if b then ret tt else stop (Aborted text).

Definition set_jobs (js : list job_t) : M unit := fun w =>
  Run (Ret tt)
      (World js (tty_fd w) (sigchld_blocked w) (children w) (wakeups w)
             (forks w) (pipes w) (os w) (arrivals w)) [].
Definition set_tty_fd (fd : Z) : M unit := fun w =>
  Run (Ret tt)
      (World (jobs w) fd (sigchld_blocked w) (children w) (wakeups w)
             (forks w) (pipes w) (os w) (arrivals w)) [].
Definition set_sigchld_blocked (b : bool) : M unit := fun w =>
  Run (Ret tt)
      (World (jobs w) (tty_fd w) b (children w) (wakeups w)
             (forks w) (pipes w) (os w) (arrivals w)) [].
Definition set_children (c : list (Z * wstatus)) : M unit := fun w =>
  Run (Ret tt)
      (World (jobs w) (tty_fd w) (sigchld_blocked w) c (wakeups w)
             (forks w) (pipes w) (os w) (arrivals w)) [].
Definition set_wakeups (l : list (list (Z * wstatus))) : M unit := fun w =>
  Run (Ret tt)
      (World (jobs w) (tty_fd w) (sigchld_blocked w) (children w) l
             (forks w) (pipes w) (os w) (arrivals w)) [].
Definition set_forks (l : list Z) : M unit := fun w =>
  Run (Ret tt)
      (World (jobs w) (tty_fd w) (sigchld_blocked w) (children w) (wakeups w)
             l (pipes w) (os w) (arrivals w)) [].
Definition set_pipes (l : list (Z * Z)) : M unit := fun w =>
  Run (Ret tt)
      (World (jobs w) (tty_fd w) (sigchld_blocked w) (children w) (wakeups w)
             (forks w) l (os w) (arrivals w)) [].
Definition set_arrivals (l : list nat) : M unit := fun w =>
  Run (Ret tt)
      (World (jobs w) (tty_fd w) (sigchld_blocked w) (children w) (wakeups w)
             (forks w) (pipes w) (os w) l) [].

(** ** System calls and their wrappers *)

Definition msg (fmt : string) (args : list fmt_arg) : M unit :=
  emit (EMsg fmt args).

(** [debug] prints nothing: the sources are built with [DEBUG] 0. *)
Definition debug (fmt : string) (args : list fmt_arg) : M unit := ret tt.

Definition open (file : string) (flags : oflags) : M Z :=
  w <- get;;
  let fd := sys_open (os w) file flags in
  emit (EOpen file flags fd);; ret fd.

Definition close (fd : Z) : M unit := emit (EClose fd).
Definition dup2 (oldfd newfd : Z) : M unit := emit (EDup2 oldfd newfd).
Definition setpgid (pid pgid : Z) : M unit := emit (ESetpgid pid pgid).
Definition Kill (pid : Z) (sig : signal) : M unit := emit (EKill pid sig).
Definition Tcsetpgrp (fd pgrp : Z) : M unit := emit (ETcsetpgrp fd pgrp).
Definition Signal (sig : signal) (h : sighandler) : M unit :=
  emit (ESignal sig h).
Definition getpgrp : M Z := w <- get;; ret (sys_getpgrp (os w)).

(** [Fork] returns 0 in the child and the child's pid in the parent; which
    of the two processes is followed is decided by [forks].  A failed fork
    is fatal. *)
Definition Fork : M Z :=
  w <- get;;
  match forks w with
  | [] => stop (Fatal "Fork")
  | pid :: later => set_forks later;; emit (EFork pid);; ret pid
  end.

Definition Pipe : M (Z * Z) :=
  w <- get;;
  match pipes w with
  | [] => stop (Fatal "Pipe")
  | (r, wr) :: later => set_pipes later;; emit (EPipe r wr);; ret (r, wr)
  end.

(** [Sigprocmask(SIG_BLOCK, &sigchld_mask, &old)]: the mask is the one bit
    the shell ever changes. *)
Definition Sigprocmask_block : M bool :=
  w <- get;; set_sigchld_blocked true;; ret (sigchld_blocked w).

(** [Sigprocmask(SIG_SETMASK, &mask, NULL)] *)
Definition Sigprocmask_setmask (mask : bool) : M unit :=
  set_sigchld_blocked mask.

(** [waitpid(pid, &status, WNOHANG | WUNTRACED | WCONTINUED)]: the first
    unreported state change of [pid], if there is one. *)
Fixpoint take_change (pid : Z) (c : list (Z * wstatus))
  : option (wstatus * list (Z * wstatus)) :=
  match c with
  | [] => None
  | (p, s) :: rest =>
      if Z.eqb p pid then Some (s, rest)
      else match take_change pid rest with
           | Some (s', rest') => Some (s', (p, s) :: rest')
           | None => None
           end
  end.

Definition waitpid (pid : Z) : M (option wstatus) :=
  w <- get;;
  match take_change pid (children w) with
  | Some (status, rest) => set_children rest;; ret (Some status)
  | None => ret None
  end.

(** ** The jobs table (code) *)

Section Jobs.
Context `{shell_h}.

(** [jobs[j]]; an index past [njobmax] is out of bounds. *)
Definition jobslot (j : nat) : M job_t :=
  w <- get;;
  match jobs w !! j with
  | Some job => ret job
  | None => stop (Undefined "jobs[j] out of bounds")
  end.

Definition set_jobslot (j : nat) (job : job_t) : M unit :=
  w <- get;; set_jobs (<[j := job]> (jobs w)).

(** The [waitpid] of the inner loop of [sigchld_handler] and what it makes
    of the status, for a process that is not FINISHED. *)
Definition reap_proc (proc : proc_t) : M proc_t :=
  wait_res <- waitpid (proc_pid proc);;
  match wait_res with
  | Some status =>
      if WIFEXITED status || WIFSIGNALED status then
        ret (Proc (proc_pid proc) FINISHED (WEXITSTATUS status))
      else if WIFCONTINUED status then
        ret (Proc (proc_pid proc) RUNNING (proc_exitcode proc))
      else if WIFSTOPPED status then
        ret (Proc (proc_pid proc) STOPPED (proc_exitcode proc))
      else ret proc
  | None => ret proc
  end.

(** [for (p = 0; p < job->nproc; p++)], with the two flags. *)
Fixpoint reap_procs (procs : list proc_t) (has_running has_stopped : bool)
  : M (list proc_t * (bool * bool)) :=
  match procs with
  | [] => ret ([], (has_running, has_stopped))
  | proc :: rest =>
      if Z.eqb (proc_state proc) FINISHED then
        r <- reap_procs rest has_running has_stopped;;
        ret (proc :: fst r, snd r)
      else
        proc' <- reap_proc proc;;
        let has_running' :=
          if Z.eqb (proc_state proc') RUNNING then true else has_running in
        let has_stopped' :=
          if Z.eqb (proc_state proc') RUNNING then has_stopped
          else if Z.eqb (proc_state proc') STOPPED then true
          else has_stopped in
        r <- reap_procs rest has_running' has_stopped';;
        ret (proc' :: fst r, snd r)
  end.

(** The body of the outer loop for one slot. *)
Definition reap_job (job : job_t) : M job_t :=
  if Z.eqb (job_pgid job) 0 then ret job
  else
    r <- reap_procs (job_proc job) false false;;
    let state :=
      if fst (snd r) then RUNNING
      else if snd (snd r) then STOPPED
      else FINISHED in
    ret (Job (job_pgid job) (fst r) state (job_command job)).

(** [for (j = 0; j < njobmax; j++)]: every iteration rewrites slot [j] only. *)
Fixpoint reap_jobs (slots : list job_t) : M (list job_t) :=
  match slots with
  | [] => ret []
  | job :: rest =>
      job' <- reap_job job;;
      rest' <- reap_jobs rest;;
      ret (job' :: rest')
  end.

Definition sigchld_handler : M unit :=
  w <- get;;
  slots <- reap_jobs (jobs w);;
  set_jobs slots.

(** [Sigsuspend(mask)]: with SIGCHLD left blocked nothing the shell handles
    can end the wait; otherwise the next SIGCHLD arrives, its news become
    visible to [waitpid], and the handler runs before the call returns. *)
Definition Sigsuspend (mask : bool) : M unit :=
  if mask then stop Suspended
  else
    w <- get;;
    match wakeups w with
    | [] => stop Suspended
    | news :: later =>
        set_wakeups later;;
        set_children (children w ++ news);;
        sigchld_handler
    end.

(* When pipeline is done, its exitcode is fetched from the last process. *)
Definition exitcode (job : job_t) : M Z :=
  match last (job_proc job) with
  | Some proc => ret (proc_exitcode proc)
  | None => stop (Undefined "proc[-1]")
  end.

(** The index of the first free background slot among [slots], which start
    at index [j]. *)
Fixpoint find_free (j : nat) (slots : list job_t) : option nat :=
  match slots with
  | [] => None
  | job :: rest =>
      if Z.eqb (job_pgid job) 0 then Some j else find_free (S j) rest
  end.

(** The slot added by [realloc] is not initialised; [addjob], the only
    caller, assigns every field of it. *)
Definition allocjob : M Z :=
  w <- get;;
  match find_free (Z.to_nat BG) (drop (Z.to_nat BG) (jobs w)) with
  | Some j => ret (Z.of_nat j)
  | None =>
      set_jobs (jobs w ++ [zero_job]);;
      ret (Z.of_nat (njobmax w))
  end.

Definition addjob (pgid : Z) (bg : Z) : M Z :=
  j <- (if Z.eqb bg 0 then ret FG else allocjob);;
  (* Initial state of a job. *)
  set_jobslot (Z.to_nat j) (Job pgid [] RUNNING None);;
  ret j.

(** [deljob] works on the slot its argument points to; the caller stores
    the result back into that slot. *)
Definition deljob (job : job_t) : M job_t :=
  assert (Z.eqb (job_state job) FINISHED) "job->state == FINISHED";;
  ret (Job 0 [] (job_state job) None).

Definition movejob (from to : nat) : M unit :=
  dst <- jobslot to;;
  assert (Z.eqb (job_pgid dst) 0) "jobs[to].pgid == 0";;
  src <- jobslot from;;
  set_jobslot to src;;
  set_jobslot from zero_job.

(** Modelled from the spec: [strapp] is not among the sources; it appends
    a string to the command text, which starts out absent. *)
Definition strapp (cmd : option string) (s : string) : option string :=
  match cmd with
  | Some c => Some (c ++ s)%string
  | None => Some s
  end.

(** The loop of [mkcommand]: [argv] must be strings up to the null. *)
Fixpoint mkcommand_args (cmd : option string) (argv : list token_t)
  : M (option string) :=
  match argv with
  | T_NULL :: _ => ret cmd
  | T_STR s :: rest => mkcommand_args (strapp (strapp cmd " ") s) rest
  | _ => stop (Undefined "argv is not a null-terminated array of strings")
  end.

Definition mkcommand (cmd : option string) (argv : list token_t)
  : M (option string) :=
  let cmd := match cmd with Some _ => strapp cmd " | " | None => cmd end in
  match argv with
  | T_STR s :: rest => mkcommand_args (strapp cmd s) rest
  | _ => stop (Undefined "argv[0] is not a string")
  end.

Definition addproc (j : Z) (pid : Z) (argv : list token_t) : M unit :=
  w <- get;;
  assert (Z.ltb j (Z.of_nat (njobmax w))) "j < njobmax";;
  job <- jobslot (Z.to_nat j);;
  (* Initial state of a process. *)
  let proc := Proc pid RUNNING (-1) in
  command <- mkcommand (job_command job) argv;;
  set_jobslot (Z.to_nat j)
    (Job (job_pgid job) (job_proc job ++ [proc]) (job_state job) command).

(* Returns job's state.
   If it's finished, delete it and return exitcode through statusp. *)
Definition jobstate (j : Z) (status : Z) : M (Z * Z) :=
  w <- get;;
  assert (Z.ltb j (Z.of_nat (njobmax w))) "j < njobmax";;
  job <- jobslot (Z.to_nat j);;
  let state := job_state job in
  fg_job <- jobslot 0;;
  if Z.eqb (job_state fg_job) FINISHED then
    status' <- exitcode job;;
    fg_job' <- deljob fg_job;;
    set_jobslot 0 fg_job';;
    ret (state, status')
  else ret (state, status).

Definition jobcmd (j : Z) : M (option string) :=
  w <- get;;
  assert (Z.ltb j (Z.of_nat (njobmax w))) "j < njobmax";;
  job <- jobslot (Z.to_nat j);;
  ret (job_command job).

(** The loop of [monitorjob]; it gives the value [exitcode] has at the
    [break].  [fuel] bounds the number of wake-ups. *)
Fixpoint monitor_loop (fuel : nat) (mask : bool) : M Z :=
  match fuel with
  | 0 => stop Suspended
  | S fuel' =>
      Sigsuspend mask;;
      fg_job <- jobslot (Z.to_nat FG);;
      let state := job_state fg_job in
      if Z.eqb state STOPPED then
        bg <- addjob 0 BG;;
        movejob (Z.to_nat FG) (Z.to_nat bg);;
        ret (-1)%Z
      else if Z.eqb state FINISHED then
        assert (negb (Nat.eqb (length (job_proc fg_job)) 0))
               "fg_job->proc != NULL";;
        exitcode fg_job
      else monitor_loop fuel' mask
  end.

(* Monitor job execution. If it gets stopped move it to background.
   When a job has finished or has been stopped move shell to foreground. *)
Definition monitorjob (mask : bool) : M Z :=
  fg_job <- jobslot (Z.to_nat FG);;
  assert (negb (Z.eqb (job_pgid fg_job) 0)) "fg_job->pgid";;
  w <- get;;
  Tcsetpgrp (tty_fd w) (job_pgid fg_job);;
  exitcode <- monitor_loop (S (length (wakeups w))) mask;;
  pgrp <- getpgrp;;
  Tcsetpgrp (tty_fd w) pgrp;;
  ret exitcode.

(** The default choice of [resumejob]:
    [for (j = njobmax - 1; j > 0 && jobs[j].state == FINISHED; j--)]. *)
Fixpoint last_unfinished (slots : list job_t) (j : nat) : nat :=
  match j with
  | 0 => 0
  | S j' =>
      match slots !! j with
      | Some job =>
          if Z.eqb (job_state job) FINISHED then last_unfinished slots j'
          else j
      | None => j
      end
  end.

(* Continues a job that has been stopped. If move to foreground was requested,
   then move the job to foreground and start monitoring it. *)
Definition resumejob (j : Z) (bg : Z) (mask : bool) : M bool :=
  w <- get;;
  let j :=
    if Z.ltb j 0 then
      if Z.ltb (Z.of_nat (njobmax w) - 1) 0 then (-1)%Z
      else Z.of_nat (last_unfinished (jobs w) (njobmax w - 1))
    else j in
  if Z.geb j (Z.of_nat (njobmax w)) then ret false
  else if Z.ltb j 0 then stop (Undefined "jobs[-1]")
  else
    job <- jobslot (Z.to_nat j);;
    if Z.eqb (job_state job) FINISHED then ret false
    else
      Kill (- job_pgid job) SIGCONT;;
      (if Z.eqb bg 0 then
         movejob (Z.to_nat j) (Z.to_nat FG);;
         monitorjob mask;;
         ret tt
       else ret tt);;
      ret true.

(* Kill the job by sending it a SIGTERM. *)
Definition killjob (j : Z) : M bool :=
  w <- get;;
  if Z.geb j (Z.of_nat (njobmax w)) then ret false
  else if Z.ltb j 0 then stop (Undefined "jobs[j] with j < 0")
  else
    job <- jobslot (Z.to_nat j);;
    if Z.eqb (job_state job) FINISHED then ret false
    else
      debug "[%d] killing '%s'\n" [AInt j; AStr (job_command job)];;
      if Z.eqb (job_pgid job) 0 then ret false
      else
        Kill (- job_pgid job) SIGTERM;;
        ret true.

(** The body of the loop of [watchjobs] for an occupied slot [j]. *)
Definition watchjob (which : Z) (j : nat) (job : job_t) : M unit :=
  if Z.eqb which ALL || Z.eqb (job_state job) which then
    msg "[%d] " [AInt (Z.of_nat j)];;
    if Z.eqb (job_state job) FINISHED then
      code <- exitcode job;;
      msg "exited, status=%d (%s)\n" [AInt code; AStr (job_command job)];;
      job' <- deljob job;;
      set_jobslot j job'
    else if Z.eqb (job_state job) STOPPED then
      msg "stopped (%s)\n" [AStr (job_command job)]
    else if Z.eqb (job_state job) RUNNING then
      msg "running (%s)\n" [AStr (job_command job)]
    else ret tt
  else ret tt.

(** [for (; j < njobmax; j++)], with [k] iterations to go. *)
Fixpoint watchjobs_from (which : Z) (k : nat) (j : nat) : M unit :=
  match k with
  | 0 => ret tt
  | S k' =>
      job <- jobslot j;;
      (if Z.eqb (job_pgid job) 0 then ret tt else watchjob which j job);;
      watchjobs_from which k' (S j)
  end.

(* Report state of requested background jobs. Clean up finished jobs. *)
Definition watchjobs (which : Z) : M unit :=
  w <- get;;
  watchjobs_from which (njobmax w - Z.to_nat BG) (Z.to_nat BG).

(* Called just at the beginning of shell's life. *)
Definition initjobs : M unit :=
  Signal SIGCHLD (Handler "sigchld_handler");;
  set_jobs [zero_job];;
  w <- get;;
  assert (sys_isatty_stdin (os w)) "isatty(STDIN_FILENO)";;
  set_tty_fd (sys_dup_stdin (os w));;
  emit (EFcntl (sys_dup_stdin (os w)));;
  pgrp <- getpgrp;;
  Tcsetpgrp (sys_dup_stdin (os w)) pgrp.

(** The loop of [shutdownjobs], with [k] iterations to go. *)
Fixpoint shutdown_from (mask : bool) (k : nat) (j : nat) : M unit :=
  match k with
  | 0 => ret tt
  | S k' =>
      job <- jobslot j;;
      (if Z.eqb (job_pgid job) 0 then ret tt
       else
         (if Z.eqb (job_state job) STOPPED
          then resumejob (Z.of_nat j) BG mask;; ret tt
          else ret tt);;
         killjob (Z.of_nat j);;
         Sigsuspend mask);;
      shutdown_from mask k' (S j)
  end.

(* Called just before the shell finishes. *)
Definition shutdownjobs : M unit :=
  mask <- Sigprocmask_block;;
  (* Kill remaining jobs and wait for them to finish. *)
  w <- get;;
  shutdown_from mask (njobmax w) 0;;
  watchjobs FINISHED;;
  Sigprocmask_setmask mask;;
  w <- get;;
  close (tty_fd w).

End Jobs.

(** ** Built-in commands *)

Section Command.
Context `{shell_h}.

(** [argv[0]] of a built-in or a command: a string or the null pointer.
    Another separator there is not a pointer to characters. *)
Definition argv0 (argv : list token_t) : M (option string) :=
  match argv with
  | T_STR s :: _ => ret (Some s)
  | T_NULL :: _ => ret None
  | _ => stop (Undefined "argv[0] is neither a string nor null")
  end.

(** The words of [argv] up to the terminating null. *)
Fixpoint argv_words (argv : list token_t) : list string :=
  match argv with
  | T_STR s :: rest => s :: argv_words rest
  | _ => []
  end.

(** [atoi] of the C library, as glibc has it: [(int) strtol(s, NULL, 10)].
    White space, an optional sign, decimal digits; [strtol] saturates at the
    range of [long], and the conversion to [int] keeps the low 32 bits. *)
Definition isspace (c : ascii) : bool :=
  let n := nat_of_ascii c in
  Nat.eqb n 32 || (Nat.leb 9 n && Nat.leb n 13).

Definition digit_value (c : ascii) : option Z :=
  let n := nat_of_ascii c in
  if Nat.leb 48 n && Nat.leb n 57 then Some (Z.of_nat (n - 48)) else None.

Fixpoint atoi_digits (acc : Z) (s : string) : Z :=
  match s with
  | String c rest =>
      match digit_value c with
      | Some d => atoi_digits (10 * acc + d) rest
      | None => acc
      end
  | EmptyString => acc
  end.

Definition atoi_signed (s : string) : Z :=
  match s with
  | String "-" rest => (- atoi_digits 0 rest)%Z
  | String "+" rest => atoi_digits 0 rest
  | _ => atoi_digits 0 s
  end.

(** The number that the digits spell. *)
Fixpoint atoi_value (s : string) : Z :=
  match s with
  | String c rest => if isspace c then atoi_value rest else atoi_signed s
  | EmptyString => 0%Z
  end.

Definition LONG_MAX : Z := 9223372036854775807.
Definition LONG_MIN : Z := -9223372036854775808.

(** [strtol] gives [LONG_MAX] or [LONG_MIN] for a number out of range. *)
Definition to_long (z : Z) : Z := Z.max LONG_MIN (Z.min LONG_MAX z).

(** The conversion of a [long] to the 32-bit [int]. *)
Definition to_int (z : Z) : Z :=
  ((z + 2147483648) mod 4294967296 - 2147483648)%Z.

Definition atoi (s : string) : Z := to_int (to_long (atoi_value s)).

Definition do_quit (argv : list token_t) : M Z :=
  stop (Exited 0).

(*
 * Change current working directory.
 * 'cd' - change to $HOME
 * 'cd path' - change to provided path
 *)
Definition do_chdir (argv : list token_t) : M Z :=
  arg <- argv0 argv;;
  w <- get;;
  let path := match arg with None => env_HOME (os w) | Some _ => arg end in
  emit (EChdir path);;
  if sys_chdir (os w) path then ret 0%Z
  else
    msg "cd: %s: %s\n" [AStrerror; AStr path];;
    ret 1%Z.

(*
 * Displays all stopped or running jobs.
 *)
Definition do_jobs (argv : list token_t) : M Z :=
  watchjobs ALL;;
  ret 0%Z.

(*
 * Move running or stopped background job to foreground.
 * 'fg' choose highest numbered job
 * 'fg n' choose job number n
 *)
Definition do_fg (argv : list token_t) : M Z :=
  arg <- argv0 argv;;
  let j := match arg with Some s => atoi s | None => (-1)%Z end in
  mask <- Sigprocmask_block;;
  found <- resumejob j FG mask;;
  (if found then ret tt else msg "fg: job not found: %s\n" [AStr arg]);;
  Sigprocmask_setmask mask;;
  ret 0%Z.

(*
 * Make stopped background job running.
 * 'bg' choose highest numbered job
 * 'bg n' choose job number n
 *)
Definition do_bg (argv : list token_t) : M Z :=
  arg <- argv0 argv;;
  let j := match arg with Some s => atoi s | None => (-1)%Z end in
  mask <- Sigprocmask_block;;
  found <- resumejob j BG mask;;
  (if found then ret tt else msg "bg: job not found: %s\n" [AStr arg]);;
  Sigprocmask_setmask mask;;
  ret 0%Z.

Definition do_kill (argv : list token_t) : M Z :=
  arg <- argv0 argv;;
  match arg with
  | None => ret (-1)%Z
  | Some (String "%" number) =>
      let j := atoi number in
      mask <- Sigprocmask_block;;
      found <- killjob j;;
      (if found then ret tt else msg "kill: job not found: %s\n" [AStr arg]);;
      Sigprocmask_setmask mask;;
      ret 0%Z
  | Some _ => ret (-1)%Z
  end.

Definition builtins : list (string * (list token_t -> M Z)) :=
  [ ("quit", do_quit); ("cd", do_chdir); ("jobs", do_jobs); ("fg", do_fg);
    ("bg", do_bg); ("kill", do_kill) ].

(** The loop of [builtin_command] over the table. *)
Fixpoint builtin_lookup (name : string)
    (table : list (string * (list token_t -> M Z)))
  : option (list token_t -> M Z) :=
  match table with
  | [] => None
  | (cmd_name, func) :: rest =>
      if String.eqb name cmd_name then Some func
      else builtin_lookup name rest
  end.

Definition builtin_command (argv : list token_t) : M Z :=
  match argv with
  | T_STR name :: args =>
      match builtin_lookup name builtins with
      | Some func => func args
      | None => ret (-1)%Z
      end
  | _ => stop (Undefined "strcmp(argv[0], ..) with argv[0] not a string")
  end.

Definition execve (path : string) (argv : list token_t) : M unit :=
  emit (EExecve path (argv_words argv));;
  w <- get;;
  if sys_execve (os w) path then stop (Execed path) else ret tt.

(** [strcspn(path, ":")] *)
Fixpoint strcspn_colon (path : string) : nat :=
  match path with
  | String ":" _ => 0
  | String _ rest => S (strcspn_colon rest)
  | EmptyString => 0
  end.

(** [index(s, '/')] as a truth value *)
Fixpoint has_slash (s : string) : bool :=
  match s with
  | String "/" _ => true
  | String _ rest => has_slash rest
  | EmptyString => false
  end.

Fixpoint string_drop (n : nat) (s : string) : string :=
  match n, s with
  | S n', String _ rest => string_drop n' rest
  | _, _ => s
  end.

(** The [do .. while] of [external_command]; [fuel] bounds the number of
    directories tried. *)
Fixpoint try_path (fuel : nat) (path : string) (name : string)
    (argv : list token_t) : M unit :=
  match fuel with
  | 0 => stop (Unbounded "external_command")
  | S fuel' =>
      let len := strcspn_colon path in
      if Nat.eqb len 0 then ret tt
      else
        let abs_path :=
          (String.substring 0 len path ++ "/" ++ name)%string in
        execve abs_path argv;;
        match string_drop len path with
        | String _ path' => try_path fuel' path' name argv
        | EmptyString => ret tt
        end
  end.

Definition external_command (argv : list token_t) : M unit :=
  w <- get;;
  match argv with
  | T_STR name :: _ =>
      match has_slash name, env_PATH (os w) with
      | false, Some path =>
          try_path (S (String.length path)) path name argv
      | _, _ => execve name argv
      end;;
      msg "%s: %s\n" [AStr (Some name); AStrerror];;
      stop (Exited 1)
  | _ => stop (Undefined "argv[0] is not a string")
  end.

End Command.

(** ** The evaluator *)

Section Shell.
Context `{shell_h}.

Definition STDIN_FILENO : Z := 0.
Definition STDOUT_FILENO : Z := 1.

(** [token[i]]; every read of the code is inside the array when the array
    has a cell after the [ntokens] tokens, as the lexer provides. *)
Definition tok_at (token : list token_t) (i : nat) : token_t :=
  default T_NULL (token !! i).

(** [for (int j = i+2; j < ntokens; j++) token[j-2] = token[j];] with [k]
    iterations to go. *)
Fixpoint shift_tokens (k : nat) (j : nat) (token : list token_t)
  : list token_t :=
  match k with
  | 0 => token
  | S k' => shift_tokens k' (S j) (<[j - 2 := tok_at token j]> token)
  end.

Definition is_redir (t : token_t) : bool :=
  token_eqb t T_INPUT || token_eqb t T_OUTPUT.

(** The loop of [do_redir].  A pass that removes a redirection ends with
    [i--], undone by the [i++] of the loop, so [i] is carried over. *)
Fixpoint do_redir_loop (fuel : nat) (token : list token_t)
    (ntokens i n : nat) (input output : Z)
  : M (list token_t * nat * (Z * Z)) :=
  match fuel with
  | 0 => stop (Unbounded "do_redir")
  | S fuel' =>
      if Nat.ltb i ntokens && negb (token_eqb (tok_at token i) T_NULL) then
        if is_redir (tok_at token i) then
          assert (negb (Nat.eqb (i + 1) ntokens)
                  && string_p (tok_at token (i + 1)))
                 "i+1 != ntokens && string_p(token[i+1])";;
          let mode := tok_at token i in
          let filename :=
            match tok_at token (i + 1) with T_STR s => s | _ => "" end in
          let flags :=
            if token_eqb mode T_INPUT then O_RDONLY else O_WRONLY_O_CREAT in
          let fd := if token_eqb mode T_INPUT then input else output in
          (if negb (Z.eqb fd (-1)) then close fd else ret tt);;
          fd' <- open filename flags;;
          let input' := if token_eqb mode T_INPUT then fd' else input in
          let output' := if token_eqb mode T_INPUT then output else fd' in
          let token := shift_tokens (ntokens - (i + 2)) (i + 2) token in
          let token := <[ntokens - 2 := T_NULL]> token in
          let token := <[ntokens - 1 := T_NULL]> token in
          do_redir_loop fuel' token ntokens i n input' output'
        else
          do_redir_loop fuel' token ntokens (S i) (S n) input output
      else
        ret (<[n := T_NULL]> token, n, (input, output))
  end.

(* Consume all tokens related to redirection operators.
   Put opened file descriptors into inputp & output respectively. *)
Definition do_redir (token : list token_t) (ntokens : nat)
    (input output : Z) : M (list token_t * nat * (Z * Z)) :=
  do_redir_loop (S ntokens) token ntokens 0 0 input output.

(** The block [if (!pid) { .. }] of [do_job], run by the child. *)
Definition do_job_child (input output : Z) (token : list token_t)
  : M unit :=
  Sigprocmask_setmask false;;
  Signal SIGTSTP SIG_DFL;;
  Signal SIGTTIN SIG_DFL;;
  Signal SIGTTOU SIG_DFL;;
  (if negb (Z.eqb output (-1)) then dup2 output STDOUT_FILENO
   else ret tt);;
  (if negb (Z.eqb input (-1)) then dup2 input STDIN_FILENO
   else ret tt);;
  external_command token.

(* Execute internal command within shell's process or execute external command
   in a subprocess. External command can be run in the background. *)
Definition do_job (token : list token_t) (ntokens : nat) (bg : bool)
  : M Z :=
  r <- do_redir token ntokens (-1) (-1);;
  let token := fst (fst r) in
  let input := fst (snd r) in
  let output := snd (snd r) in
  exitcode <- builtin_command token;;
  if Z.geb exitcode 0 then ret exitcode
  else
    mask <- Sigprocmask_block;;
    (* Start a subprocess, create a job and monitor it. *)
    pid <- Fork;;
    (if Z.eqb pid 0 then do_job_child input output token else ret tt);;
    setpgid pid pid;;
    job <- addjob pid (Z.b2z bg);;
    addproc job pid token;;
    (if negb (Z.eqb output (-1)) then close output else ret tt);;
    (if negb (Z.eqb input (-1)) then close input else ret tt);;
    exitcode <-
      (if negb bg then monitorjob mask
       else
         cmd <- jobcmd job;;
         msg "[%d] running '%s'\n" [AInt job; AStr cmd];;
         ret exitcode);;
    Sigprocmask_setmask mask;;
    ret exitcode.

(** The block [if (!pid) { .. }] of [do_stage], run by the child. *)
Definition do_stage_child (mask : bool) (input output : Z)
    (token : list token_t) : M unit :=
  Sigprocmask_setmask mask;;
  Signal SIGTSTP SIG_DFL;;
  Signal SIGTTIN SIG_DFL;;
  Signal SIGTTOU SIG_DFL;;
  (if negb (Z.eqb input (-1)) then dup2 input STDIN_FILENO
   else ret tt);;
  (if negb (Z.eqb output (-1)) then dup2 output STDOUT_FILENO
   else ret tt);;
  exitcode <- builtin_command token;;
  (if Z.geb exitcode 0 then stop (Exited exitcode) else ret tt);;
  external_command token.

(* Start internal or external command in a subprocess that belongs to pipeline.
   All subprocesses in pipeline must belong to the same process group. *)
Definition do_stage (pgid : Z) (mask : bool) (input output : Z)
    (token : list token_t) (ntokens : nat) : M (Z * list token_t) :=
  r <- do_redir token ntokens input output;;
  let token := fst (fst r) in
  let input := fst (snd r) in
  let output := snd (snd r) in
  (* Start a subprocess and make sure it's moved to a process group. *)
  pid <- Fork;;
  (if Z.eqb pid 0 then do_stage_child mask input output token else ret tt);;
  setpgid pid pgid;;
  ret (pid, token).

Definition mkpipe : M (Z * Z) := Pipe.

(** The variables of [do_pipeline] that its loop changes. *)
Record pipeline_vars : Type := PipelineVars {
  pl_token : list token_t;
  pl_pgid : Z;
  pl_job : Z;
  pl_input : Z;
  pl_output : Z;
  pl_next_input : Z
}.

(** [for (stage_end = ..; stage_end < ntokens; stage_end++)] with [k]
    iterations to go: where the stage ends, [is_last], and the tokens with
    the pipe sign overwritten. *)
Fixpoint scan_stage (k : nat) (stage_end : nat) (token : list token_t)
  : nat * bool * list token_t :=
  match k with
  | 0 => (stage_end, true, token)
  | S k' =>
      if token_eqb (tok_at token stage_end) T_PIPE
      then (stage_end, false, <[stage_end := T_NULL]> token)
      else scan_stage k' (S stage_end) token
  end.

(** [while (stage_start < ntokens)] *)
Fixpoint pipeline_loop (fuel : nat) (ntokens : nat) (bg : bool)
    (mask : bool) (stage_start : nat) (v : pipeline_vars)
  : M pipeline_vars :=
  match fuel with
  | 0 => stop (Unbounded "do_pipeline")
  | S fuel' =>
      if Nat.ltb stage_start ntokens then
        let scan :=
          scan_stage (ntokens - stage_start) stage_start (pl_token v) in
        let stage_end := fst (fst scan) in
        let is_last := snd (fst scan) in
        let token := snd scan in
        let tok_len := stage_end - stage_start in
        let output := if is_last then (-1)%Z else pl_output v in
        r <- do_stage (pl_pgid v) mask (pl_input v) output
               (drop stage_start token) tok_len;;
        let pid := fst r in
        let stage_tokens := snd r in
        let token := take stage_start token ++ stage_tokens in
        (if negb (Z.eqb output (-1)) then close output else ret tt);;
        (if negb (Z.eqb (pl_input v) (-1)) then close (pl_input v)
         else ret tt);;
        pj <- (if Z.eqb (pl_job v) (-1) then
                 job <- addjob pid (Z.b2z bg);; ret (pid, job)
               else ret (pl_pgid v, pl_job v));;
        addproc (snd pj) pid stage_tokens;;
        let input := pl_next_input v in
        p <- (if negb is_last then mkpipe
              else ret (pl_next_input v, output));;
        pipeline_loop fuel' ntokens bg mask (stage_end + 1)
          (PipelineVars token (fst pj) (snd pj) input (snd p) (fst p))
      else ret v
  end.

(* Pipeline execution creates a multiprocess job. Both internal and external
   commands are executed in subprocesses. *)
Definition do_pipeline (token : list token_t) (ntokens : nat) (bg : bool)
  : M Z :=
  let exitcode := 0%Z in
  p <- mkpipe;;
  mask <- Sigprocmask_block;;
  v <- pipeline_loop (S ntokens) ntokens bg mask 0
         (PipelineVars token 0 (-1) (-1) (snd p) (fst p));;
  close (pl_next_input v);;
  (if negb bg then monitorjob mask;; ret tt
   else
     cmd <- jobcmd (pl_job v);;
     msg "[%d] running '%s'\n" [AInt (pl_job v); AStr cmd]);;
  Sigprocmask_setmask mask;;
  ret exitcode.

(** [for (int i = 0; i < ntokens; i++)] over the first [ntokens] cells *)
Definition is_pipeline (token : list token_t) (ntokens : nat) : bool :=
  existsb (fun t => token_eqb t T_PIPE) (take ntokens token).

(** [eval] after [tokenize], which is not among the sources: the tokens of
    the line and their number are the input. *)
Definition eval (token : list token_t) (ntokens : nat) : M unit :=
  let background :=
    Nat.ltb 0 ntokens && token_eqb (tok_at token (ntokens - 1)) T_BGJOB in
  let token :=
    if background then <[ntokens - 1 := T_NULL]> token else token in
  let ntokens := if background then ntokens - 1 else ntokens in
  let bg := background in
  if Nat.ltb 0 ntokens then
    if is_pipeline token ntokens
    then do_pipeline token ntokens bg;; ret tt
    else do_job token ntokens bg;; ret tt
  else ret tt.

(** One turn of the loop of [main] for a line that is not empty:
    evaluate it, then report the background jobs that have finished. *)
Definition main_turn (line : list token_t * nat) : M unit :=
  eval (fst line) (snd line);;
  watchjobs FINISHED.

(** SIGCHLD arrives [k] times while the shell waits with the signal
    unblocked: each arrival makes its news visible to [waitpid] and runs
    the handler. *)
Fixpoint sigchld_arrives (k : nat) : M unit :=
  match k with
  | 0 => ret tt
  | S k' =>
      w <- get;;
      match wakeups w with
      | [] => ret tt
      | news :: later =>
          set_wakeups later;;
          set_children (children w ++ news);;
          sigchld_handler;;
          sigchld_arrives k'
      end
  end.

(** [readline("# ")].  What it returns, a line or the null pointer at end
    of input, is an input of [main_loop]; while the shell waits for it,
    SIGCHLD is delivered as often as [arrivals] says, unless it is
    blocked. *)
Definition readline : M unit :=
  w <- get;;
  match arrivals w with
  | [] => ret tt
  | k :: later =>
      set_arrivals later;;
      if sigchld_blocked w then ret tt else sigchld_arrives k
  end.

(** The loop of [main]: a [readline] before every turn, and the one that
    meets end of input. *)
Fixpoint main_loop (lines : list (list token_t * nat)) : M unit :=
  match lines with
  | [] => readline
  | line :: rest => readline;; main_turn line;; main_loop rest
  end.

(** [main], reading the given lines and then end of input. *)
Definition main (lines : list (list token_t * nat)) : M Z :=
  initjobs;;
  Signal SIGINT (Handler "sigint_handler");;
  Signal SIGTSTP SIG_IGN;;
  Signal SIGTTIN SIG_IGN;;
  Signal SIGTTOU SIG_IGN;;
  main_loop lines;;
  msg "\n" [];;
  shutdownjobs;;
  ret 0%Z.

End Shell.

(** ** Vocabulary of the statements *)

(** The events of a run [r], after the events [es] that came before. *)
Definition prepend {A} (es : list event) (r : run A) : run A :=
  Run (res r) (st r) (es ++ evs r).

(** [spec E L R m]: whatever the state, [m] emits only events in [E], halts
    only in a way in [L], and returns only values in [R]. *)
Definition spec {A} (E : event -> Prop) (L : halt -> Prop) (R : A -> Prop)
    (m : M A) : Prop :=
  forall w, Forall E (evs (m w)) /\
            match res (m w) with Ret a => R a | Halt h => L h end.

Definition any {T} : T -> Prop := fun _ => True.
Definition none {T} : T -> Prop := fun _ => False.

Section Vocabulary.
Context `{shell_h}.

(** The rule of the specification for the state of a job: RUNNING if any
    process is RUNNING, else STOPPED if any is STOPPED, else FINISHED. *)
Definition derive (procs : list proc_t) : Z :=
  if existsb (fun p => Z.eqb (proc_state p) RUNNING) procs then RUNNING
  else if existsb (fun p => Z.eqb (proc_state p) STOPPED) procs then STOPPED
  else FINISHED.

Definition derived (job : job_t) : Prop :=
  job_pgid job <> 0%Z -> job_state job = derive (job_proc job).

Definition flags_of (hr hs : bool) (r : list proc_t * (bool * bool)) : Prop :=
  snd r =
    (hr || existsb (fun p => Z.eqb (proc_state p) RUNNING) (fst r),
     hs || existsb (fun p => Z.eqb (proc_state p) STOPPED) (fst r)).

(** The job number [j] given to [fg] or [bg] (negative: none given) selects
    nothing: it is past the table, or names a FINISHED slot, or none was
    given and no slot of the table is other than FINISHED. *)
Definition selection_fails (slots : list job_t) (j : Z) : Prop :=
  (Z.of_nat (length slots) <= j)%Z
  \/ (exists job, (0 <= j)%Z /\ slots !! Z.to_nat j = Some job
                  /\ job_state job = FINISHED)
  \/ ((j < 0)%Z /\ slots <> []
      /\ Forall (fun job => job_state job = FINISHED) slots).

(** No occupied background slot is FINISHED. *)
Definition no_finished_background (slots : list job_t) : Prop :=
  forall (j : nat) (job : job_t),
    1 <= j -> slots !! j = Some job ->
    job_pgid job <> 0%Z -> job_state job <> FINISHED.

End Vocabulary.

(** Events other than a fork and a change of process group. *)
Definition quiet (e : event) : Prop :=
  match e with
  | EFork _ | ESetpgid _ _ => False
  | _ => True
  end.

(** Ways of halting other than a loop outrunning its bound. *)
Definition bounded (h : halt) : Prop :=
  match h with
  | Unbounded _ => False
  | _ => True
  end.

(** [tame m]: [m] neither forks nor sets a process group, and none of its
    loops outruns the bound of its model. *)
Definition tame {A} (m : M A) : Prop := spec quiet bounded any m.

(** What [do_redir] may do to the outside: open and close files. *)
Definition redir_event (e : event) : Prop :=
  match e with
  | EOpen _ _ _ | EClose _ => True
  | _ => False
  end.

(** The assertion of [do_redir], and the only way [do_redir] may halt. *)
Definition redir_assertion : string :=
  "i+1 != ntokens && string_p(token[i+1])".

Definition redir_halt (h : halt) : Prop := h = Aborted redir_assertion.

(** Exit statuses a built-in gives when it has done its work. *)
Definition nonneg (c : Z) : Prop := (0 <= c)%Z.

(** The tokens of [l] that are not the null token. *)
Fixpoint live (l : list token_t) : nat :=
  match l with
  | [] => 0
  | t :: rest => if token_eqb t T_NULL then live rest else S (live rest)
  end.

(** Reading [mid] from the left the way [do_redir] does, up to the first
    null token: is a redirection operator met that has no string after
    it? *)
Fixpoint malformed (mid : list token_t) : bool :=
  match mid with
  | [] => false
  | t :: rest =>
      if token_eqb t T_NULL then false
      else if is_redir t then
        match rest with
        | T_STR _ :: rest' => malformed rest'
        | _ => true
        end
      else malformed rest
  end.

(** [m] leaves the state of the process as it found it. *)
Definition stateless {A} (m : M A) : Prop := forall w, st (m w) = w.

(** ** A header and a few situations to run the code on *)

(** A header with the states numbered from FINISHED. *)
Definition header : shell_h :=
  ShellH 0 1 2 (-1)
    (conj (Z.lt_neq 0 1 eq_refl)
       (conj (Z.lt_neq 0 2 eq_refl) (Z.lt_neq 1 2 eq_refl))).

(** A system where [nosuch] cannot be opened, other files open as
    descriptor 3, and the usual commands are found in [/bin]. *)
Definition sample_os : system :=
  System
    (fun file flags => if String.eqb file "nosuch" then (-1)%Z else 3%Z)
    (fun path =>
       String.eqb path "/bin/true" || String.eqb path "/bin/false"
       || String.eqb path "/bin/cat" || String.eqb path "/bin/kill")
    (fun path => true)
    (Some "/usr/bin:/bin") (Some "/root") 50 true 10.

(** The wait status of a child that called [exit(code)]. *)
Definition exited (code : Z) : wstatus := WStatus true false false false code.

(** The shell before [main] starts, and just after [initjobs]: the coming
    forks, pipes and SIGCHLDs are given. *)
Definition boot (forks : list Z) (pipes : list (Z * Z))
    (wakeups : list (list (Z * wstatus))) : world :=
  World [] (-1) false [] wakeups forks pipes sample_os [].

Definition fresh (forks : list Z) (pipes : list (Z * Z))
    (wakeups : list (list (Z * wstatus))) : world :=
  World [zero_job] 10 false [] wakeups forks pipes sample_os [].

(** A table with a finished background job in slot 1. *)
Definition one_finished : world :=
  World [zero_job; Job 100 [Proc 100 0 0] 0 (Some "sleep 1")]
        10 false [] [] [] [] sample_os [].

(** A table with a running job in the foreground slot, and the news that
    its process has exited with status 3. *)
Definition one_exiting : world :=
  World [Job 100 [Proc 100 1 (-1)] 1 (Some "sh")]
        10 true [(100%Z, exited 3)] [] [] [] sample_os [].

Definition line_true : list token_t * nat := ([T_STR "true"; T_NULL], 1).
Definition line_true_false : list token_t * nat :=
  ([T_STR "true"; T_PIPE; T_STR "false"; T_NULL], 3).
Definition line_cat_nosuch : list token_t * nat :=
  ([T_STR "cat"; T_INPUT; T_STR "nosuch"; T_NULL], 3).
Definition line_cat_gt : list token_t * nat :=
  ([T_STR "cat"; T_OUTPUT; T_NULL], 2).
Definition line_kill_7 : list token_t * nat :=
  ([T_STR "kill"; T_STR "7"; T_NULL], 2).

(** A table with a running background job in slot 1. *)
Definition one_running : world :=
  World [zero_job; Job 100 [Proc 100 1 (-1)] 1 (Some "sleep 9")]
        10 false [] [] [] [] sample_os [].

(** [m] does not touch the list of coming SIGCHLDs. *)
Definition keeps_wakeups {A} (m : M A) : Prop :=
  forall w, wakeups (st (m w)) = wakeups w.

(** Slot by slot, the same process groups. *)
Definition same_pgids (slots slots' : list job_t) : Prop :=
  Forall2 (fun a b => job_pgid b = job_pgid a) slots slots'.

(** ** Vocabulary for the invariants of the whole shell *)

(** The state [w] with another jobs table. *)
Definition with_jobs (js : list job_t) (w : world) : world :=
  World js (tty_fd w) (sigchld_blocked w) (children w) (wakeups w)
        (forks w) (pipes w) (os w) (arrivals w).

(** The state [w] with other pending child state changes. *)
Definition with_children (c : list (Z * wstatus)) (w : world) : world :=
  World (jobs w) (tty_fd w) (sigchld_blocked w) c (wakeups w)
        (forks w) (pipes w) (os w) (arrivals w).

(** What the shell keeps from [w] to [w']: the table has not shrunk, the
    system and the terminal descriptor are the same and, when [keep_mask]
    is set, so is the signal mask. *)
Definition framed (keep_mask : bool) (w w' : world) : Prop :=
  length (jobs w) <= length (jobs w')
  /\ os w' = os w
  /\ tty_fd w' = tty_fd w
  /\ (keep_mask = true -> sigchld_blocked w' = sigchld_blocked w).

(** Events other than a hand-over of the terminal. *)
Definition no_tc (e : event) : Prop :=
  match e with
  | ETcsetpgrp _ _ => False
  | _ => True
  end.

(** The process group that the last [tcsetpgrp] of a trace gave the
    terminal to. *)
Fixpoint last_tcsetpgrp (es : list event) : option Z :=
  match es with
  | [] => None
  | e :: rest =>
      match last_tcsetpgrp rest with
      | Some g => Some g
      | None => match e with ETcsetpgrp _ g => Some g | _ => None end
      end
  end.

(** After the trace [es] the terminal is not with a job: the last
    hand-over, if there was one, was to the shell's own group. *)
Definition tty_home (w : world) (es : list event) : Prop :=
  match last_tcsetpgrp es with
  | Some g => g = sys_getpgrp (os w)
  | None => True
  end.

(** [m] never hands the terminal over and, when it returns, has kept the
    frame, signal mask included. *)
Definition calm {A} (m : M A) : Prop :=
  forall w,
    Forall no_tc (evs (m w))
    /\ forall a, res (m w) = Ret a -> framed true w (st (m w)).

(** When [m] returns it has kept the frame and the terminal is home. *)
Definition orderly {A} (keep_mask : bool) (m : M A) : Prop :=
  forall w a,
    res (m w) = Ret a ->
    framed keep_mask w (st (m w)) /\ tty_home w (evs (m w)).

(** When [m] returns, the signal mask is [mask], the rest of the frame is
    kept and the terminal is home. *)
Definition orderly_to {A} (mask : bool) (m : M A) : Prop :=
  forall w a,
    res (m w) = Ret a ->
    framed false w (st (m w))
    /\ sigchld_blocked (st (m w)) = mask
    /\ tty_home w (evs (m w)).

(** [m] prints nothing, and of the state changes at most the pending
    child state changes. *)
Definition reaps_only {A} (m : M A) : Prop :=
  forall w, evs (m w) = []
            /\ exists c, st (m w) = with_children c w
                         /\ sublist c (children w).

Section HandlerVocabulary.
Context `{shell_h}.

(** What the SIGCHLD handler may make of a process: the pid stays, a
    FINISHED process stays as it is, and the exit code changes only for a
    process that is FINISHED afterwards. *)
Definition kept_proc (p p' : proc_t) : Prop :=
  proc_pid p' = proc_pid p
  /\ (proc_state p = FINISHED -> p' = p)
  /\ (proc_exitcode p' = proc_exitcode p \/ proc_state p' = FINISHED).

(** What the SIGCHLD handler may make of a slot: the process group and the
    command text stay, the processes stay the same processes, and a free
    slot stays as it is. *)
Definition kept_job (job job' : job_t) : Prop :=
  job_pgid job' = job_pgid job
  /\ job_command job' = job_command job
  /\ Forall2 kept_proc (job_proc job) (job_proc job')
  /\ (job_pgid job = 0%Z -> job' = job).
End HandlerVocabulary.

(** The command text of a job after one more stage: the stages are joined
    by a bar, the words of a stage by a blank. *)
Definition command_text (old : option string) (words : list string)
  : string :=
  match old with
  | Some c => (c ++ " | " ++ String.concat " " words)%string
  | None => String.concat " " words
  end.

Section SweepVocabulary.
Context `{shell_h}.

(** A slot after the clean-up of [watchjobs]: an occupied FINISHED slot
    has been freed, any other is as it was. *)
Definition sweep_slot (job : job_t) : job_t :=
  if negb (Z.eqb (job_pgid job) 0) && Z.eqb (job_state job) FINISHED
  then Job 0 [] (job_state job) None
  else job.

(** The table with the slots from [j] on cleaned up. *)
Definition sweep_from (j : nat) (slots : list job_t) : list job_t :=
  take j slots ++ map sweep_slot (drop j slots).

(** The table after the clean-up of the background slots. *)
Definition swept (slots : list job_t) : list job_t := sweep_from 1 slots.
End SweepVocabulary.

(** ** Vocabulary for the search along PATH *)

(** The components of a PATH, which a colon separates. *)
Fixpoint split_colon (s : string) : list string :=
  match s with
  | EmptyString => [EmptyString]
  | String c rest =>
      if Ascii.eqb c ":" then EmptyString :: split_colon rest
      else match split_colon rest with
           | d :: later => String c d :: later
           | [] => [String c EmptyString]
           end
  end.

(** The components before the first empty one. *)
Fixpoint leading (dirs : list string) : list string :=
  match dirs with
  | [] => []
  | d :: later =>
      match d with
      | EmptyString => []
      | _ => d :: leading later
      end
  end.

(** The files an external command [name] may be: the name itself when it
    has a slash or there is no PATH, else the name in each directory of
    PATH up to the first empty component. *)
Definition candidates (o : system) (name : string) : list string :=
  match has_slash name, env_PATH o with
  | false, Some path =>
      map (fun d => (d ++ "/" ++ name)%string) (leading (split_colon path))
  | _, _ => [name]
  end.

(** The files tried in turn, up to and with the first that [execve] takes,
    and that file if there is one. *)
Fixpoint first_hit (o : system) (files : list string)
  : list string * option string :=
  match files with
  | [] => ([], None)
  | f :: later =>
      if sys_execve o f then ([f], Some f)
      else (f :: fst (first_hit o later), snd (first_hit o later))
  end.

Section MonitorVocabulary.
Context `{shell_h}.

(** The move of a foreground job that was seen STOPPED.  [seen] is the
    table as the handler left it: its foreground slot holds a STOPPED job
    of process group [g].  [slots] is the table after the move: the job,
    as it was in [seen], is in slot [bg], the lowest background slot that
    was free in [seen], or a new slot at the end when none was; the
    foreground slot is zeroed, and every other slot is as it was. *)
Definition moved_to_background (g : Z) (seen slots : list job_t) : Prop :=
  exists (bg : nat) (job : job_t),
    seen !! 0 = Some job
    /\ job_pgid job = g /\ job_state job = STOPPED
    /\ 1 <= bg
    /\ (forall k job', 1 <= k < bg -> seen !! k = Some job' ->
                       job_pgid job' <> 0%Z)
    /\ ((exists free, seen !! bg = Some free /\ job_pgid free = 0%Z)
        \/ bg = length seen)
    /\ slots !! 0 = Some zero_job
    /\ slots !! bg = Some job
    /\ forall k, k <> 0 -> k <> bg -> slots !! k = seen !! k.

(** The table after the foreground job of process group [g] was seen
    FINISHED with exit code [c]: the job is still in the foreground slot,
    and [c] is the exit code of its last process. *)
Definition left_in_foreground (g c : Z) (slots : list job_t) : Prop :=
  exists (job : job_t) (proc : proc_t),
    slots !! 0 = Some job
    /\ job_pgid job = g /\ job_state job = FINISHED
    /\ last (job_proc job) = Some proc /\ proc_exitcode proc = c.
End MonitorVocabulary.

(** ** Vocabulary for the redirections of a command *)

Section RedirVocabulary.
Context `{shell_h}.

(** Reading [mid] from the left up to the first null token: the tokens
    that are neither a redirection operator nor its file name. *)
Fixpoint kept_words (mid : list token_t) : list token_t :=
  match mid with
  | [] => []
  | t :: rest =>
      if token_eqb t T_NULL then []
      else if is_redir t then
        match rest with
        | T_STR _ :: rest' => kept_words rest'
        | _ => []
        end
      else t :: kept_words rest
  end.

(** The redirections of [mid] in the same reading: operator and file. *)
Fixpoint redirections (mid : list token_t) : list (token_t * string) :=
  match mid with
  | [] => []
  | t :: rest =>
      if token_eqb t T_NULL then []
      else if is_redir t then
        match rest with
        | T_STR file :: rest' => (t, file) :: redirections rest'
        | _ => []
        end
      else redirections rest
  end.

(** Carrying out redirections from the left on the system [o]: each one
    closes the descriptor held so far for its side, if there is one, and
    opens its file.  The result is the calls made and the two descriptors
    held at the end. *)
Fixpoint resolve (o : system) (rs : list (token_t * string))
    (input output : Z) : list event * (Z * Z) :=
  match rs with
  | [] => ([], (input, output))
  | (mode, file) :: later =>
      let fd := if token_eqb mode T_INPUT then input else output in
      let flags :=
        if token_eqb mode T_INPUT then O_RDONLY else O_WRONLY_O_CREAT in
      let fd' := sys_open o file flags in
      let r :=
        resolve o later
          (if token_eqb mode T_INPUT then fd' else input)
          (if token_eqb mode T_INPUT then output else fd') in
      ((if negb (Z.eqb fd (-1)) then [EClose fd] else [])
       ++ EOpen file flags fd' :: fst r,
       snd r)
  end.
End RedirVocabulary.

Section LaunchVocabulary.
Context `{shell_h}.

(** What the handler makes of a process that [waitpid] reports the status
    [s] for. *)
Definition reaped_proc (s : wstatus) (proc : proc_t) : proc_t :=
  if WIFEXITED s || WIFSIGNALED s then
    Proc (proc_pid proc) FINISHED (WEXITSTATUS s)
  else if WIFCONTINUED s then
    Proc (proc_pid proc) RUNNING (proc_exitcode proc)
  else if WIFSTOPPED s then
    Proc (proc_pid proc) STOPPED (proc_exitcode proc)
  else proc.

(** The descriptors of the redirections that the parent closes after the
    fork. *)
Definition parent_closes (io : Z * Z) : list event :=
  (if negb (Z.eqb (snd io) (-1)) then [EClose (snd io)] else [])
  ++ (if negb (Z.eqb (fst io) (-1)) then [EClose (fst io)] else []).
End LaunchVocabulary.

(** ** Vocabulary for the process group of a pipeline *)

(** What the forks of a trace returned, in order. *)
Fixpoint forked (es : list event) : list Z :=
  match es with
  | [] => []
  | EFork pid :: later => pid :: forked later
  | _ :: later => forked later
  end.

(** The calls of [setpgid] of a trace, in order: process and group. *)
Fixpoint setpgids (es : list event) : list (Z * Z) :=
  match es with
  | [] => []
  | ESetpgid pid pgid :: later => (pid, pgid) :: setpgids later
  | _ :: later => setpgids later
  end.

(** The calls of [setpgid] that put the processes [pids] in one group: the
    first is called with [g]; the others with the pid of the first when
    [first] is set, and with [g] as well when it is not. *)
Definition one_group (g : Z) (first : bool) (pids : list Z)
  : list (Z * Z) :=
  match pids with
  | [] => []
  | p1 :: others =>
      (p1, g) :: map (fun p => (p, if first then p1 else g)) others
  end.

(** ** More situations to run the code on *)

(** A running job in the foreground slot of a shell that has SIGCHLD
    unblocked, and the SIGCHLD to come with the given news. *)
Definition one_foreground (news : list (Z * wstatus)) : world :=
  World [Job 100 [Proc 100 1 (-1)] 1 (Some "sh")]
        10 false [] [news] [] [] sample_os [].

(** The wait status of a child that was stopped. *)
Definition stopped : wstatus := WStatus false false false true 0.

(** A finished job left in the foreground slot, and a stopped job in
    slot 1. *)
Definition stale_foreground : world :=
  World [Job 100 [Proc 100 0 0] 0 (Some "true");
         Job 101 [Proc 101 2 (-1)] 2 (Some "sleep 9")]
        10 false [] [] [] [] sample_os [].

Definition line_sort : list token_t * nat :=
  ([T_STR "sort"; T_INPUT; T_STR "in"; T_OUTPUT; T_STR "out"; T_STR "-r";
    T_NULL], 6).


(** The same table in a shell whose next fork returns 100; the SIGCHLD the
    monitor waits for brings the news that this child has exited, and no
    SIGCHLD arrives at the prompt after that. *)
Definition one_running_quiet_prompt : world :=
  World [zero_job; Job 90 [Proc 90 1 (-1)] 1 (Some "sleep 9")]
        10 false [] [[(100%Z, exited 0)]] [100%Z] [] sample_os [0].

(** The status that [waitpid] would report for [pid], if there is one. *)
Definition first_status (pid : Z) (c : list (Z * wstatus))
  : option wstatus :=
  match take_change pid c with
  | Some (s, _) => Some s
  | None => None
  end.

(** [m] leaves what [waitpid] would report for [pid] as it is. *)
Definition keeps_status {A} (pid : Z) (m : M A) : Prop :=
  forall w, first_status pid (children (st (m w)))
            = first_status pid (children w).

Section RecordVocabulary.
Context `{shell_h}.

(** No process of [procs] that the handler would wait for has the pid
    [pid]. *)
Definition other_procs (pid : Z) (procs : list proc_t) : Prop :=
  Forall (fun proc' => proc_state proc' <> FINISHED ->
                       proc_pid proc' <> pid) procs.

Definition other_job (pid : Z) (job : job_t) : Prop :=
  job_pgid job <> 0%Z -> other_procs pid (job_proc job).
End RecordVocabulary.

Definition line_jobs_out : list token_t * nat :=
  ([T_STR "jobs"; T_OUTPUT; T_STR "out"; T_NULL], 3).
(** * Proofs *)

(** ** Running monadic code *)

Section Monad.
Context {A B : Type}.

Lemma bind_run (m : M A) (k : A -> M B) (w w1 : world) (a : A) e1 :
  m w = Run (Ret a) w1 e1 ->
  bind m k w = prepend e1 (k a w1).
Proof. intros E. unfold bind, prepend. rewrite E. reflexivity. Qed.

Lemma bind_halt (m : M A) (k : A -> M B) (w w1 : world) (h : halt) e1 :
  m w = Run (Halt h) w1 e1 ->
  bind m k w = Run (Halt h) w1 e1.
Proof. intros E. unfold bind. rewrite E. reflexivity. Qed.

Lemma prepend_nil (r : run A) : prepend [] r = r.
Proof. destruct r; reflexivity. Qed.

Lemma spec_bind E L (R1 : A -> Prop) (R2 : B -> Prop)
    (m : M A) (k : A -> M B) :
  spec E L R1 m -> (forall a, R1 a -> spec E L R2 (k a)) ->
  spec E L R2 (bind m k).
Proof.
  intros Hm Hk w. destruct (Hm w) as [He Hr]. unfold bind.
  destruct (res (m w)) as [a|h]; simpl.
  - destruct (Hk a Hr (st (m w))) as [He' Hr'].
    split; [apply Forall_app; split; assumption | assumption].
  - split; assumption.
Qed.

Lemma spec_weaken (E E' : event -> Prop) (L L' : halt -> Prop)
    (R R' : A -> Prop) (m : M A) :
  spec E L R m ->
  (forall e, E e -> E' e) -> (forall h, L h -> L' h) ->
  (forall a, R a -> R' a) -> spec E' L' R' m.
Proof.
  intros Hm HE HL HR w. destruct (Hm w) as [He Hr]. split.
  - eapply Forall_impl; eauto.
  - destruct (res (m w)); auto.
Qed.

Lemma spec_ret E L (R : A -> Prop) (a : A) : R a -> spec E L R (ret a).
Proof. intros Ha w. simpl. split; [constructor | exact Ha]. Qed.

Lemma spec_stop E (L : halt -> Prop) (R : A -> Prop) (h : halt) :
  L h -> spec E L R (stop h).
Proof. intros Hh w. simpl. split; [constructor | exact Hh]. Qed.
End Monad.

Lemma spec_emit (E : event -> Prop) L (R : unit -> Prop) e :
  E e -> R tt -> spec E L R (emit e).
Proof.
  intros He Hr w. simpl. split; [repeat constructor; exact He | exact Hr].
Qed.

Lemma spec_get E L (R : world -> Prop) : (forall w, R w) -> spec E L R get.
Proof. intros Hr w. simpl. split; [constructor | apply Hr]. Qed.

Lemma spec_assert E (L : halt -> Prop) (R : unit -> Prop) b text :
  R tt -> L (Aborted text) -> spec E L R (assert b text).
Proof.
  intros Hr Hl. unfold assert.
  destruct b; [apply spec_ret | apply spec_stop]; assumption.
Qed.

Lemma world_eta (w : world) :
  World (jobs w) (tty_fd w) (sigchld_blocked w) (children w) (wakeups w)
        (forks w) (pipes w) (os w) (arrivals w) = w.
Proof. destruct w; reflexivity. Qed.

(** One step of a run whose first action computes. *)
Ltac run_step :=
  first [ erewrite bind_run by reflexivity
        | erewrite bind_halt by reflexivity ];
  rewrite ?prepend_nil; cbv beta.

(** ** The reaper *)

Section Handler.
Context `{shell_h}.

Lemma waitpid_total (pid : Z) : spec any none any (waitpid pid).
Proof.
  intros w. unfold waitpid, bind, get; simpl.
  destruct (take_change pid (children w)) as [[s rest]|]; simpl;
    split; solve [constructor | exact I].
Qed.

Lemma reap_proc_total (proc : proc_t) : spec any none any (reap_proc proc).
Proof.
  unfold reap_proc. eapply spec_bind; [apply waitpid_total|].
  intros [s|] _; [|apply spec_ret; exact I].
  destruct (WIFEXITED s || WIFSIGNALED s); [apply spec_ret; exact I|].
  destruct (WIFCONTINUED s); [apply spec_ret; exact I|].
  destruct (WIFSTOPPED s); apply spec_ret; exact I.
Qed.

Lemma reap_procs_flags (procs : list proc_t) :
  forall hr hs : bool,
    spec any none (flags_of hr hs) (reap_procs procs hr hs).
Proof.
  destruct case_labels_distinct as (Hfr & Hfs & Hrs).
  induction procs as [|proc rest IH]; intros hr hs; simpl.
  - apply spec_ret. unfold flags_of; simpl. rewrite !orb_false_r. reflexivity.
  - destruct (Z.eqb_spec (proc_state proc) FINISHED) as [Ef|Ef].
    + eapply spec_bind; [apply IH|]. intros [procs' fl] Hfl.
      apply spec_ret. unfold flags_of in *; simpl in *. rewrite Ef.
      destruct (Z.eqb_spec FINISHED RUNNING); [contradiction|].
      destruct (Z.eqb_spec FINISHED STOPPED); [contradiction|].
      exact Hfl.
    + eapply spec_bind; [apply reap_proc_total|]. intros proc' _.
      cbv zeta. eapply spec_bind; [apply IH|]. intros [procs' fl] Hfl.
      apply spec_ret. unfold flags_of in *; simpl in *. rewrite Hfl.
      destruct (Z.eqb_spec (proc_state proc') RUNNING) as [Er|Er].
      * rewrite Er. destruct (Z.eqb_spec RUNNING STOPPED); [contradiction|].
        simpl. rewrite orb_true_r. reflexivity.
      * destruct (Z.eqb (proc_state proc') STOPPED); simpl;
          rewrite ?orb_true_r; reflexivity.
Qed.

Lemma reap_job_derived (job : job_t) : spec any none derived (reap_job job).
Proof.
  unfold reap_job. destruct (Z.eqb_spec (job_pgid job) 0) as [E0|E0].
  - apply spec_ret. intros Hne. contradiction.
  - eapply spec_bind; [apply reap_procs_flags|]. intros [procs' fl] Hfl.
    apply spec_ret. intros _. unfold flags_of in Hfl. simpl in *. subst fl.
    simpl. unfold derive.
    destruct (existsb _ procs'); [reflexivity|].
    destruct (existsb _ procs'); reflexivity.
Qed.

Lemma reap_jobs_derived (slots : list job_t) :
  spec any none (Forall derived) (reap_jobs slots).
Proof.
  induction slots as [|job rest IH]; simpl.
  - apply spec_ret. constructor.
  - eapply spec_bind; [apply reap_job_derived|]. intros job' Hj.
    eapply spec_bind; [apply IH|]. intros rest' Hr.
    apply spec_ret. constructor; assumption.
Qed.

(** C8.  After every run of the SIGCHLD handler, whatever the table and
    whatever the children did, the handler has returned and the state of
    every occupied slot (pgid not 0) is the one derived from its
    processes: RUNNING if one is RUNNING, else STOPPED if one is STOPPED,
    else FINISHED. *)
Theorem sigchld_handler_derives (w : world) (j : nat) (S : job_t) :
  jobs (st (sigchld_handler w)) !! j = Some S ->
  job_pgid S <> 0%Z ->
  res (sigchld_handler w) = Ret tt /\ job_state S = derive (job_proc S).
Proof.
  unfold sigchld_handler. unfold bind at 1; simpl.
  destruct (reap_jobs_derived (jobs w) w) as [_ Hr].
  unfold bind. destruct (res (reap_jobs (jobs w) w)) as [slots|h];
    [|contradiction].
  simpl. intros Hj Hne. split; [reflexivity|].
  eapply Forall_lookup_1 in Hr; [|exact Hj]. apply Hr, Hne.
Qed.
End Handler.

(** ** Job selection by the built-ins *)

Section Builtins.
Context `{shell_h}.

Lemma last_unfinished_none (slots : list job_t) (j : nat) :
  Forall (fun job => job_state job = FINISHED) slots ->
  last_unfinished slots j = 0 \/ length slots <= last_unfinished slots j.
Proof.
  intros Hall. induction j as [|j IH]; simpl; [left; reflexivity|].
  destruct (slots !! S j) as [job|] eqn:E.
  - rewrite (Forall_lookup_1 _ _ _ _ Hall E), Z.eqb_refl. exact IH.
  - right. apply lookup_ge_None in E. exact E.
Qed.

Lemma jobslot_some (w : world) (j : nat) (job : job_t) :
  jobs w !! j = Some job -> jobslot j w = Run (Ret job) w [].
Proof. intros E. unfold jobslot. run_step. rewrite E. reflexivity. Qed.

Lemma resumejob_not_found (w : world) (j bg : Z) (mask : bool) :
  selection_fails (jobs w) j ->
  resumejob j bg mask w = Run (Ret false) w [].
Proof.
  intros Hsel. unfold resumejob. run_step. unfold njobmax. cbv zeta.
  destruct Hsel as [Hge | [(job & H0 & Hj & Hf) | (Hneg & Hne & Hall)]].
  - destruct (Z.ltb_spec j 0); [lia|]. cbv iota.
    destruct (Z.geb_spec j (Z.of_nat (length (jobs w)))); [reflexivity | lia].
  - pose proof (lookup_lt_Some _ _ _ Hj) as Hlt.
    destruct (Z.ltb_spec j 0); [lia|].
    cbv iota.
    destruct (Z.geb_spec j (Z.of_nat (length (jobs w)))); [lia|].
    destruct (Z.ltb_spec j 0); [lia|].
    erewrite bind_run by (apply jobslot_some; exact Hj).
    rewrite prepend_nil, Hf, Z.eqb_refl. reflexivity.
  - destruct (Z.ltb_spec j 0); [|lia].
    assert (0 < length (jobs w)) as Hlen
      by (destruct (jobs w); [contradiction | simpl; lia]).
    destruct (Z.ltb_spec (Z.of_nat (length (jobs w)) - 1) 0); [lia|].
    cbv iota.
    destruct (last_unfinished_none (jobs w) (length (jobs w) - 1) Hall)
      as [E|E].
    + rewrite E.
      destruct (Z.geb_spec (Z.of_nat 0) (Z.of_nat (length (jobs w)))); [lia|].
      change (Z.of_nat 0 <? 0)%Z with false. cbv iota.
      destruct (jobs w) as [|job0 rest] eqn:Ej; [contradiction|].
      inversion Hall as [|? ? Hf0 ?]; subst.
      erewrite bind_run by (apply jobslot_some; rewrite Ej; reflexivity).
      rewrite prepend_nil, Hf0, Z.eqb_refl. reflexivity.
    + destruct (Z.geb_spec
                  (Z.of_nat (last_unfinished (jobs w) (length (jobs w) - 1)))
                  (Z.of_nat (length (jobs w)))); [reflexivity | lia].
Qed.

Lemma argv0_run (argv : list token_t) (w : world) (arg : option string) :
  res (argv0 argv w) = Ret arg -> argv0 argv w = Run (Ret arg) w [].
Proof.
  unfold argv0. destruct argv as [|[] ?]; simpl;
    intros E; try discriminate; inversion E; reflexivity.
Qed.

Lemma do_fg_not_found (w : world) (argv : list token_t)
    (arg : option string) :
  res (argv0 argv w) = Ret arg ->
  selection_fails (jobs w)
    (match arg with Some s => atoi s | None => (-1)%Z end) ->
  do_fg argv w = Run (Ret 0%Z) w [EMsg "fg: job not found: %s\n" [AStr arg]].
Proof.
  intros Harg Hsel. unfold do_fg.
  erewrite bind_run by (apply argv0_run; exact Harg). rewrite prepend_nil.
  cbv zeta. unfold Sigprocmask_block. run_step.
  erewrite bind_run by (apply resumejob_not_found; exact Hsel).
  rewrite prepend_nil. cbv iota. unfold msg. run_step. run_step. cbn.
  rewrite world_eta. reflexivity.
Qed.

Lemma do_bg_not_found (w : world) (argv : list token_t)
    (arg : option string) :
  res (argv0 argv w) = Ret arg ->
  selection_fails (jobs w)
    (match arg with Some s => atoi s | None => (-1)%Z end) ->
  do_bg argv w = Run (Ret 0%Z) w [EMsg "bg: job not found: %s\n" [AStr arg]].
Proof.
  intros Harg Hsel. unfold do_bg.
  erewrite bind_run by (apply argv0_run; exact Harg). rewrite prepend_nil.
  cbv zeta. unfold Sigprocmask_block. run_step.
  erewrite bind_run by (apply resumejob_not_found; exact Hsel).
  rewrite prepend_nil. cbv iota. unfold msg. run_step. run_step. cbn.
  rewrite world_eta. reflexivity.
Qed.

Lemma killjob_finished (w : world) (j : nat) (job : job_t) :
  jobs w !! j = Some job -> job_state job = FINISHED ->
  killjob (Z.of_nat j) w = Run (Ret false) w [].
Proof.
  intros Hj Hf. pose proof (lookup_lt_Some _ _ _ Hj) as Hlt.
  unfold killjob. run_step. unfold njobmax.
  destruct (Z.geb_spec (Z.of_nat j) (Z.of_nat (length (jobs w)))); [lia|].
  destruct (Z.ltb_spec (Z.of_nat j) 0); [lia|].
  rewrite Nat2Z.id.
  erewrite bind_run by (apply jobslot_some; exact Hj).
  rewrite prepend_nil, Hf, Z.eqb_refl. reflexivity.
Qed.

(** C5, as the code has it.  When [fg] or [bg] names a slot past the table
    or a FINISHED slot, or is given no number while no slot is other than
    FINISHED, the built-in prints its "job not found" message, changes
    nothing, and returns 0. *)
Theorem resume_not_found_returns_zero (w : world) (argv : list token_t)
    (arg : option string) :
  res (argv0 argv w) = Ret arg ->
  selection_fails (jobs w)
    (match arg with Some s => atoi s | None => (-1)%Z end) ->
  do_fg argv w = Run (Ret 0%Z) w [EMsg "fg: job not found: %s\n" [AStr arg]]
  /\ do_bg argv w = Run (Ret 0%Z) w [EMsg "bg: job not found: %s\n" [AStr arg]].
Proof.
  intros Harg Hsel. split;
    [apply do_fg_not_found | apply do_bg_not_found]; assumption.
Qed.

(** C10.  [deljob] on a FINISHED slot clears the pgid, the processes, their
    count and the command text and leaves the state FINISHED; and as long
    as slot [j] holds what [deljob] left there, [fg j], [bg j] and
    [kill %j] print "job not found", send no signal and change nothing. *)
Theorem deleted_slot_is_not_found (w : world) (job : job_t) (j : nat)
    (s : string) :
  job_state job = FINISHED ->
  atoi s = Z.of_nat j ->
  exists freed : job_t,
    deljob job w = Run (Ret freed) w []
    /\ job_pgid freed = 0%Z /\ job_proc freed = [] /\ job_nproc freed = 0%Z
    /\ job_command freed = None /\ job_state freed = FINISHED
    /\ forall w' : world, jobs w' !! j = Some freed ->
         do_fg [T_STR s; T_NULL] w' =
           Run (Ret 0%Z) w' [EMsg "fg: job not found: %s\n" [AStr (Some s)]]
         /\ do_bg [T_STR s; T_NULL] w' =
           Run (Ret 0%Z) w' [EMsg "bg: job not found: %s\n" [AStr (Some s)]]
         /\ do_kill [T_STR (String "%" s); T_NULL] w' =
           Run (Ret 0%Z) w'
               [EMsg "kill: job not found: %s\n"
                     [AStr (Some (String "%" s))]].
Proof.
  intros Hf Hs. exists (Job 0 [] FINISHED None).
  split.
  { unfold deljob, assert. rewrite Hf, Z.eqb_refl. reflexivity. }
  repeat (split; [reflexivity|]).
  intros w' Hj.
  assert (selection_fails (jobs w') (atoi s)) as Hsel.
  { right; left. exists (Job 0 [] FINISHED None).
    rewrite Hs, Nat2Z.id. repeat split; [lia | exact Hj]. }
  split; [apply do_fg_not_found; [reflexivity | exact Hsel]|].
  split; [apply do_bg_not_found; [reflexivity | exact Hsel]|].
  unfold do_kill. run_step. cbv zeta. unfold Sigprocmask_block. run_step.
  rewrite Hs.
  erewrite bind_run by (eapply killjob_finished; [exact Hj | reflexivity]).
  rewrite prepend_nil. cbv iota. unfold msg. run_step. run_step. cbn.
  rewrite world_eta. reflexivity.
Qed.

End Builtins.

(** ** Numbers given to the built-ins *)

(** [atoi] reads white space, a sign and digits, and keeps the low 32 bits
    of what [strtol] gives. *)
Lemma atoi_samples :
  atoi "7" = 7%Z /\ atoi " -3x" = (-3)%Z /\ atoi "4294967297" = 1%Z
  /\ atoi "2147483648" = (-2147483648)%Z
  /\ atoi "99999999999999999999" = (-1)%Z.
Proof. vm_compute. repeat split. Qed.

(** ** The prompt *)

Lemma bind_total_halt {A B} (m : M A) (k : A -> M B) (w : world) (h : halt) :
  spec any none any m ->
  (forall a w', res (k a w') = Halt h) ->
  res (bind m k w) = Halt h.
Proof.
  intros Hm Hk. destruct (Hm w) as [_ Hr]. unfold bind.
  destruct (res (m w)) as [a|h']; [|contradiction].
  destruct (k a (st (m w))) as [r w2 e2] eqn:E. cbn [res].
  rewrite <- (Hk a (st (m w))), E. reflexivity.
Qed.

Section Prompt.
Context `{shell_h}.

Lemma spec_state_total (f : world -> world) :
  spec any none any (fun w => Run (Ret tt) (f w) []).
Proof. intros w. split; [constructor | exact I]. Qed.

Lemma sigchld_handler_total : spec any none any sigchld_handler.
Proof.
  unfold sigchld_handler.
  eapply spec_bind; [apply spec_get; intros; exact I|]. intros w _.
  eapply spec_bind; [apply reap_jobs_derived|]. intros slots _.
  apply spec_state_total.
Qed.

Lemma sigchld_arrives_total (k : nat) : spec any none any (sigchld_arrives k).
Proof.
  induction k as [|k IH]; simpl; [apply spec_ret; exact I|].
  eapply spec_bind; [apply spec_get; intros; exact I|]. intros w _.
  destruct (wakeups w); [apply spec_ret; exact I|].
  eapply spec_bind; [apply spec_state_total|]. intros _ _.
  eapply spec_bind; [apply spec_state_total|]. intros _ _.
  eapply spec_bind; [apply sigchld_handler_total|]. intros _ _.
  exact IH.
Qed.

(** [readline] always returns: the handler it may run never halts. *)
Lemma readline_total : spec any none any readline.
Proof.
  unfold readline.
  eapply spec_bind; [apply spec_get; intros; exact I|]. intros w _.
  destruct (arrivals w); [apply spec_ret; exact I|].
  eapply spec_bind; [apply spec_state_total|]. intros _ _.
  destruct (sigchld_blocked w); [apply spec_ret; exact I|].
  apply sigchld_arrives_total.
Qed.
End Prompt.

(** ** Code that neither forks nor changes process groups *)

Lemma tame_bind {A B} (m : M A) (k : A -> M B) :
  tame m -> (forall a, tame (k a)) -> tame (bind m k).
Proof. intros Hm Hk. eapply spec_bind; [exact Hm | intros a _; apply Hk]. Qed.

Lemma tame_ret {A} (a : A) : tame (ret a).
Proof. apply spec_ret. exact I. Qed.

Lemma tame_stop {A} (h : halt) : bounded h -> tame (@stop A h).
Proof. intros Hh. apply spec_stop. exact Hh. Qed.

Lemma tame_emit (e : event) : quiet e -> tame (emit e).
Proof. intros He. apply spec_emit; [exact He | exact I]. Qed.

Lemma tame_get : tame get.
Proof. apply spec_get. intros w. exact I. Qed.

Lemma tame_assert (b : bool) (text : string) : tame (assert b text).
Proof. apply spec_assert; exact I. Qed.

Lemma tame_state (m : M unit) :
  (forall w, res (m w) = Ret tt /\ evs (m w) = []) -> tame m.
Proof.
  intros Hm w. destruct (Hm w) as [Hr He]. rewrite Hr, He.
  split; [constructor | exact I].
Qed.

Create HintDb tame discriminated.
#[local] Hint Resolve tame_ret tame_get tame_assert : tame.

(** Takes a goal [tame m] apart along the syntax of [m]. *)
Ltac tame_step :=
  lazymatch goal with
  | |- tame (bind _ _) => apply tame_bind; [|intros ?]
  | |- tame (stop _) => apply tame_stop; exact I
  | |- tame (emit _) => apply tame_emit; exact I
  | |- tame (if ?b then _ else _) => destruct b
  | |- tame (match ?x with _ => _ end) => destruct x
  | |- tame (let _ := _ in _) => cbv zeta
  | |- tame _ => solve [auto with tame]
  end.
Ltac tame_auto := repeat tame_step.

Section Tame.
Context `{shell_h}.

Lemma tame_set_jobs js : tame (set_jobs js).
Proof. apply tame_state. intros w. split; reflexivity. Qed.
Lemma tame_set_tty_fd fd : tame (set_tty_fd fd).
Proof. apply tame_state. intros w. split; reflexivity. Qed.
Lemma tame_set_sigchld_blocked b : tame (set_sigchld_blocked b).
Proof. apply tame_state. intros w. split; reflexivity. Qed.
Lemma tame_set_children c : tame (set_children c).
Proof. apply tame_state. intros w. split; reflexivity. Qed.
Lemma tame_set_wakeups l : tame (set_wakeups l).
Proof. apply tame_state. intros w. split; reflexivity. Qed.
#[local] Hint Resolve tame_set_jobs tame_set_tty_fd tame_set_sigchld_blocked
  tame_set_children tame_set_wakeups : tame.

Lemma tame_msg fmt args : tame (msg fmt args).
Proof. unfold msg. tame_auto. Qed.
Lemma tame_debug fmt args : tame (debug fmt args).
Proof. unfold debug. tame_auto. Qed.
Lemma tame_open file flags : tame (open file flags).
Proof. unfold open. tame_auto. Qed.
Lemma tame_close fd : tame (close fd).
Proof. unfold close. tame_auto. Qed.
Lemma tame_dup2 a b : tame (dup2 a b).
Proof. unfold dup2. tame_auto. Qed.
Lemma tame_Kill pid sig : tame (Kill pid sig).
Proof. unfold Kill. tame_auto. Qed.
Lemma tame_Tcsetpgrp fd pgrp : tame (Tcsetpgrp fd pgrp).
Proof. unfold Tcsetpgrp. tame_auto. Qed.
Lemma tame_Signal sig h : tame (Signal sig h).
Proof. unfold Signal. tame_auto. Qed.
Lemma tame_getpgrp : tame getpgrp.
Proof. unfold getpgrp. tame_auto. Qed.
Lemma tame_Sigprocmask_block : tame Sigprocmask_block.
Proof. unfold Sigprocmask_block. tame_auto. Qed.
Lemma tame_Sigprocmask_setmask mask : tame (Sigprocmask_setmask mask).
Proof. unfold Sigprocmask_setmask. tame_auto. Qed.
Lemma tame_waitpid pid : tame (waitpid pid).
Proof. unfold waitpid. tame_auto. Qed.
#[local] Hint Resolve tame_msg tame_debug tame_open tame_close tame_dup2
  tame_Kill tame_Tcsetpgrp tame_Signal tame_getpgrp tame_Sigprocmask_block
  tame_Sigprocmask_setmask tame_waitpid : tame.

Lemma tame_jobslot j : tame (jobslot j).
Proof. unfold jobslot. tame_auto. Qed.
Lemma tame_set_jobslot j job : tame (set_jobslot j job).
Proof. unfold set_jobslot. tame_auto. Qed.
#[local] Hint Resolve tame_jobslot tame_set_jobslot : tame.

Lemma tame_reap_proc proc : tame (reap_proc proc).
Proof. unfold reap_proc. tame_auto. Qed.
#[local] Hint Resolve tame_reap_proc : tame.

Lemma tame_reap_procs procs : forall hr hs, tame (reap_procs procs hr hs).
Proof. induction procs as [|proc rest IH]; intros hr hs; simpl; tame_auto. Qed.
#[local] Hint Resolve tame_reap_procs : tame.

Lemma tame_reap_job job : tame (reap_job job).
Proof. unfold reap_job. tame_auto. Qed.
#[local] Hint Resolve tame_reap_job : tame.

Lemma tame_reap_jobs slots : tame (reap_jobs slots).
Proof. induction slots as [|job rest IH]; simpl; tame_auto. Qed.
#[local] Hint Resolve tame_reap_jobs : tame.

Lemma tame_sigchld_handler : tame sigchld_handler.
Proof. unfold sigchld_handler. tame_auto. Qed.
#[local] Hint Resolve tame_sigchld_handler : tame.

Lemma tame_Sigsuspend mask : tame (Sigsuspend mask).
Proof. unfold Sigsuspend. tame_auto. Qed.
Lemma tame_exitcode job : tame (exitcode job).
Proof. unfold exitcode. tame_auto. Qed.
Lemma tame_allocjob : tame allocjob.
Proof. unfold allocjob. tame_auto. Qed.
#[local] Hint Resolve tame_Sigsuspend tame_exitcode tame_allocjob : tame.

Lemma tame_addjob pgid bg : tame (addjob pgid bg).
Proof. unfold addjob. tame_auto. Qed.
Lemma tame_deljob job : tame (deljob job).
Proof. unfold deljob. tame_auto. Qed.
Lemma tame_movejob from to : tame (movejob from to).
Proof. unfold movejob. tame_auto. Qed.
#[local] Hint Resolve tame_addjob tame_deljob tame_movejob : tame.

Lemma tame_mkcommand_args argv : forall cmd, tame (mkcommand_args cmd argv).
Proof.
  induction argv as [|t rest IH]; intros cmd; simpl; [tame_auto|].
  destruct t; tame_auto.
Qed.
#[local] Hint Resolve tame_mkcommand_args : tame.

Lemma tame_mkcommand cmd argv : tame (mkcommand cmd argv).
Proof. unfold mkcommand. tame_auto. Qed.
#[local] Hint Resolve tame_mkcommand : tame.

Lemma tame_addproc j pid argv : tame (addproc j pid argv).
Proof. unfold addproc. tame_auto. Qed.
Lemma tame_jobstate j status : tame (jobstate j status).
Proof. unfold jobstate. tame_auto. Qed.
Lemma tame_jobcmd j : tame (jobcmd j).
Proof. unfold jobcmd. tame_auto. Qed.
#[local] Hint Resolve tame_addproc tame_jobstate tame_jobcmd : tame.

Lemma tame_monitor_loop fuel : forall mask, tame (monitor_loop fuel mask).
Proof. induction fuel as [|fuel IH]; intros mask; simpl; tame_auto. Qed.
#[local] Hint Resolve tame_monitor_loop : tame.

Lemma tame_monitorjob mask : tame (monitorjob mask).
Proof. unfold monitorjob. tame_auto. Qed.
#[local] Hint Resolve tame_monitorjob : tame.

Lemma tame_resumejob j bg mask : tame (resumejob j bg mask).
Proof. unfold resumejob. tame_auto. Qed.
Lemma tame_killjob j : tame (killjob j).
Proof. unfold killjob. tame_auto. Qed.
Lemma tame_watchjob which j job : tame (watchjob which j job).
Proof. unfold watchjob. tame_auto. Qed.
#[local] Hint Resolve tame_resumejob tame_killjob tame_watchjob : tame.

Lemma tame_watchjobs_from which k : forall j, tame (watchjobs_from which k j).
Proof. induction k as [|k IH]; intros j; simpl; tame_auto. Qed.
#[local] Hint Resolve tame_watchjobs_from : tame.

Lemma tame_watchjobs which : tame (watchjobs which).
Proof. unfold watchjobs. tame_auto. Qed.
#[local] Hint Resolve tame_watchjobs : tame.

Lemma tame_argv0 argv : tame (argv0 argv).
Proof. unfold argv0. tame_auto. Qed.
#[local] Hint Resolve tame_argv0 : tame.

Lemma tame_do_quit argv : tame (do_quit argv).
Proof. unfold do_quit. tame_auto. Qed.
Lemma tame_do_chdir argv : tame (do_chdir argv).
Proof. unfold do_chdir. tame_auto. Qed.
Lemma tame_do_jobs argv : tame (do_jobs argv).
Proof. unfold do_jobs. tame_auto. Qed.
Lemma tame_do_fg argv : tame (do_fg argv).
Proof. unfold do_fg. tame_auto. Qed.
Lemma tame_do_bg argv : tame (do_bg argv).
Proof. unfold do_bg. tame_auto. Qed.
Lemma tame_do_kill argv : tame (do_kill argv).
Proof. unfold do_kill. tame_auto. Qed.
#[local] Hint Resolve tame_do_quit tame_do_chdir tame_do_jobs tame_do_fg
  tame_do_bg tame_do_kill : tame.

Lemma tame_builtin_command argv : tame (builtin_command argv).
Proof.
  unfold builtin_command. destruct argv as [|[| | | | |name] args];
    try (tame_auto; fail).
  unfold builtins, builtin_lookup.
  repeat (match goal with
          | |- context [String.eqb name ?s] => destruct (String.eqb name s)
          end; cbv iota beta; [solve [auto with tame]|]).
  tame_auto.
Qed.
#[local] Hint Resolve tame_builtin_command : tame.

Lemma tame_execve path argv : tame (execve path argv).
Proof. unfold execve. tame_auto. Qed.
#[local] Hint Resolve tame_execve : tame.
End Tame.

#[local] Hint Resolve tame_set_jobs tame_set_tty_fd tame_set_sigchld_blocked
  tame_set_children tame_set_wakeups tame_msg tame_debug tame_open tame_close
  tame_dup2 tame_Kill tame_Tcsetpgrp tame_Signal tame_getpgrp
  tame_Sigprocmask_block tame_Sigprocmask_setmask tame_waitpid tame_jobslot
  tame_set_jobslot tame_sigchld_handler tame_Sigsuspend tame_exitcode
  tame_allocjob tame_addjob tame_deljob tame_movejob tame_mkcommand
  tame_addproc tame_jobstate tame_jobcmd tame_monitorjob tame_resumejob
  tame_killjob tame_watchjobs tame_argv0 tame_builtin_command tame_execve
  : tame.

(** ** The search of [PATH] *)

Section External.
Context `{shell_h}.

Lemma string_drop_length (n : nat) : forall s : string,
  String.length (string_drop n s) <= String.length s.
Proof.
  induction n as [|n IH]; intros s; simpl; [lia|].
  destruct s as [|c s']; simpl; [lia|]. specialize (IH s'). lia.
Qed.

Lemma tame_try_path (name : string) (argv : list token_t) (fuel : nat) :
  forall path : string,
    String.length path < fuel -> tame (try_path fuel path name argv).
Proof.
  induction fuel as [|fuel IH]; intros path Hlen; [lia|]. simpl.
  destruct (Nat.eqb (strcspn_colon path) 0); [apply tame_ret|].
  apply tame_bind; [apply tame_execve|]. intros _.
  pose proof (string_drop_length (strcspn_colon path) path) as Hd.
  destruct (string_drop (strcspn_colon path) path) as [|c path'];
    [apply tame_ret|].
  apply IH. simpl in Hd. lia.
Qed.

(** [external_command] is [noreturn]: it ends in [execve] or in [exit]. *)
Lemma external_command_noreturn (argv : list token_t) :
  spec quiet bounded none (external_command argv).
Proof.
  unfold external_command.
  eapply spec_bind; [apply tame_get|]. intros w _.
  destruct argv as [|[| | | | |name] rest];
    try (apply spec_stop; exact I).
  eapply spec_bind.
  { instantiate (1 := any).
    destruct (has_slash name); [apply tame_execve|].
    destruct (env_PATH (os w)) as [path|]; [|apply tame_execve].
    apply tame_try_path. lia. }
  intros _ _. eapply spec_bind; [apply tame_msg|]. intros _ _.
  apply spec_stop. exact I.
Qed.
End External.

(** ** The token array under [do_redir] *)

Section Redir.
Context `{shell_h}.

Lemma tok_at_app_r (pre rest : list token_t) (x : nat) :
  tok_at (pre ++ rest) (length pre + x) = tok_at rest x.
Proof.
  unfold tok_at. rewrite lookup_app_r by lia.
  replace (length pre + x - length pre) with x by lia. reflexivity.
Qed.

Lemma tok_at_app_0 (pre rest : list token_t) :
  tok_at (pre ++ rest) (length pre) = tok_at rest 0.
Proof. rewrite <- (tok_at_app_r pre rest 0). f_equal. lia. Qed.

Lemma insert_app_len (pre rest : list token_t) (x : nat) (t : token_t) :
  <[length pre + x := t]> (pre ++ rest) = pre ++ <[x := t]> rest.
Proof.
  rewrite insert_app_r_alt by lia.
  replace (length pre + x - length pre) with x by lia. reflexivity.
Qed.

Lemma shift_tokens_app (rest : list token_t) :
  forall (pre : list token_t) (x y : token_t) (post : list token_t),
  exists u v,
    shift_tokens (length rest) (length pre + 2)
                 (pre ++ x :: y :: rest ++ post)
    = pre ++ rest ++ u :: v :: post.
Proof.
  induction rest as [|b rest IH]; intros pre x y post; simpl.
  - exists x, y. reflexivity.
  - replace (length pre + 2 - 2) with (length pre + 0) by lia.
    rewrite (tok_at_app_r pre _ 2). simpl.
    rewrite insert_app_len. simpl.
    destruct (IH (pre ++ [b]) y b post) as (u & v & E).
    rewrite length_app in E. simpl in E.
    replace (S (length pre + 2)) with (length pre + 1 + 2) by lia.
    rewrite <- !app_assoc in E. simpl in E.
    change (tok_at (x :: y :: b :: rest ++ post) 2) with b.
    rewrite E. exists u, v. reflexivity.
Qed.

(** The array after the removal of the two tokens of a redirection. *)
Lemma remove_redirection (pre rest post : list token_t) (x y : token_t) :
  let ntokens := length pre + S (S (length rest)) in
  <[ntokens - 1 := T_NULL]>
    (<[ntokens - 2 := T_NULL]>
       (shift_tokens (ntokens - (length pre + 2)) (length pre + 2)
                     (pre ++ (x :: y :: rest) ++ post)))
  = pre ++ (rest ++ [T_NULL; T_NULL]) ++ post.
Proof.
  intros ntokens. subst ntokens.
  replace (length pre + S (S (length rest)) - (length pre + 2))
    with (length rest) by lia.
  simpl. destruct (shift_tokens_app rest pre x y post) as (u & v & E).
  rewrite E.
  replace (length pre + S (S (length rest)) - 2)
    with (length pre + (length rest + 0)) by lia.
  replace (length pre + S (S (length rest)) - 1)
    with (length pre + (length rest + 1)) by lia.
  rewrite insert_app_len, insert_app_len.
  rewrite (insert_app_r_alt rest) by lia.
  rewrite (insert_app_r_alt rest) by lia.
  replace (length rest + 0 - length rest) with 0 by lia.
  replace (length rest + 1 - length rest) with 1 by lia.
  simpl. rewrite <- app_assoc. reflexivity.
Qed.

(** *** One pass of the loop, by the shape of what is left to read *)

Lemma loop_exit (fuel : nat) (pre mid post : list token_t)
    (n : nat) (input output : Z) (w : world) :
  match mid with [] => True | t :: _ => t = T_NULL end ->
  do_redir_loop (S fuel) (pre ++ mid ++ post) (length pre + length mid)
                (length pre) n input output w
  = Run (Ret (<[n := T_NULL]> (pre ++ mid ++ post), n, (input, output)))
        w [].
Proof.
  intros Hmid. cbn [do_redir_loop]. destruct mid as [|t rest].
  - replace (Nat.ltb (length pre) (length pre + length [])) with false
      by (symmetry; apply Nat.ltb_ge; simpl; lia).
    reflexivity.
  - subst t. rewrite tok_at_app_0.
    change (tok_at ((T_NULL :: rest) ++ post) 0) with T_NULL.
    change (token_eqb T_NULL T_NULL) with true. cbn [negb].
    rewrite andb_false_r. reflexivity.
Qed.

Lemma loop_skip (fuel : nat) (pre rest post : list token_t) (t : token_t)
    (n : nat) (input output : Z) (w : world) :
  token_eqb t T_NULL = false -> is_redir t = false ->
  do_redir_loop (S fuel) (pre ++ (t :: rest) ++ post)
                (length pre + length (t :: rest))
                (length pre) n input output w
  = do_redir_loop fuel ((pre ++ [t]) ++ rest ++ post)
                  (length (pre ++ [t]) + length rest)
                  (length (pre ++ [t])) (S n) input output w.
Proof.
  intros Hnull Hredir. cbn [do_redir_loop length].
  replace (Nat.ltb (length pre) (length pre + S (length rest))) with true
    by (symmetry; apply Nat.ltb_lt; lia).
  rewrite tok_at_app_0. change (tok_at ((t :: rest) ++ post) 0) with t.
  rewrite Hnull, Hredir. cbn [negb andb].
  rewrite length_app. cbn [length]. rewrite <- app_assoc.
  replace (length pre + 1 + length rest) with (length pre + S (length rest))
    by lia.
  replace (length pre + 1) with (S (length pre)) by lia.
  reflexivity.
Qed.

Lemma loop_abort (fuel : nat) (pre rest post : list token_t) (t : token_t)
    (n : nat) (input output : Z) (w : world) :
  token_eqb t T_NULL = false -> is_redir t = true ->
  match rest with T_STR _ :: _ => False | _ => True end ->
  do_redir_loop (S fuel) (pre ++ (t :: rest) ++ post)
                (length pre + length (t :: rest))
                (length pre) n input output w
  = Run (Halt (Aborted redir_assertion)) w [].
Proof.
  intros Hnull Hredir Hrest. cbn [do_redir_loop length].
  replace (Nat.ltb (length pre) (length pre + S (length rest))) with true
    by (symmetry; apply Nat.ltb_lt; lia).
  rewrite tok_at_app_0. change (tok_at ((t :: rest) ++ post) 0) with t.
  rewrite Hnull, Hredir. cbn [negb andb].
  assert (negb (Nat.eqb (length pre + 1) (length pre + S (length rest)))
          && string_p (tok_at (pre ++ (t :: rest) ++ post) (length pre + 1))
          = false) as ->.
  { rewrite tok_at_app_r. destruct rest as [|x rest']; cbn [length].
    - replace (Nat.eqb (length pre + 1) (length pre + 1)) with true
        by (symmetry; apply Nat.eqb_eq; lia).
      reflexivity.
    - apply andb_false_iff. right.
      change (tok_at ((t :: x :: rest') ++ post) 1) with x.
      destruct x; try reflexivity. contradiction. }
  reflexivity.
Qed.

Lemma loop_redir (fuel : nat) (pre rest post : list token_t) (t : token_t)
    (f : string) (n : nat) (input output : Z) (w : world) :
  token_eqb t T_NULL = false -> is_redir t = true ->
  do_redir_loop (S fuel) (pre ++ (t :: T_STR f :: rest) ++ post)
                (length pre + length (t :: T_STR f :: rest))
                (length pre) n input output w
  = (let fd := if token_eqb t T_INPUT then input else output in
     (if negb (Z.eqb fd (-1)) then close fd else ret tt);;
     fd' <- open f (if token_eqb t T_INPUT then O_RDONLY
                    else O_WRONLY_O_CREAT);;
     do_redir_loop fuel (pre ++ (rest ++ [T_NULL; T_NULL]) ++ post)
       (length pre + length (rest ++ [T_NULL; T_NULL])) (length pre) n
       (if token_eqb t T_INPUT then fd' else input)
       (if token_eqb t T_INPUT then output else fd')) w.
Proof.
  intros Hnull Hredir.
  pose proof (remove_redirection pre rest post t (T_STR f)) as Hrem.
  cbv zeta in Hrem.
  cbn [do_redir_loop length].
  replace (Nat.ltb (length pre) (length pre + S (S (length rest)))) with true
    by (symmetry; apply Nat.ltb_lt; lia).
  rewrite tok_at_app_0. change (tok_at ((t :: T_STR f :: rest) ++ post) 0) with t.
  rewrite Hnull, Hredir. cbn [negb andb].
  rewrite tok_at_app_r.
  change (tok_at ((t :: T_STR f :: rest) ++ post) 1) with (T_STR f).
  replace (Nat.eqb (length pre + 1) (length pre + S (S (length rest)))) with false
    by (symmetry; apply Nat.eqb_neq; lia).
  cbn [negb andb string_p assert].
  erewrite (bind_run (ret tt)) by reflexivity. rewrite prepend_nil.
  rewrite Hrem. rewrite length_app. cbn [length].
  replace (length pre + (length rest + 2))
    with (length pre + S (S (length rest))) by lia.
  reflexivity.
Qed.
End Redir.

(** ** What [do_redir] does *)

Lemma stateless_bind {A B} (m : M A) (k : A -> M B) :
  stateless m -> (forall a, stateless (k a)) -> stateless (bind m k).
Proof.
  intros Hm Hk w. unfold bind. specialize (Hm w).
  destruct (res (m w)) as [a|h]; simpl; [|exact Hm].
  rewrite Hk. exact Hm.
Qed.

Lemma res_prepend {A} (es : list event) (r : run A) :
  res (prepend es r) = res r.
Proof. reflexivity. Qed.

Lemma evs_prepend {A} (es : list event) (r : run A) :
  evs (prepend es r) = es ++ evs r.
Proof. reflexivity. Qed.

Lemma st_prepend {A} (es : list event) (r : run A) :
  st (prepend es r) = st r.
Proof. reflexivity. Qed.

Section RedirLoop.
Context `{shell_h}.

Lemma stateless_do_redir_loop (fuel : nat) :
  forall token ntokens i n input output,
    stateless (do_redir_loop fuel token ntokens i n input output).
Proof.
  induction fuel as [|fuel IH]; intros token ntokens i n input output;
    [intros w; reflexivity|].
  cbn [do_redir_loop].
  destruct (Nat.ltb i ntokens && negb (token_eqb (tok_at token i) T_NULL));
    [|intros w; reflexivity].
  destruct (is_redir (tok_at token i)); [|apply IH].
  apply stateless_bind.
  { unfold assert. destruct (_ && _); intros w; reflexivity. }
  intros _. cbv zeta. apply stateless_bind.
  { destruct (negb _); intros w; reflexivity. }
  intros _. apply stateless_bind; [intros w; reflexivity|].
  intros fd'. apply IH.
Qed.

Lemma live_app_nulls (l : list token_t) :
  live (l ++ [T_NULL; T_NULL]) = live l.
Proof.
  induction l as [|t rest IH]; simpl; [reflexivity|].
  rewrite IH. reflexivity.
Qed.

Lemma live_le_length (l : list token_t) : live l <= length l.
Proof.
  induction l as [|t rest IH]; simpl; [lia|].
  destruct (token_eqb t T_NULL); lia.
Qed.

Lemma redir_not_null (t : token_t) : is_redir t = true -> token_eqb t T_NULL = false.
Proof. destruct t; simpl; intros E; try reflexivity; discriminate. Qed.

(** With a bound above the number of tokens still to read, the loop emits
    only opens and closes and ends by returning or by its assertion: the
    bound is never reached. *)
Lemma do_redir_loop_spec (fuel : nat) :
  forall (mid pre post : list token_t) (n : nat) (input output : Z),
    live mid < fuel ->
    spec redir_event redir_halt any
      (do_redir_loop fuel (pre ++ mid ++ post) (length pre + length mid)
                     (length pre) n input output).
Proof.
  induction fuel as [|fuel IH]; intros mid pre post n input output Hfuel;
    [lia|].
  destruct mid as [|t rest].
  { intros w. rewrite loop_exit by exact I. simpl. split; [constructor|exact I]. }
  destruct (token_eqb t T_NULL) eqn:Hnull.
  { intros w. rewrite loop_exit by (destruct t; try discriminate; reflexivity).
    simpl. split; [constructor|exact I]. }
  simpl in Hfuel. rewrite Hnull in Hfuel.
  destruct (is_redir t) eqn:Hredir.
  - destruct rest as [|[| | | | |f] rest'];
      try (intros w; rewrite loop_abort by (assumption || exact I);
           simpl; split; [constructor | reflexivity]).
    intros w. rewrite loop_redir by assumption. revert w.
    change (spec redir_event redir_halt any
      (let fd := if token_eqb t T_INPUT then input else output in
       (if negb (Z.eqb fd (-1)) then close fd else ret tt);;
       fd' <- open f (if token_eqb t T_INPUT then O_RDONLY
                      else O_WRONLY_O_CREAT);;
       do_redir_loop fuel (pre ++ (rest' ++ [T_NULL; T_NULL]) ++ post)
         (length pre + length (rest' ++ [T_NULL; T_NULL])) (length pre) n
         (if token_eqb t T_INPUT then fd' else input)
         (if token_eqb t T_INPUT then output else fd'))).
    cbv zeta. eapply spec_bind with (R1 := any).
    { destruct (negb _); [apply spec_emit | apply spec_ret]; exact I. }
    intros _ _. eapply spec_bind with (R1 := any).
    { unfold open. eapply spec_bind with (R1 := any);
        [apply spec_get; intros; exact I|].
      intros w' _. eapply spec_bind with (R1 := any);
        [apply spec_emit; exact I | intros; apply spec_ret; exact I]. }
    intros fd' _. apply IH. rewrite live_app_nulls.
    simpl in Hfuel. lia.
  - intros w. rewrite loop_skip by assumption. revert w.
    apply IH. lia.
Qed.

Lemma malformed_app_null (l l' : list token_t) :
  malformed (l ++ T_NULL :: l') = malformed l.
Proof.
  assert (forall l, malformed (l ++ T_NULL :: l') = malformed l
                    /\ forall t, malformed ((t :: l) ++ T_NULL :: l')
                                 = malformed (t :: l)) as Hboth.
  { clear l. induction l as [|a rest [IH1 IH2]].
    - split; [reflexivity|]. intros t. simpl.
      destruct (token_eqb t T_NULL); [reflexivity|].
      destruct (is_redir t); reflexivity.
    - split; [apply IH2|]. intros t.
      change (malformed (t :: a :: (rest ++ T_NULL :: l'))
              = malformed (t :: a :: rest)).
      cbn [malformed]. cbn [malformed] in IH2.
      destruct (token_eqb t T_NULL); [reflexivity|].
      destruct (is_redir t).
      + destruct a; try reflexivity. exact IH1.
      + apply (IH2 a). }
  apply Hboth.
Qed.

Lemma malformed_aborts (fuel : nat) :
  forall (mid pre post : list token_t) (n : nat) (input output : Z)
         (w : world),
    live mid < fuel -> malformed mid = true ->
    res (do_redir_loop fuel (pre ++ mid ++ post) (length pre + length mid)
                       (length pre) n input output w)
    = Halt (Aborted redir_assertion).
Proof.
  induction fuel as [|fuel IH]; intros mid pre post n input output w Hfuel Hm;
    [lia|].
  destruct mid as [|t rest]; [discriminate|].
  cbn [malformed] in Hm. cbn [live] in Hfuel.
  destruct (token_eqb t T_NULL) eqn:Hnull; [discriminate|].
  destruct (is_redir t) eqn:Hredir.
  - destruct rest as [|[| | | | |f] rest'];
      try (rewrite loop_abort by (assumption || exact I); reflexivity).
    rewrite loop_redir by assumption. cbv zeta.
    assert (forall fd' w',
      res (do_redir_loop fuel (pre ++ (rest' ++ [T_NULL; T_NULL]) ++ post)
             (length pre + length (rest' ++ [T_NULL; T_NULL])) (length pre) n
             (if token_eqb t T_INPUT then fd' else input)
             (if token_eqb t T_INPUT then output else fd') w')
      = Halt (Aborted redir_assertion)) as Hnext.
    { intros fd' w'. apply IH.
      - rewrite live_app_nulls. simpl in Hfuel. lia.
      - rewrite malformed_app_null. exact Hm. }
    unfold close, open.
    destruct (negb _); repeat run_step; rewrite ?res_prepend; apply Hnext.
  - rewrite loop_skip by assumption. apply IH; [lia | exact Hm].
Qed.

(** An operator at index [k] with no string after it, and no null token
    before it, is met by the scan. *)
Lemma malformed_at (k : nat) :
  forall mid : list token_t,
    (forall x t, x < k -> mid !! x = Some t -> token_eqb t T_NULL = false) ->
    (exists t, mid !! k = Some t /\ is_redir t = true) ->
    match mid !! (k + 1) with Some t => string_p t = false | None => True end ->
    malformed mid = true.
Proof.
  induction k as [k IH] using lt_wf_ind. intros mid Hbefore (op & Hop & Hr) Hnext.
  destruct mid as [|t rest]; [discriminate|].
  destruct k as [|k].
  - simpl in Hop. inversion Hop; subst t. cbn [malformed].
    rewrite (redir_not_null _ Hr), Hr.
    simpl in Hnext. destruct rest as [|x rest']; [reflexivity|].
    simpl in Hnext. destruct x; try reflexivity. discriminate.
  - cbn [malformed]. rewrite (Hbefore 0 t) by (lia || reflexivity).
    destruct (is_redir t) eqn:Ht.
    + destruct rest as [|x rest']; [reflexivity|].
      destruct x; try reflexivity.
      destruct k as [|k].
      { simpl in Hop. inversion Hop; subst op. discriminate. }
      apply (IH k); [lia | | |].
      * intros x t' Hx Hl. apply (Hbefore (S (S x)) t'); [lia | exact Hl].
      * exists op. split; [exact Hop | exact Hr].
      * exact Hnext.
    + apply (IH k); [lia | | |].
      * intros x t' Hx Hl. apply (Hbefore (S x) t'); [lia | exact Hl].
      * exists op. split; [exact Hop | exact Hr].
      * exact Hnext.
Qed.

Lemma do_redir_split (token : list token_t) (ntokens : nat)
    (input output : Z) :
  ntokens <= length token ->
  do_redir token ntokens input output
  = do_redir_loop (S ntokens)
      ([] ++ take ntokens token ++ drop ntokens token)
      (length (@nil token_t) + length (take ntokens token))
      (length (@nil token_t)) 0 input output.
Proof.
  intros Hlen. unfold do_redir. simpl.
  rewrite take_drop, length_take. replace (ntokens `min` length token)
    with ntokens by lia.
  reflexivity.
Qed.

Lemma do_redir_spec (token : list token_t) (ntokens : nat)
    (input output : Z) :
  ntokens <= length token ->
  spec redir_event redir_halt any (do_redir token ntokens input output).
Proof.
  intros Hlen. rewrite do_redir_split by exact Hlen.
  apply do_redir_loop_spec.
  pose proof (live_le_length (take ntokens token)) as Hl.
  rewrite length_take in Hl. lia.
Qed.

Lemma stateless_do_redir token ntokens input output :
  stateless (do_redir token ntokens input output).
Proof. apply stateless_do_redir_loop. Qed.
End RedirLoop.

(** ** A malformed redirection *)

Lemma res_bind_halt {A B} (m : M A) (k : A -> M B) (w : world) (h : halt) :
  res (m w) = Halt h -> res (bind m k w) = Halt h.
Proof. intros E. unfold bind. rewrite E. reflexivity. Qed.

Section Malformed.
Context `{shell_h}.

Lemma tok_at_lookup (token : list token_t) (x : nat) (t : token_t) :
  token !! x = Some t -> tok_at token x = t.
Proof. intros E. unfold tok_at. rewrite E. reflexivity. Qed.

Lemma do_redir_aborts (token : list token_t) (ntokens k : nat)
    (input output : Z) (w : world) :
  ntokens <= length token -> k < ntokens ->
  (forall x, x < k -> token_eqb (tok_at token x) T_NULL = false) ->
  is_redir (tok_at token k) = true ->
  (k + 1 = ntokens \/ string_p (tok_at token (k + 1)) = false) ->
  res (do_redir token ntokens input output w)
  = Halt (Aborted redir_assertion).
Proof.
  intros Hlen Hk Hbefore Hop Hnext.
  rewrite do_redir_split by exact Hlen.
  apply malformed_aborts.
  { pose proof (live_le_length (take ntokens token)) as Hl.
    rewrite length_take in Hl. lia. }
  apply (malformed_at k).
  - intros x t Hx Hl. rewrite lookup_take_lt in Hl by lia.
    rewrite <- (tok_at_lookup _ _ _ Hl). apply Hbefore. exact Hx.
  - destruct (lookup_lt_is_Some_2 token k) as [t Ht]; [lia|].
    exists t. rewrite lookup_take_lt by lia. split; [exact Ht|].
    rewrite <- (tok_at_lookup _ _ _ Ht). exact Hop.
  - destruct (Nat.lt_ge_cases (k + 1) ntokens) as [Hin|Hout].
    + rewrite lookup_take_lt by lia.
      destruct (lookup_lt_is_Some_2 token (k + 1)) as [t Ht]; [lia|].
      rewrite Ht. rewrite <- (tok_at_lookup _ _ _ Ht).
      destruct Hnext as [Hn|Hn]; [lia | exact Hn].
    + rewrite lookup_take_ge by lia. exact I.
Qed.

(** C4, as the code has it.  When a redirection operator of a command has
    no string after it (and no null token before it), the assertion of
    [do_redir] fails: the resolver, the single-command path and the
    pipeline-stage path all end there, and so does the loop of [main]
    when the line is such a command: no later line is evaluated. *)
Theorem malformed_redirection_aborts (token : list token_t)
    (ntokens k : nat) (w : world) :
  ntokens <= length token -> k < ntokens ->
  (forall x, x < k -> token_eqb (tok_at token x) T_NULL = false) ->
  is_redir (tok_at token k) = true ->
  (k + 1 = ntokens \/ string_p (tok_at token (k + 1)) = false) ->
  (forall input output,
     res (do_redir token ntokens input output w)
     = Halt (Aborted redir_assertion))
  /\ (forall bg,
        res (do_job token ntokens bg w) = Halt (Aborted redir_assertion))
  /\ (forall pgid mask input output,
        res (do_stage pgid mask input output token ntokens w)
        = Halt (Aborted redir_assertion))
  /\ (forall lines,
        is_pipeline token ntokens = false ->
        token_eqb (tok_at token (ntokens - 1)) T_BGJOB = false ->
        res (main_loop ((token, ntokens) :: lines) w)
        = Halt (Aborted redir_assertion)).
Proof.
  intros Hlen Hk Hbefore Hop Hnext.
  assert (forall input output w',
     res (do_redir token ntokens input output w')
     = Halt (Aborted redir_assertion)) as Hredir
    by (intros; apply (do_redir_aborts token ntokens k); assumption).
  assert (forall bg w',
     res (do_job token ntokens bg w') = Halt (Aborted redir_assertion))
    as Hjob by (intros bg w'; unfold do_job; apply res_bind_halt, Hredir).
  split; [intros; apply Hredir|]. split; [intros; apply Hjob|]. split.
  - intros pgid mask input output. unfold do_stage.
    apply res_bind_halt, Hredir.
  - intros lines Hpipe Hbg. cbn [main_loop].
    apply bind_total_halt; [apply readline_total|]. intros _ w'.
    apply res_bind_halt.
    unfold main_turn. apply res_bind_halt. cbn [fst snd].
    unfold eval. rewrite Hbg, andb_false_r.
    destruct (Nat.ltb_spec 0 ntokens) as [_|Hz]; [|lia].
    rewrite Hpipe. apply res_bind_halt, Hjob.
Qed.
End Malformed.

(** ** A redirection that cannot be opened *)

Lemma spec_any {A} (m : M A) : spec any any any m.
Proof.
  intros w. split.
  - apply Forall_forall. intros e _. exact I.
  - destruct (res (m w)); exact I.
Qed.

Lemma Fork_run (w : world) (pid : Z) (later : list Z) :
  forks w = pid :: later ->
  Fork w = Run (Ret pid)
               (World (jobs w) (tty_fd w) (sigchld_blocked w) (children w)
                      (wakeups w) later (pipes w) (os w) (arrivals w))
               [EFork pid].
Proof. intros E. unfold Fork. run_step. rewrite E. reflexivity. Qed.

Lemma Fork_fails (w : world) :
  forks w = [] -> Fork w = Run (Halt (Fatal "Fork")) w [].
Proof. intros E. unfold Fork. run_step. rewrite E. reflexivity. Qed.

Section OpenFailure.
Context `{shell_h}.

Ltac ends_nonneg :=
  repeat (eapply spec_bind with (R1 := any); [apply spec_any | intros ? _]);
  try (apply spec_ret; unfold nonneg; lia).

Lemma do_chdir_nonneg argv : spec any any nonneg (do_chdir argv).
Proof.
  unfold do_chdir.
  eapply spec_bind with (R1 := any); [apply spec_any | intros arg _].
  eapply spec_bind with (R1 := any); [apply spec_any | intros w _].
  cbv zeta.
  eapply spec_bind with (R1 := any); [apply spec_any | intros _ _].
  destruct (sys_chdir _ _); ends_nonneg.
Qed.

Lemma do_jobs_nonneg argv : spec any any nonneg (do_jobs argv).
Proof. unfold do_jobs. ends_nonneg. Qed.

Lemma do_fg_nonneg argv : spec any any nonneg (do_fg argv).
Proof.
  unfold do_fg.
  eapply spec_bind with (R1 := any); [apply spec_any | intros arg _].
  cbv zeta. ends_nonneg.
Qed.

Lemma do_bg_nonneg argv : spec any any nonneg (do_bg argv).
Proof.
  unfold do_bg.
  eapply spec_bind with (R1 := any); [apply spec_any | intros arg _].
  cbv zeta. ends_nonneg.
Qed.

Lemma negative_is_silent {A : Type} (m : M Z) (w : world) (c : Z) :
  spec any any nonneg m -> res (m w) = Ret c -> (c < 0)%Z ->
  m w = Run (Ret c) w [].
Proof.
  intros Hm E Hc. destruct (Hm w) as [_ Hr]. rewrite E in Hr.
  unfold nonneg in Hr. lia.
Qed.

Lemma do_kill_negative_is_silent (argv : list token_t) (w : world) (c : Z) :
  res (do_kill argv w) = Ret c -> (c < 0)%Z ->
  do_kill argv w = Run (Ret c) w [].
Proof.
  unfold do_kill. destruct argv as [|[| | | | |s] rest];
    try (intros E; discriminate E).
  - run_step. intros E _. inversion E. reflexivity.
  - run_step. destruct s as [|ch s'].
    { intros E _. inversion E. reflexivity. }
    destruct (ascii_dec ch "%") as [->|Hch].
    + intros E Hc. exfalso.
      assert (spec any any nonneg
        (let j := atoi s' in
         mask <- Sigprocmask_block;;
         found <- killjob j;;
         (if found then ret tt
          else msg "kill: job not found: %s\n" [AStr (Some (String "%" s'))]);;
         Sigprocmask_setmask mask;; ret 0%Z)) as Hs
        by (cbv zeta; ends_nonneg).
      destruct (Hs w) as [_ Hr]. cbv zeta in Hr. rewrite E in Hr.
      unfold nonneg in Hr. lia.
    + intros E _.
      destruct ch as [[] [] [] [] [] [] [] []];
        try (inversion E; reflexivity).
      exfalso. apply Hch. reflexivity.
Qed.

Lemma builtin_negative_is_silent (argv : list token_t) (w : world) (c : Z) :
  res (builtin_command argv w) = Ret c -> (c < 0)%Z ->
  builtin_command argv w = Run (Ret c) w [].
Proof.
  unfold builtin_command. destruct argv as [|[| | | | |name] args];
    try (intros E; discriminate E).
  unfold builtins, builtin_lookup.
  destruct (String.eqb name "quit"); [intros E; discriminate E|].
  destruct (String.eqb name "cd");
    [apply (@negative_is_silent unit), do_chdir_nonneg|].
  destruct (String.eqb name "jobs");
    [apply (@negative_is_silent unit), do_jobs_nonneg|].
  destruct (String.eqb name "fg");
    [apply (@negative_is_silent unit), do_fg_nonneg|].
  destruct (String.eqb name "bg");
    [apply (@negative_is_silent unit), do_bg_nonneg|].
  destruct (String.eqb name "kill"); [apply do_kill_negative_is_silent|].
  intros E _. inversion E. reflexivity.
Qed.

Lemma redir_event_not_msg (l : list event) :
  Forall redir_event l -> forall fmt args, ~ In (EMsg fmt args) l.
Proof.
  intros Hl fmt args Hin. rewrite Forall_forall in Hl.
  apply list_elem_of_In in Hin. exact (Hl _ Hin).
Qed.

(** After the redirections, a command that [builtin_command] answers with a
    negative value is forked. *)
Lemma do_job_forks (token : list token_t) (ntokens : nat) (bg : bool)
    (w : world) token' n io c pid later :
  res (do_redir token ntokens (-1) (-1) w) = Ret (token', n, io) ->
  res (builtin_command token' w) = Ret c -> (c < 0)%Z ->
  forks w = pid :: later ->
  exists post,
    evs (do_job token ntokens bg w)
    = evs (do_redir token ntokens (-1) (-1) w) ++ EFork pid :: post.
Proof.
  intros Hr Hb Hc Hf.
  pose proof (stateless_do_redir token ntokens (-1) (-1) w) as Hst.
  destruct (do_redir token ntokens (-1) (-1) w) as [r1 w1 e1] eqn:E1.
  simpl in Hr, Hst. subst r1 w1.
  apply builtin_negative_is_silent in Hb; [|exact Hc].
  unfold do_job. erewrite bind_run by exact E1. cbn [fst snd].
  erewrite bind_run by exact Hb. rewrite prepend_nil.
  destruct (Z.geb_spec c 0) as [Hge|_]; [lia|].
  unfold Sigprocmask_block. run_step.
  erewrite (bind_run Fork) by (apply Fork_run; cbn; exact Hf).
  rewrite !evs_prepend. cbn [evs]. eexists. reflexivity.
Qed.

(** C6, as the code has it.  When the argument of [kill] is missing or does
    not start with [%], the built-in returns -1 at once: it prints
    nothing, sends no signal and changes nothing; [builtin_command] hands
    the -1 on, and [do_job], for which a negative value means "not a
    built-in", goes on to fork. *)
Theorem kill_without_percent (w : world) (argv : list token_t) :
  match argv with
  | T_NULL :: _ => True
  | T_STR s :: _ => forall rest, s <> String "%" rest
  | _ => False
  end ->
  do_kill argv w = Run (Ret (-1)%Z) w []
  /\ builtin_command (T_STR "kill" :: argv) w = Run (Ret (-1)%Z) w []
  /\ forall token ntokens bg n io pid later,
       res (do_redir token ntokens (-1) (-1) w)
       = Ret (T_STR "kill" :: argv, n, io) ->
       forks w = pid :: later ->
       exists post,
         evs (do_job token ntokens bg w)
         = evs (do_redir token ntokens (-1) (-1) w) ++ EFork pid :: post.
Proof.
  intros Harg.
  assert (do_kill argv w = Run (Ret (-1)%Z) w []) as E.
  { unfold do_kill. destruct argv as [|[| | | | |s] rest]; try contradiction.
    - run_step. reflexivity.
    - run_step. destruct s as [|c s']; [reflexivity|].
      destruct (ascii_dec c "%") as [->|Hc].
      + exfalso. apply (Harg s'). reflexivity.
      + destruct c as [[] [] [] [] [] [] [] []]; try reflexivity.
        exfalso. apply Hc. reflexivity. }
  split; [exact E|]. split; [exact E|].
  intros token ntokens bg n io pid later Hr Hf.
  apply (do_job_forks token ntokens bg w (T_STR "kill" :: argv) n io (-1)%Z
                      pid later); [exact Hr | | lia | exact Hf].
  change (builtin_command (T_STR "kill" :: argv) w) with (do_kill argv w).
  rewrite E. reflexivity.
Qed.
End OpenFailure.

(** ** Who sets the process group *)



Lemma redir_events_quiet (l : list event) :
  Forall redir_event l -> Forall quiet l.
Proof.
  intros Hl. eapply Forall_impl; [exact Hl|].
  intros e He. destruct e; try exact I; contradiction.
Qed.

Lemma tame_spec {A} (m : M A) : tame m -> spec quiet bounded any m.
Proof. intros Hm. exact Hm. Qed.

Section Setpgid.
Context `{shell_h}.

Lemma do_job_child_noreturn input output token :
  spec quiet bounded none (do_job_child input output token).
Proof.
  unfold do_job_child.
  do 6 (eapply spec_bind with (R1 := any);
        [solve [apply tame_spec; tame_auto] | intros _ _]).
  apply external_command_noreturn.
Qed.

Lemma do_stage_child_noreturn mask input output token :
  spec quiet bounded none (do_stage_child mask input output token).
Proof.
  unfold do_stage_child.
  do 8 (eapply spec_bind with (R1 := any);
        [solve [apply tame_spec; tame_auto] | intros ? _]).
  apply external_command_noreturn.
Qed.

(** A run of a child: it halts, and all it did is [quiet]. *)
Lemma noreturn_run {A} (m : M A) (w : world) :
  spec quiet bounded none m ->
  exists h w' es, m w = Run (Halt h) w' es /\ Forall quiet es.
Proof.
  intros Hm. destruct (Hm w) as [He Hr].
  destruct (m w) as [[a|h] w' es]; simpl in *; [contradiction|].
  exists h, w', es. split; [reflexivity | exact He].
Qed.


End Setpgid.

Section SetpgidJob.
Context `{shell_h}.



End SetpgidJob.

(** ** Listing the jobs twice *)

Section Listing.
Context `{shell_h}.

Lemma watchjob_unfinished (which : Z) (j : nat) (job : job_t) (w : world) :
  job_state job <> FINISHED ->
  exists es, watchjob which j job w = Run (Ret tt) w es.
Proof.
  intros Hs. unfold watchjob, msg.
  destruct (Z.eqb which ALL || Z.eqb (job_state job) which);
    [|eexists; reflexivity].
  run_step.
  destruct (Z.eqb_spec (job_state job) FINISHED) as [E|_]; [contradiction|].
  destruct (Z.eqb (job_state job) STOPPED); [eexists; reflexivity|].
  destruct (Z.eqb (job_state job) RUNNING); eexists; reflexivity.
Qed.

Lemma watchjobs_from_keeps (which : Z) (k : nat) :
  forall (j : nat) (w : world),
    k = 0 \/ j + k <= length (jobs w) ->
    (forall x job, j <= x -> jobs w !! x = Some job ->
                   job_pgid job <> 0%Z -> job_state job <> FINISHED) ->
    exists es, watchjobs_from which k j w = Run (Ret tt) w es.
Proof.
  induction k as [|k IH]; intros j w Hk Hjobs; [eexists; reflexivity|].
  destruct Hk as [Hk|Hk]; [discriminate|].
  destruct (lookup_lt_is_Some_2 (jobs w) j) as [job Hj]; [lia|].
  cbn [watchjobs_from].
  erewrite bind_run by (apply jobslot_some; exact Hj). rewrite prepend_nil.
  destruct (IH (S j) w) as [es Hes].
  { right. lia. }
  { intros x job' Hx. apply Hjobs. lia. }
  destruct (Z.eqb_spec (job_pgid job) 0) as [E0|E0].
  - run_step. exists es. exact Hes.
  - destruct (watchjob_unfinished which j job w) as [es1 Hes1].
    { apply (Hjobs j job); [lia | exact Hj | exact E0]. }
    erewrite bind_run by exact Hes1. rewrite Hes.
    eexists. reflexivity.
Qed.

Lemma watchjobs_keeps (which : Z) (w : world) :
  no_finished_background (jobs w) ->
  exists es, watchjobs which w = Run (Ret tt) w es.
Proof.
  intros Hno. unfold watchjobs. run_step.
  apply watchjobs_from_keeps.
  - unfold njobmax. change (Z.to_nat BG) with 1. lia.
  - intros x job Hx. apply Hno. exact Hx.
Qed.

Lemma do_jobs_keeps (argv : list token_t) (w : world) :
  no_finished_background (jobs w) ->
  exists es, do_jobs argv w = Run (Ret 0%Z) w es.
Proof.
  intros Hno. unfold do_jobs.
  destruct (watchjobs_keeps ALL w Hno) as [es Hes].
  erewrite bind_run by exact Hes. eexists. reflexivity.
Qed.

(** C9, as the code has it.  When no occupied background slot is FINISHED,
    two runs of [jobs] in a row, with nothing in between, both return 0
    and print the same. *)
Theorem jobs_twice_same_output (argv argv' : list token_t) (w : world) :
  no_finished_background (jobs w) ->
  res (do_jobs argv w) = Ret 0%Z
  /\ res (do_jobs argv' (st (do_jobs argv w))) = Ret 0%Z
  /\ evs (do_jobs argv' (st (do_jobs argv w))) = evs (do_jobs argv w).
Proof.
  intros Hno.
  destruct (do_jobs_keeps argv w Hno) as [es Hes].
  destruct (do_jobs_keeps argv' w Hno) as [es' Hes'].
  assert (es' = es) as ->.
  { unfold do_jobs in Hes, Hes'. rewrite Hes in Hes'.
    inversion Hes'. reflexivity. }
  rewrite Hes. cbn [res st evs]. rewrite Hes'. repeat split.
Qed.
End Listing.

(** ** The bounds of the loops are never reached *)

Lemma spec_and {A} (E E' : event -> Prop) (L L' : halt -> Prop)
    (R R' : A -> Prop) (m : M A) :
  spec E L R m -> spec E' L' R' m ->
  spec (fun e => E e /\ E' e) (fun h => L h /\ L' h)
       (fun a => R a /\ R' a) m.
Proof.
  intros H1 H2 w. destruct (H1 w) as [He1 Hr1], (H2 w) as [He2 Hr2]. split.
  - rewrite Forall_forall in *. intros e He. split; auto.
  - destruct (res (m w)); split; assumption.
Qed.

Section Bounds.
Context `{shell_h}.

Lemma shift_tokens_length (k : nat) :
  forall (j : nat) (token : list token_t),
    length (shift_tokens k j token) = length token.
Proof.
  induction k as [|k IH]; intros j token; simpl; [reflexivity|].
  rewrite IH, length_insert. reflexivity.
Qed.

(** [do_redir] rewrites cells of the array, it never resizes it. *)
Lemma do_redir_loop_length (fuel : nat) :
  forall token ntokens i n input output,
    spec any any (fun r => length (fst (fst r)) = length token)
         (do_redir_loop fuel token ntokens i n input output).
Proof.
  induction fuel as [|fuel IH]; intros token ntokens i n input output;
    [apply spec_stop; exact I|].
  cbn [do_redir_loop].
  destruct (Nat.ltb i ntokens && negb (token_eqb (tok_at token i) T_NULL)).
  2: { apply spec_ret. cbn [fst]. apply length_insert. }
  destruct (is_redir (tok_at token i)); [|apply IH].
  eapply spec_bind with (R1 := any); [apply spec_any | intros _ _].
  cbv zeta.
  eapply spec_bind with (R1 := any); [apply spec_any | intros _ _].
  eapply spec_bind with (R1 := any); [apply spec_any | intros fd' _].
  eapply spec_weaken; [apply IH | auto | auto |].
  intros r Hr. rewrite Hr, !length_insert. apply shift_tokens_length.
Qed.

Lemma do_redir_bounded (token : list token_t) (ntokens : nat)
    (input output : Z) :
  ntokens <= length token ->
  spec any bounded (fun r => length (fst (fst r)) = length token)
       (do_redir token ntokens input output).
Proof.
  intros Hlen.
  eapply spec_weaken;
    [exact (spec_and _ _ _ _ _ _ _
              (do_redir_spec token ntokens input output Hlen)
              (do_redir_loop_length (S ntokens) token ntokens 0 0
                                    input output)) | | |].
  - intros e _. exact I.
  - intros h [Hh _]. unfold redir_halt in Hh. subst h. exact I.
  - intros r [_ Hr]. exact Hr.
Qed.

Lemma spec_tame {A} (m : M A) : tame m -> spec any bounded any m.
Proof.
  intros Hm. eapply spec_weaken; [exact Hm | | auto | auto].
  intros e _. exact I.
Qed.

Lemma spec_noreturn {A} (R : A -> Prop) (m : M A) :
  spec quiet bounded none m -> spec any bounded R m.
Proof.
  intros Hm. eapply spec_weaken; [exact Hm | | auto |].
  - intros e _. exact I.
  - intros a [].
Qed.

Lemma tame_Fork_bounded : spec any bounded any Fork.
Proof.
  unfold Fork. eapply spec_bind with (R1 := any);
    [apply spec_get; intros; exact I | intros w _].
  destruct (forks w) as [|pid later]; [apply spec_stop; exact I|].
  eapply spec_bind with (R1 := any).
  { intros w'. split; [constructor | exact I]. }
  intros _ _. eapply spec_bind with (R1 := any);
    [apply spec_emit; exact I | intros _ _; apply spec_ret; exact I].
Qed.

Lemma tame_Pipe_bounded : spec any bounded any Pipe.
Proof.
  unfold Pipe. eapply spec_bind with (R1 := any);
    [apply spec_get; intros; exact I | intros w _].
  destruct (pipes w) as [|[r wr] later]; [apply spec_stop; exact I|].
  eapply spec_bind with (R1 := any).
  { intros w'. split; [constructor | exact I]. }
  intros _ _. eapply spec_bind with (R1 := any);
    [apply spec_emit; exact I | intros _ _; apply spec_ret; exact I].
Qed.

Lemma do_stage_bounded (pgid : Z) (mask : bool) (input output : Z)
    (token : list token_t) (ntokens : nat) :
  ntokens <= length token ->
  spec any bounded (fun r => length (snd r) = length token)
       (do_stage pgid mask input output token ntokens).
Proof.
  intros Hlen. unfold do_stage.
  eapply spec_bind; [apply do_redir_bounded; exact Hlen | intros r Hr].
  cbn [fst snd].
  eapply spec_bind with (R1 := any); [apply tame_Fork_bounded | intros pid _].
  eapply spec_bind with (R1 := any).
  { destruct (Z.eqb pid 0);
      [apply spec_noreturn, do_stage_child_noreturn | apply spec_ret; exact I]. }
  intros _ _. eapply spec_bind with (R1 := any);
    [apply spec_emit; exact I | intros _ _].
  apply spec_ret. exact Hr.
Qed.

Lemma do_job_bounded (token : list token_t) (ntokens : nat) (bg : bool) :
  ntokens <= length token ->
  spec any bounded any (do_job token ntokens bg).
Proof.
  intros Hlen. unfold do_job.
  eapply spec_bind; [apply do_redir_bounded; exact Hlen | intros r _].
  cbn [fst snd].
  eapply spec_bind with (R1 := any);
    [apply spec_tame, tame_builtin_command | intros c _].
  destruct (Z.geb c 0); [apply spec_ret; exact I|].
  eapply spec_bind with (R1 := any);
    [apply spec_tame, tame_Sigprocmask_block | intros mask _].
  eapply spec_bind with (R1 := any); [apply tame_Fork_bounded | intros pid _].
  eapply spec_bind with (R1 := any).
  { destruct (Z.eqb pid 0);
      [apply spec_noreturn, do_job_child_noreturn | apply spec_ret; exact I]. }
  intros _ _. eapply spec_bind with (R1 := any);
    [apply spec_emit; exact I | intros _ _].
  apply spec_tame. tame_auto.
Qed.

Lemma scan_stage_range (k : nat) :
  forall (stage_end : nat) (token : list token_t),
    let scan := scan_stage k stage_end token in
    stage_end <= fst (fst scan) <= stage_end + k
    /\ length (snd scan) = length token.
Proof.
  induction k as [|k IH]; intros stage_end token; cbn [scan_stage].
  - cbn [fst snd]. split; [lia | reflexivity].
  - destruct (token_eqb (tok_at token stage_end) T_PIPE); cbn [fst snd].
    + split; [lia | apply length_insert].
    + specialize (IH (S stage_end) token). cbv zeta in IH.
      destruct IH as [Hr Hl]. split; [lia | exact Hl].
Qed.

Lemma pipeline_loop_bounded (ntokens : nat) (bg mask : bool) (fuel : nat) :
  forall (stage_start : nat) (v : pipeline_vars),
    ntokens - stage_start < fuel ->
    ntokens <= length (pl_token v) ->
    spec any bounded any (pipeline_loop fuel ntokens bg mask stage_start v).
Proof.
  induction fuel as [|fuel IH]; intros stage_start v Hfuel Hlen; [lia|].
  cbn [pipeline_loop].
  destruct (Nat.ltb_spec stage_start ntokens) as [Hlt|_];
    [|apply spec_ret; exact I].
  pose proof (scan_stage_range (ntokens - stage_start) stage_start
                               (pl_token v)) as Hscan.
  cbv zeta in Hscan. cbv zeta.
  destruct (scan_stage (ntokens - stage_start) stage_start (pl_token v))
    as [[stage_end is_last] token] eqn:Escan.
  cbn [fst snd] in *. destruct Hscan as [Hrange Hl].
  eapply spec_bind.
  { apply do_stage_bounded. rewrite length_drop. lia. }
  intros r Hr.
  do 2 (eapply spec_bind with (R1 := any);
        [apply spec_tame; tame_auto | intros _ _]).
  eapply spec_bind with (R1 := any); [apply spec_tame; tame_auto | intros pj _].
  eapply spec_bind with (R1 := any); [apply spec_tame; tame_auto | intros _ _].
  eapply spec_bind with (R1 := any).
  { destruct (negb is_last); [apply tame_Pipe_bounded | apply spec_ret; exact I]. }
  intros p _. apply IH; [lia|].
  cbn [pl_token]. rewrite length_app, length_take, Hr, length_drop. lia.
Qed.

Lemma do_pipeline_bounded (token : list token_t) (ntokens : nat)
    (bg : bool) :
  ntokens <= length token ->
  spec any bounded any (do_pipeline token ntokens bg).
Proof.
  intros Hlen. unfold do_pipeline. cbv zeta.
  eapply spec_bind with (R1 := any); [apply tame_Pipe_bounded | intros p _].
  eapply spec_bind with (R1 := any);
    [apply spec_tame, tame_Sigprocmask_block | intros mask _].
  eapply spec_bind with (R1 := any).
  { apply pipeline_loop_bounded; [lia | exact Hlen]. }
  intros v _. apply spec_tame. tame_auto.
Qed.

(** Evaluating a line of [ntokens] tokens held in an array of at least as
    many cells never outruns the bound of a loop of the model. *)
Lemma main_turn_bounded (token : list token_t) (ntokens : nat) :
  ntokens <= length token ->
  spec any bounded any (main_turn (token, ntokens)).
Proof.
  intros Hlen. unfold main_turn, eval. cbn [fst snd].
  eapply spec_bind with (R1 := any);
    [|intros _ _; apply spec_tame, tame_watchjobs].
  cbv zeta.
  destruct (Nat.ltb 0 ntokens
            && token_eqb (tok_at token (ntokens - 1)) T_BGJOB).
  - destruct (Nat.ltb 0 (ntokens - 1)); [|apply spec_ret; exact I].
    destruct (is_pipeline _ _);
      (eapply spec_bind with (R1 := any);
       [|intros _ _; apply spec_ret; exact I]).
    + apply do_pipeline_bounded. rewrite length_insert. lia.
    + apply do_job_bounded. rewrite length_insert. lia.
  - destruct (Nat.ltb 0 ntokens); [|apply spec_ret; exact I].
    destruct (is_pipeline _ _);
      (eapply spec_bind with (R1 := any);
       [|intros _ _; apply spec_ret; exact I]).
    + apply do_pipeline_bounded. exact Hlen.
    + apply do_job_bounded. exact Hlen.
Qed.
(** [do_pipeline] returns 0 whenever it returns. *)
Lemma do_pipeline_returns_zero (token : list token_t)
    (ntokens : nat) (bg : bool) :
  spec any any (fun c => c = 0%Z) (do_pipeline token ntokens bg).
Proof.
  unfold do_pipeline. cbv zeta.
  do 5 (eapply spec_bind with (R1 := any); [apply spec_any | intros ? _]).
  apply spec_ret. reflexivity.
Qed.
End Bounds.

(** ** The foreground monitor *)

Lemma keeps_wakeups_bind {A B} (m : M A) (k : A -> M B) :
  keeps_wakeups m -> (forall a, keeps_wakeups (k a)) ->
  keeps_wakeups (bind m k).
Proof.
  intros Hm Hk w. unfold bind. specialize (Hm w).
  destruct (res (m w)) as [a|h]; simpl; [|exact Hm].
  rewrite Hk. exact Hm.
Qed.

Lemma bind_ext_at {A B} (m : M A) (k1 k2 : A -> M B) (w : world) :
  (forall a, res (m w) = Ret a -> k1 a (st (m w)) = k2 a (st (m w))) ->
  bind m k1 w = bind m k2 w.
Proof.
  intros Hk. unfold bind. destruct (res (m w)) as [a|h]; [|reflexivity].
  rewrite (Hk a eq_refl). reflexivity.
Qed.

Section Monitor.
Context `{shell_h}.

Lemma keeps_wakeups_waitpid pid : keeps_wakeups (waitpid pid).
Proof.
  intros w. unfold waitpid. run_step.
  destruct (take_change pid (children w)) as [[s rest]|]; reflexivity.
Qed.

Lemma keeps_wakeups_reap_proc proc : keeps_wakeups (reap_proc proc).
Proof.
  unfold reap_proc. apply keeps_wakeups_bind; [apply keeps_wakeups_waitpid|].
  intros [s|]; [|intros w; reflexivity].
  destruct (WIFEXITED s || WIFSIGNALED s); [intros w; reflexivity|].
  destruct (WIFCONTINUED s); [intros w; reflexivity|].
  destruct (WIFSTOPPED s); intros w; reflexivity.
Qed.

Lemma keeps_wakeups_reap_procs procs :
  forall hr hs, keeps_wakeups (reap_procs procs hr hs).
Proof.
  induction procs as [|proc rest IH]; intros hr hs; simpl;
    [intros w; reflexivity|].
  destruct (Z.eqb (proc_state proc) FINISHED).
  - apply keeps_wakeups_bind; [apply IH | intros r w; reflexivity].
  - apply keeps_wakeups_bind; [apply keeps_wakeups_reap_proc|].
    intros proc'. cbv zeta.
    apply keeps_wakeups_bind; [apply IH | intros r w; reflexivity].
Qed.

Lemma keeps_wakeups_reap_jobs slots : keeps_wakeups (reap_jobs slots).
Proof.
  induction slots as [|job rest IH]; simpl; [intros w; reflexivity|].
  apply keeps_wakeups_bind.
  { unfold reap_job. destruct (Z.eqb (job_pgid job) 0);
      [intros w; reflexivity|].
    apply keeps_wakeups_bind; [apply keeps_wakeups_reap_procs|].
    intros r w; reflexivity. }
  intros job'. apply keeps_wakeups_bind; [apply IH | intros r w; reflexivity].
Qed.

Lemma keeps_wakeups_sigchld_handler : keeps_wakeups sigchld_handler.
Proof.
  unfold sigchld_handler.
  apply keeps_wakeups_bind; [intros w; reflexivity | intros w0].
  apply keeps_wakeups_bind; [apply keeps_wakeups_reap_jobs|].
  intros slots w; reflexivity.
Qed.

(** A wait that returns has used up one of the coming SIGCHLDs. *)
Lemma Sigsuspend_wakeups (mask : bool) (w : world) :
  res (Sigsuspend mask w) = Ret tt ->
  S (length (wakeups (st (Sigsuspend mask w)))) = length (wakeups w).
Proof.
  unfold Sigsuspend. destruct mask; [intros E; discriminate E|].
  run_step. destruct (wakeups w) as [|news later] eqn:Ew;
    [intros E; discriminate E|].
  intros _. run_step. run_step.
  rewrite keeps_wakeups_sigchld_handler. reflexivity.
Qed.

Lemma stateless_jobslot (j : nat) : stateless (jobslot j).
Proof.
  intros w. unfold jobslot. run_step.
  destruct (jobs w !! j); reflexivity.
Qed.

(** More wake-ups than there are SIGCHLDs to come change nothing: the
    bound that [monitorjob] gives its loop is enough. *)
Lemma monitor_loop_fuel (mask : bool) (fuel : nat) :
  forall w : world,
    length (wakeups w) < fuel ->
    monitor_loop fuel mask w
    = monitor_loop (S (length (wakeups w))) mask w.
Proof.
  induction fuel as [|fuel IH]; intros w Hlen; [lia|].
  cbn [monitor_loop]. apply bind_ext_at. intros [] Hs.
  apply Sigsuspend_wakeups in Hs.
  apply bind_ext_at. intros fg_job _.
  rewrite stateless_jobslot.
  destruct (Z.eqb (job_state fg_job) STOPPED); [reflexivity|].
  destruct (Z.eqb (job_state fg_job) FINISHED); [reflexivity|].
  rewrite IH by lia.
  replace (length (wakeups w))
    with (S (length (wakeups (st (Sigsuspend mask w))))) by lia.
  reflexivity.
Qed.

Lemma reap_jobs_same_pgids (slots : list job_t) :
  spec any none (same_pgids slots) (reap_jobs slots).
Proof.
  induction slots as [|job rest IH]; simpl.
  - apply spec_ret. constructor.
  - eapply spec_bind with (R1 := fun job' => job_pgid job' = job_pgid job).
    { unfold reap_job. destruct (Z.eqb (job_pgid job) 0);
        [apply spec_ret; reflexivity|].
      eapply spec_bind; [apply reap_procs_flags|]. intros r _.
      apply spec_ret. reflexivity. }
    intros job' Hj. eapply spec_bind; [apply IH|]. intros rest' Hr.
    apply spec_ret. constructor; assumption.
Qed.

Lemma Sigsuspend_same_pgids (mask : bool) (w : world) :
  res (Sigsuspend mask w) = Ret tt ->
  same_pgids (jobs w) (jobs (st (Sigsuspend mask w))).
Proof.
  unfold Sigsuspend. destruct mask; [intros E; discriminate E|].
  run_step. destruct (wakeups w) as [|news later];
    [intros E; discriminate E|].
  intros _. run_step. run_step. unfold sigchld_handler. run_step.
  cbn [jobs].
  match goal with
  | |- context [bind (reap_jobs (jobs w)) _ ?w'] =>
      destruct (reap_jobs_same_pgids (jobs w) w') as [_ Hr];
      destruct (reap_jobs (jobs w) w') as [[slots|h] w1 e1] eqn:E;
      cbn [res] in Hr; [|contradiction]
  end.
  erewrite bind_run by exact E. exact Hr.
Qed.

(** What [monitorjob] leaves behind.  When it returns, either it saw the
    job STOPPED and returns -1, or it saw the job FINISHED: then it
    returns the exit code of the last process, and slot 0 still holds the
    job, pgid and all. *)
Lemma monitor_loop_leaves_job (mask : bool) (fuel : nat) :
  forall (w w' : world) (c : Z) (es : list event),
    (exists job, jobs w !! 0 = Some job /\ job_pgid job <> 0%Z) ->
    monitor_loop fuel mask w = Run (Ret c) w' es ->
    c = (-1)%Z
    \/ exists job proc,
         jobs w' !! 0 = Some job /\ job_pgid job <> 0%Z
         /\ job_state job = FINISHED
         /\ last (job_proc job) = Some proc /\ proc_exitcode proc = c.
Proof.
  induction fuel as [|fuel IH]; intros w w' c es (job & Hj & Hp) Hrun;
    [discriminate Hrun|].
  cbn [monitor_loop] in Hrun.
  pose proof (Sigsuspend_same_pgids mask w) as Hsame.
  destruct (Sigsuspend mask w) as [[[]|h] w1 e1] eqn:Es;
    [|erewrite bind_halt in Hrun by exact Es; discriminate Hrun].
  erewrite bind_run in Hrun by exact Es.
  specialize (Hsame eq_refl). cbn [st] in Hsame.
  destruct (Forall2_lookup_l _ _ _ _ _ Hsame Hj) as (job1 & Hj1 & Hp1).
  change (Z.to_nat FG) with 0 in Hrun.
  erewrite bind_run in Hrun by (apply jobslot_some; exact Hj1).
  rewrite prepend_nil in Hrun.
  destruct (Z.eqb (job_state job1) STOPPED).
  { left.
    assert (spec any any (fun c => c = (-1)%Z)
              (bg <- addjob 0 BG;;
               movejob 0 (Z.to_nat bg);; ret (-1)%Z)) as Hs.
    { do 2 (eapply spec_bind with (R1 := any);
            [apply spec_any | intros ? _]).
      apply spec_ret. reflexivity. }
    destruct (Hs w1) as [_ Hr].
    match type of Hrun with
    | prepend _ ?r = _ =>
        assert (res r = Ret c) as Er
          by (apply (f_equal res) in Hrun; exact Hrun)
    end.
    cbv beta in Er. rewrite Er in Hr. exact Hr. }
  destruct (Z.eqb_spec (job_state job1) FINISHED) as [Ef|_].
  - right. unfold assert, exitcode in Hrun.
    destruct (job_proc job1) as [|p0 ps] eqn:Eprocs;
      [cbn in Hrun; discriminate Hrun|].
    cbn [length Nat.eqb negb] in Hrun.
    erewrite bind_run in Hrun by reflexivity. rewrite prepend_nil in Hrun.
    destruct (last (p0 :: ps)) as [proc|] eqn:El;
      [|cbn in Hrun; discriminate Hrun].
    cbn in Hrun. inversion Hrun; subst.
    exists job1, proc. rewrite Eprocs.
    repeat split; try assumption. congruence.
  - match type of Hrun with
    | prepend _ ?r = _ =>
        destruct r as [r2 w2 e2] eqn:E2; cbn in Hrun; inversion Hrun; subst
    end.
    apply (IH w1 w' c e2); [|exact E2].
    exists job1. split; [exact Hj1 | congruence].
Qed.
End Monitor.

Section MonitorJob.
Context `{shell_h}.

Lemma jobslot_none (w : world) (j : nat) :
  jobs w !! j = None ->
  jobslot j w = Run (Halt (Undefined "jobs[j] out of bounds")) w [].
Proof. intros E. unfold jobslot. run_step. rewrite E. reflexivity. Qed.

Lemma monitorjob_leaves_job (mask : bool) (w w' : world) (c : Z)
    (es : list event) :
  monitorjob mask w = Run (Ret c) w' es ->
  c = (-1)%Z
  \/ exists job proc,
       jobs w' !! 0 = Some job /\ job_pgid job <> 0%Z
       /\ job_state job = FINISHED
       /\ last (job_proc job) = Some proc /\ proc_exitcode proc = c.
Proof.
  unfold monitorjob. change (Z.to_nat FG) with 0.
  destruct (jobs w !! 0) as [job0|] eqn:Hj.
  2: { erewrite bind_halt by (apply jobslot_none; exact Hj).
       intros E; discriminate E. }
  erewrite bind_run by (apply jobslot_some; exact Hj). rewrite prepend_nil.
  unfold assert. destruct (Z.eqb_spec (job_pgid job0) 0) as [E0|Hp].
  { cbn [negb]. run_step. intros E; discriminate E. }
  cbn [negb]. run_step. run_step. unfold Tcsetpgrp at 1. run_step.
  destruct (monitor_loop (S (length (wakeups w))) mask w)
    as [[c1|h] w1 e1] eqn:El.
  2: { erewrite bind_halt by exact El. intros E; discriminate E. }
  erewrite bind_run by exact El. unfold getpgrp, Tcsetpgrp.
  run_step. cbn. intros E. inversion E; subst.
  apply (monitor_loop_leaves_job mask (S (length (wakeups w))) w w' c e1);
    [|exact El].
  exists job0. split; [exact Hj | exact Hp].
Qed.
End MonitorJob.

(** ** What every part of the shell keeps *)

Lemma framed_refl (b : bool) (w : world) : framed b w w.
Proof. repeat split; auto. Qed.

Lemma framed_trans (b : bool) (w1 w2 w3 : world) :
  framed b w1 w2 -> framed b w2 w3 -> framed b w1 w3.
Proof.
  intros (Hl1 & Ho1 & Ht1 & Hm1) (Hl2 & Ho2 & Ht2 & Hm2).
  repeat split; [lia | congruence | congruence |].
  intros Hb. rewrite Hm2, Hm1 by exact Hb. reflexivity.
Qed.

Lemma framed_loosen (b : bool) (w w' : world) :
  framed true w w' -> framed b w w'.
Proof.
  intros (Hl & Ho & Ht & Hm). repeat split; try assumption.
  intros _. apply Hm. reflexivity.
Qed.

Lemma last_tcsetpgrp_app (e1 e2 : list event) :
  last_tcsetpgrp (e1 ++ e2)
  = match last_tcsetpgrp e2 with
    | Some g => Some g
    | None => last_tcsetpgrp e1
    end.
Proof.
  induction e1 as [|e rest IH]; simpl.
  - destruct (last_tcsetpgrp e2); reflexivity.
  - rewrite IH. destruct (last_tcsetpgrp e2); reflexivity.
Qed.

Lemma no_tc_last (es : list event) :
  Forall no_tc es -> last_tcsetpgrp es = None.
Proof.
  induction 1 as [|e rest He _ IH]; simpl; [reflexivity|].
  rewrite IH. destruct e; try reflexivity. contradiction.
Qed.

Lemma tty_home_app (w w' : world) (e1 e2 : list event) :
  os w' = os w -> tty_home w e1 -> tty_home w' e2 -> tty_home w (e1 ++ e2).
Proof.
  unfold tty_home. intros Ho H1 H2. rewrite last_tcsetpgrp_app.
  destruct (last_tcsetpgrp e2); [congruence | exact H1].
Qed.

Section CalmRules.
Context {A B : Type}.

Lemma calm_bind_post (R : A -> Prop) (m : M A) (k : A -> M B) :
  calm m -> (forall w a, res (m w) = Ret a -> R a) ->
  (forall a, R a -> calm (k a)) -> calm (bind m k).
Proof.
  intros Hm HR Hk w. destruct (Hm w) as [He Hf]. unfold bind.
  destruct (res (m w)) as [a|h] eqn:Er; cbn [res st evs].
  - destruct (Hk a (HR w a Er) (st (m w))) as [He' Hf']. split.
    + apply Forall_app. split; assumption.
    + intros b Eb. eapply framed_trans; [apply (Hf a); reflexivity|].
      apply (Hf' b). exact Eb.
  - split; [exact He|]. intros a Ea. discriminate Ea.
Qed.

Lemma calm_bind (m : M A) (k : A -> M B) :
  calm m -> (forall a, calm (k a)) -> calm (bind m k).
Proof.
  intros Hm Hk. apply (calm_bind_post (fun _ => True)); auto.
Qed.

Lemma calm_ret (a : A) : calm (ret a).
Proof.
  intros w. split; [constructor|]. intros _ _. apply framed_refl.
Qed.

Lemma calm_stop (h : halt) : calm (@stop A h).
Proof.
  intros w. split; [constructor|]. intros a Ea. discriminate Ea.
Qed.

Lemma orderly_bind (b : bool) (m : M A) (k : A -> M B) :
  orderly b m -> (forall a, orderly b (k a)) -> orderly b (bind m k).
Proof.
  intros Hm Hk w c. unfold bind.
  destruct (res (m w)) as [a|h] eqn:Er; cbn [res st evs];
    [|intros E; discriminate E].
  intros Ec. destruct (Hm w a Er) as [Hf Ht].
  destruct (Hk a (st (m w)) c Ec) as [Hf' Ht']. split.
  - eapply framed_trans; eassumption.
  - eapply tty_home_app; [apply Hf | exact Ht | exact Ht'].
Qed.

Lemma orderly_to_bind (mask : bool) (m : M A) (k : A -> M B) :
  orderly false m -> (forall a, orderly_to mask (k a)) ->
  orderly_to mask (bind m k).
Proof.
  intros Hm Hk w c. unfold bind.
  destruct (res (m w)) as [a|h] eqn:Er; cbn [res st evs];
    [|intros E; discriminate E].
  intros Ec. destruct (Hm w a Er) as [Hf Ht].
  destruct (Hk a (st (m w)) c Ec) as (Hf' & Hmask & Ht'). split.
  - eapply framed_trans; eassumption.
  - split; [exact Hmask|].
    eapply tty_home_app; [apply Hf | exact Ht | exact Ht'].
Qed.

Lemma calm_orderly (b : bool) (m : M A) : calm m -> orderly b m.
Proof.
  intros Hm w a Ea. destruct (Hm w) as [He Hf]. split.
  - apply framed_loosen, (Hf a), Ea.
  - unfold tty_home. rewrite no_tc_last by exact He. exact I.
Qed.

Lemma orderly_loosen (b : bool) (m : M A) : orderly true m -> orderly b m.
Proof.
  intros Hm w a Ea. destruct (Hm w a Ea) as [Hf Ht].
  split; [apply framed_loosen, Hf | exact Ht].
Qed.

Lemma noreturn_orderly (b : bool) (m : M A) :
  spec quiet bounded none m -> orderly b m.
Proof.
  intros Hm w a Ea. destruct (Hm w) as [_ Hr]. rewrite Ea in Hr.
  contradiction.
Qed.
End CalmRules.

Lemma calm_emit (e : event) : no_tc e -> calm (emit e).
Proof.
  intros He w. split; [repeat constructor; exact He|].
  intros _ _. apply framed_refl.
Qed.

Lemma calm_get : calm get.
Proof. intros w. split; [constructor|]. intros _ _. apply framed_refl. Qed.

Lemma calm_assert (b : bool) (text : string) : calm (assert b text).
Proof. unfold assert. destruct b; [apply calm_ret | apply calm_stop]. Qed.

(** A change of state that keeps the frame is calm. *)
Lemma calm_state (m : M unit) :
  (forall w, res (m w) = Ret tt /\ evs (m w) = []
             /\ framed true w (st (m w))) ->
  calm m.
Proof.
  intros Hm w. destruct (Hm w) as (Hr & He & Hf). rewrite He.
  split; [constructor|]. intros _ _. exact Hf.
Qed.

(** The bracket [Sigprocmask(SIG_BLOCK ..) .. Sigprocmask(SIG_SETMASK ..)]. *)
Lemma orderly_bracket {B} (k : bool -> M B) :
  (forall mask, orderly_to mask (k mask)) ->
  orderly true (bind Sigprocmask_block k).
Proof.
  intros Hk w c. erewrite bind_run by reflexivity. rewrite prepend_nil.
  intros Ec. destruct (Hk (sigchld_blocked w) _ c Ec) as (Hf & Hm & Ht).
  split; [|exact Ht].
  destruct Hf as (Hl & Ho & Hty & _).
  repeat split; [exact Hl | exact Ho | exact Hty |]. intros _. exact Hm.
Qed.

Lemma orderly_to_setmask {A} (mask : bool) (a : A) :
  orderly_to mask (Sigprocmask_setmask mask;; ret a).
Proof.
  intros w c _. cbn. repeat split; auto. intros E; discriminate E.
Qed.

Lemma orderly_to_setmask_then {A} (mask : bool) (k : M A) :
  calm k -> orderly_to mask (Sigprocmask_setmask mask;; k).
Proof.
  intros Hk w c. erewrite bind_run by reflexivity. rewrite prepend_nil.
  cbv beta. change (st (Sigprocmask_setmask mask w))
    with (World (jobs w) (tty_fd w) mask (children w) (wakeups w)
                (forks w) (pipes w) (os w) (arrivals w)).
  set (w1 := World _ _ _ _ _ _ _ _ _).
  destruct (Hk w1) as [He Hf]. intros Ec.
  destruct (Hf c Ec) as (Hl & Ho & Ht & Hm).
  split; [|split].
  - repeat split; [exact Hl | exact Ho | exact Ht |].
    intros E; discriminate E.
  - rewrite Hm by reflexivity. reflexivity.
  - unfold tty_home. rewrite no_tc_last by exact He. exact I.
Qed.

Create HintDb calm discriminated.
#[local] Hint Resolve calm_ret calm_stop calm_get calm_assert : calm.

(** Takes a goal [calm m] apart along the syntax of [m]. *)
Ltac calm_step :=
  lazymatch goal with
  | |- calm (bind _ _) => apply calm_bind; [|intros ?]
  | |- calm (emit _) => apply calm_emit; exact I
  | |- calm (if ?b then _ else _) => destruct b
  | |- calm (match ?x with _ => _ end) => destruct x
  | |- calm (let _ := _ in _) => cbv zeta
  | |- calm _ => solve [auto with calm]
  end.
Ltac calm_auto := repeat calm_step.

Section Calm.
Context `{shell_h}.

Lemma calm_set_sigchld_keeps (c : list (Z * wstatus)) : calm (set_children c).
Proof.
  apply calm_state. intros w. repeat split; auto.
Qed.
Lemma calm_set_wakeups l : calm (set_wakeups l).
Proof. apply calm_state. intros w. repeat split; auto. Qed.
Lemma calm_set_forks l : calm (set_forks l).
Proof. apply calm_state. intros w. repeat split; auto. Qed.
Lemma calm_set_pipes l : calm (set_pipes l).
Proof. apply calm_state. intros w. repeat split; auto. Qed.
#[local] Hint Resolve calm_set_sigchld_keeps calm_set_wakeups calm_set_forks
  calm_set_pipes : calm.

Lemma calm_msg fmt args : calm (msg fmt args).
Proof. unfold msg. calm_auto. Qed.
Lemma calm_debug fmt args : calm (debug fmt args).
Proof. unfold debug. calm_auto. Qed.
Lemma calm_open file flags : calm (open file flags).
Proof. unfold open. calm_auto. Qed.
Lemma calm_close fd : calm (close fd).
Proof. unfold close. calm_auto. Qed.
Lemma calm_dup2 a b : calm (dup2 a b).
Proof. unfold dup2. calm_auto. Qed.
Lemma calm_setpgid a b : calm (setpgid a b).
Proof. unfold setpgid. calm_auto. Qed.
Lemma calm_Kill pid sig : calm (Kill pid sig).
Proof. unfold Kill. calm_auto. Qed.
Lemma calm_Signal sig h : calm (Signal sig h).
Proof. unfold Signal. calm_auto. Qed.
Lemma calm_getpgrp : calm getpgrp.
Proof. unfold getpgrp. calm_auto. Qed.
Lemma calm_Fork : calm Fork.
Proof. unfold Fork. calm_auto. Qed.
Lemma calm_Pipe : calm Pipe.
Proof. unfold Pipe, mkpipe. calm_auto. Qed.
Lemma calm_waitpid pid : calm (waitpid pid).
Proof. unfold waitpid. calm_auto. Qed.
#[local] Hint Resolve calm_msg calm_debug calm_open calm_close calm_dup2
  calm_setpgid calm_Kill calm_Signal calm_getpgrp calm_Fork calm_Pipe
  calm_waitpid : calm.

Lemma calm_jobslot j : calm (jobslot j).
Proof. unfold jobslot. calm_auto. Qed.

Lemma calm_set_jobslot j job : calm (set_jobslot j job).
Proof.
  intros w. unfold set_jobslot. run_step. cbn [set_jobs res st evs].
  split; [constructor|]. intros _ _.
  repeat split; auto. cbn [jobs]. rewrite length_insert. lia.
Qed.
#[local] Hint Resolve calm_jobslot calm_set_jobslot : calm.

Lemma calm_exitcode job : calm (exitcode job).
Proof. unfold exitcode. calm_auto. Qed.

Lemma calm_allocjob : calm allocjob.
Proof.
  intros w. unfold allocjob. run_step.
  destruct (find_free _ _); [apply calm_ret|].
  cbn [bind set_jobs ret res st evs app].
  split; [constructor|]. intros _ _.
  repeat split; auto. cbn [jobs]. rewrite length_app. lia.
Qed.
#[local] Hint Resolve calm_exitcode calm_allocjob : calm.

Lemma calm_addjob pgid bg : calm (addjob pgid bg).
Proof. unfold addjob. calm_auto. Qed.
Lemma calm_deljob job : calm (deljob job).
Proof. unfold deljob. calm_auto. Qed.
Lemma calm_movejob from to : calm (movejob from to).
Proof. unfold movejob. calm_auto. Qed.
#[local] Hint Resolve calm_addjob calm_deljob calm_movejob : calm.

Lemma calm_mkcommand_args argv : forall cmd, calm (mkcommand_args cmd argv).
Proof.
  induction argv as [|t rest IH]; intros cmd; simpl; [calm_auto|].
  destruct t; calm_auto.
Qed.
#[local] Hint Resolve calm_mkcommand_args : calm.

Lemma calm_mkcommand cmd argv : calm (mkcommand cmd argv).
Proof. unfold mkcommand. calm_auto. Qed.
#[local] Hint Resolve calm_mkcommand : calm.

Lemma calm_addproc j pid argv : calm (addproc j pid argv).
Proof. unfold addproc. calm_auto. Qed.
Lemma calm_jobstate j status : calm (jobstate j status).
Proof. unfold jobstate. calm_auto. Qed.
Lemma calm_jobcmd j : calm (jobcmd j).
Proof. unfold jobcmd. calm_auto. Qed.
Lemma calm_killjob j : calm (killjob j).
Proof. unfold killjob. calm_auto. Qed.
Lemma calm_watchjob which j job : calm (watchjob which j job).
Proof. unfold watchjob. calm_auto. Qed.
#[local] Hint Resolve calm_addproc calm_jobstate calm_jobcmd calm_killjob
  calm_watchjob : calm.

Lemma calm_watchjobs_from which k : forall j, calm (watchjobs_from which k j).
Proof. induction k as [|k IH]; intros j; simpl; calm_auto. Qed.
#[local] Hint Resolve calm_watchjobs_from : calm.

Lemma calm_watchjobs which : calm (watchjobs which).
Proof. unfold watchjobs. calm_auto. Qed.

Lemma calm_argv0 argv : calm (argv0 argv).
Proof. unfold argv0. calm_auto. Qed.
#[local] Hint Resolve calm_watchjobs calm_argv0 : calm.

Lemma calm_do_chdir argv : calm (do_chdir argv).
Proof. unfold do_chdir. calm_auto. Qed.
Lemma calm_do_jobs argv : calm (do_jobs argv).
Proof. unfold do_jobs. calm_auto. Qed.
Lemma calm_do_quit argv : calm (do_quit argv).
Proof. unfold do_quit. calm_auto. Qed.

Lemma calm_do_redir_loop (fuel : nat) :
  forall token ntokens i n input output,
    calm (do_redir_loop fuel token ntokens i n input output).
Proof.
  induction fuel as [|fuel IH]; intros token ntokens i n input output;
    cbn [do_redir_loop]; calm_auto.
Qed.

Lemma calm_do_redir token ntokens input output :
  calm (do_redir token ntokens input output).
Proof. apply calm_do_redir_loop. Qed.
End Calm.

#[local] Hint Resolve calm_set_wakeups calm_set_forks calm_set_pipes
  calm_msg calm_debug calm_open calm_close calm_dup2 calm_setpgid calm_Kill
  calm_Signal calm_getpgrp calm_Fork calm_Pipe calm_waitpid calm_jobslot
  calm_set_jobslot calm_exitcode calm_allocjob calm_addjob calm_deljob
  calm_movejob calm_mkcommand calm_addproc calm_jobstate calm_jobcmd
  calm_killjob calm_watchjobs calm_argv0 calm_do_chdir calm_do_jobs
  calm_do_quit calm_do_redir : calm.

(** ** The reaper, the monitor and the launchers keep the frame *)

Lemma reaps_only_bind {A B} (m : M A) (k : A -> M B) :
  reaps_only m -> (forall a, reaps_only (k a)) -> reaps_only (bind m k).
Proof.
  intros Hm Hk w. destruct (Hm w) as (He & c & Hs & Hc). unfold bind.
  destruct (res (m w)) as [a|h]; cbn [res st evs].
  - destruct (Hk a (st (m w))) as (He' & c' & Hs' & Hc'). rewrite He, He'.
    split; [reflexivity|]. exists c'. rewrite Hs', Hs. split; [reflexivity|].
    rewrite Hs in Hc'. cbn [children with_children] in Hc'.
    etrans; eassumption.
  - split; [exact He|]. exists c. split; assumption.
Qed.

Lemma reaps_only_ret {A} (a : A) : reaps_only (ret a).
Proof.
  intros w. split; [reflexivity|]. exists (children w).
  split; [destruct w; reflexivity | reflexivity].
Qed.

Lemma take_change_sublist (pid : Z) (c : list (Z * wstatus)) s rest :
  take_change pid c = Some (s, rest) -> sublist rest c.
Proof.
  revert rest. induction c as [|[p s0] c IH]; intros rest; simpl;
    [intros E; discriminate E|].
  destruct (Z.eqb p pid).
  - intros E. inversion E; subst. apply sublist_cons, reflexivity.
  - destruct (take_change pid c) as [[s' rest']|]; [|intros E; discriminate E].
    intros E. inversion E; subst. apply sublist_skip, IH. reflexivity.
Qed.

Section ReaperFrame.
Context `{shell_h}.

Lemma reaps_only_waitpid pid : reaps_only (waitpid pid).
Proof.
  intros w. unfold waitpid. run_step.
  destruct (take_change pid (children w)) as [[s rest]|] eqn:Et.
  - cbn. split; [reflexivity|]. exists rest. split; [reflexivity|].
    exact (take_change_sublist _ _ _ _ Et).
  - apply reaps_only_ret.
Qed.

Lemma reaps_only_reap_proc proc : reaps_only (reap_proc proc).
Proof.
  unfold reap_proc. apply reaps_only_bind; [apply reaps_only_waitpid|].
  intros [s|]; [|apply reaps_only_ret].
  destruct (WIFEXITED s || WIFSIGNALED s); [apply reaps_only_ret|].
  destruct (WIFCONTINUED s); [apply reaps_only_ret|].
  destruct (WIFSTOPPED s); apply reaps_only_ret.
Qed.

Lemma reaps_only_reap_procs procs :
  forall hr hs, reaps_only (reap_procs procs hr hs).
Proof.
  induction procs as [|proc rest IH]; intros hr hs; simpl;
    [apply reaps_only_ret|].
  destruct (Z.eqb (proc_state proc) FINISHED).
  - apply reaps_only_bind; [apply IH | intros r; apply reaps_only_ret].
  - apply reaps_only_bind; [apply reaps_only_reap_proc|].
    intros proc'. cbv zeta.
    apply reaps_only_bind; [apply IH | intros r; apply reaps_only_ret].
Qed.

Lemma reaps_only_reap_job job : reaps_only (reap_job job).
Proof.
  unfold reap_job. destruct (Z.eqb (job_pgid job) 0);
    [apply reaps_only_ret|].
  apply reaps_only_bind; [apply reaps_only_reap_procs|].
  intros r. apply reaps_only_ret.
Qed.

Lemma reaps_only_reap_jobs slots : reaps_only (reap_jobs slots).
Proof.
  induction slots as [|job rest IH]; simpl; [apply reaps_only_ret|].
  apply reaps_only_bind; [apply reaps_only_reap_job|].
  intros job'. apply reaps_only_bind; [apply IH|].
  intros r. apply reaps_only_ret.
Qed.

(** The handler as one step: the table it writes is what [reap_jobs] made
    of the table it read, with the same process groups slot by slot. *)
Lemma sigchld_handler_run (w : world) :
  exists slots c,
    sigchld_handler w = Run (Ret tt) (with_jobs slots (with_children c w)) []
    /\ reap_jobs (jobs w) w = Run (Ret slots) (with_children c w) []
    /\ same_pgids (jobs w) slots.
Proof.
  destruct (reap_jobs_same_pgids (jobs w) w) as [_ Hr].
  destruct (reaps_only_reap_jobs (jobs w) w) as (He & c & Hs & _).
  destruct (reap_jobs (jobs w) w) as [[slots|h] w1 e1] eqn:E;
    cbn [res st evs] in *; [|contradiction].
  subst e1 w1. exists slots, c. split; [|split; [reflexivity | exact Hr]].
  unfold sigchld_handler. run_step.
  erewrite bind_run by exact E. reflexivity.
Qed.

Lemma calm_sigchld_handler : calm sigchld_handler.
Proof.
  intros w. destruct (sigchld_handler_run w) as (slots & c & E & _ & Hs).
  rewrite E. cbn [res st evs]. split; [constructor|]. intros _ _.
  repeat split; auto. cbn [jobs with_jobs].
  rewrite (Forall2_length _ _ _ Hs). lia.
Qed.

Lemma calm_Sigsuspend mask : calm (Sigsuspend mask).
Proof.
  unfold Sigsuspend. destruct mask; [apply calm_stop|].
  apply calm_bind; [apply calm_get | intros w].
  destruct (wakeups w); [apply calm_stop|].
  apply calm_bind; [apply calm_set_wakeups | intros _].
  apply calm_bind; [apply calm_set_sigchld_keeps | intros _].
  apply calm_sigchld_handler.
Qed.

Lemma calm_set_arrivals l : calm (set_arrivals l).
Proof. apply calm_state. intros w. repeat split; auto. Qed.

Lemma calm_sigchld_arrives k : calm (sigchld_arrives k).
Proof.
  induction k as [|k IH]; simpl; [apply calm_ret|].
  apply calm_bind; [apply calm_get | intros w].
  destruct (wakeups w); [apply calm_ret|].
  apply calm_bind; [apply calm_set_wakeups | intros _].
  apply calm_bind; [apply calm_set_sigchld_keeps | intros _].
  apply calm_bind; [apply calm_sigchld_handler | intros _].
  exact IH.
Qed.

(** At the prompt the handler may run, which keeps the frame. *)
Lemma calm_readline : calm readline.
Proof.
  unfold readline. apply calm_bind; [apply calm_get | intros w].
  destruct (arrivals w); [apply calm_ret|].
  apply calm_bind; [apply calm_set_arrivals | intros _].
  destruct (sigchld_blocked w); [apply calm_ret|].
  apply calm_sigchld_arrives.
Qed.

Lemma calm_monitor_loop fuel : forall mask, calm (monitor_loop fuel mask).
Proof.
  pose proof calm_Sigsuspend as Hs.
  induction fuel as [|fuel IH]; intros mask; simpl; calm_auto.
Qed.

Lemma orderly_monitorjob (mask : bool) : orderly true (monitorjob mask).
Proof.
  intros w c.
  destruct (monitorjob mask w) as [r w' es] eqn:Em. cbn [res st evs].
  intros Er. subst r. revert Em.
  unfold monitorjob. change (Z.to_nat FG) with 0.
  destruct (jobs w !! 0) as [job0|] eqn:Hj.
  2: { erewrite bind_halt by (apply jobslot_none; exact Hj).
       intros E; discriminate E. }
  erewrite bind_run by (apply jobslot_some; exact Hj). rewrite prepend_nil.
  unfold assert. destruct (negb (Z.eqb (job_pgid job0) 0)).
  2: { run_step. intros E; discriminate E. }
  run_step. run_step. unfold Tcsetpgrp at 1. run_step.
  destruct (calm_monitor_loop (S (length (wakeups w))) mask w) as [He Hf].
  destruct (monitor_loop (S (length (wakeups w))) mask w)
    as [[c1|h] w1 e1] eqn:El.
  2: { erewrite bind_halt by exact El. intros E; discriminate E. }
  cbn [res st evs] in He, Hf. specialize (Hf c1 eq_refl).
  erewrite bind_run by exact El. unfold getpgrp, Tcsetpgrp.
  run_step. cbn. intros E. inversion E; subst. split; [exact Hf|].
  unfold tty_home.
  change (ETcsetpgrp (tty_fd w) (job_pgid job0)
          :: e1 ++ [ETcsetpgrp (tty_fd w) (sys_getpgrp (os w'))])
    with ((ETcsetpgrp (tty_fd w) (job_pgid job0) :: e1)
          ++ [ETcsetpgrp (tty_fd w) (sys_getpgrp (os w'))]).
  rewrite last_tcsetpgrp_app. cbn. f_equal. apply Hf.
Qed.
End ReaperFrame.

#[local] Hint Resolve calm_sigchld_handler calm_Sigsuspend calm_monitor_loop
  : calm.

Create HintDb orderly discriminated.
#[local] Hint Resolve orderly_monitorjob : orderly.

(** Takes a goal [orderly b m] apart along the syntax of [m]. *)
Ltac orderly_step :=
  lazymatch goal with
  | |- orderly _ (bind Sigprocmask_block _) =>
      apply orderly_loosen, orderly_bracket; intros ?
  | |- orderly _ (bind _ _) => apply orderly_bind; [|intros ?]
  | |- orderly _ (if ?b then _ else _) => destruct b
  | |- orderly _ (match ?x with _ => _ end) => destruct x
  | |- orderly _ (let _ := _ in _) => cbv zeta
  | |- orderly _ _ =>
      first [ solve [auto with orderly]
            | solve [apply orderly_loosen; auto with orderly]
            | solve [apply calm_orderly; calm_auto] ]
  | |- orderly_to _ (bind (Sigprocmask_setmask _) _) =>
      first [ apply orderly_to_setmask | apply orderly_to_setmask_then ]
  | |- orderly_to _ (bind _ _) => apply orderly_to_bind; [|intros ?]
  | |- orderly_to _ (if ?b then _ else _) => destruct b
  | |- orderly_to _ (let _ := _ in _) => cbv zeta
  end.
Ltac orderly_auto := repeat orderly_step.

(** ** Every command of the shell is orderly *)

Section Orderly.
Context `{shell_h}.

Lemma orderly_resumejob j bg mask : orderly true (resumejob j bg mask).
Proof. unfold resumejob. orderly_auto. Qed.
#[local] Hint Resolve orderly_resumejob : orderly.

Lemma orderly_do_fg argv : orderly true (do_fg argv).
Proof. unfold do_fg. orderly_auto. Qed.

Lemma orderly_do_bg argv : orderly true (do_bg argv).
Proof. unfold do_bg. orderly_auto. Qed.

Lemma orderly_do_kill argv : orderly true (do_kill argv).
Proof.
  unfold do_kill. apply orderly_bind; [orderly_auto|].
  intros [[|c number]|]; [orderly_auto| |orderly_auto].
  destruct (Ascii.eqb_spec c "%") as [->|Hc].
  - orderly_auto.
  - destruct c as [[] [] [] [] [] [] [] []]; try (apply calm_orderly, calm_ret).
    contradiction Hc; reflexivity.
Qed.
#[local] Hint Resolve orderly_do_fg orderly_do_bg orderly_do_kill : orderly.

Lemma orderly_builtin_command argv : orderly true (builtin_command argv).
Proof.
  unfold builtin_command.
  destruct argv as [|[| | | | |name] args]; try (apply calm_orderly, calm_stop).
  unfold builtins, builtin_lookup.
  repeat (match goal with
          | |- context [String.eqb name ?s] => destruct (String.eqb name s)
          end; cbv iota beta; [orderly_auto|]).
  orderly_auto.
Qed.
#[local] Hint Resolve orderly_builtin_command : orderly.

Lemma orderly_do_stage pgid mask input output token ntokens :
  orderly true (do_stage pgid mask input output token ntokens).
Proof.
  unfold do_stage. apply orderly_bind; [orderly_auto|]. intros r. cbv zeta.
  apply orderly_bind; [orderly_auto|]. intros pid.
  apply orderly_bind; [|intros _; orderly_auto].
  destruct (Z.eqb pid 0); [|orderly_auto].
  apply noreturn_orderly, do_stage_child_noreturn.
Qed.
#[local] Hint Resolve orderly_do_stage : orderly.

Lemma orderly_do_job token ntokens bg : orderly true (do_job token ntokens bg).
Proof.
  unfold do_job. apply orderly_bind; [orderly_auto|]. intros r. cbv zeta.
  apply orderly_bind; [orderly_auto|]. intros exitcode.
  destruct (Z.geb exitcode 0); [orderly_auto|].
  apply orderly_bracket. intros mask.
  apply orderly_to_bind; [orderly_auto|]. intros pid.
  apply orderly_to_bind;
    [destruct (Z.eqb pid 0);
     [apply noreturn_orderly, do_job_child_noreturn | orderly_auto]|].
  intros _. orderly_auto.
Qed.

Lemma orderly_pipeline_loop (fuel : nat) :
  forall ntokens bg mask stage_start v,
    orderly true (pipeline_loop fuel ntokens bg mask stage_start v).
Proof.
  induction fuel as [|fuel IH]; intros ntokens bg mask stage_start v;
    cbn [pipeline_loop]; [orderly_auto|].
  destruct (Nat.ltb stage_start ntokens); [|orderly_auto]. cbv zeta.
  apply orderly_bind; [orderly_auto|]. intros r.
  apply orderly_bind; [orderly_auto|]. intros _.
  apply orderly_bind; [orderly_auto|]. intros _.
  apply orderly_bind; [orderly_auto|]. intros pj.
  apply orderly_bind; [orderly_auto|]. intros _.
  apply orderly_bind; [unfold mkpipe; orderly_auto|]. intros p.
  apply IH.
Qed.
#[local] Hint Resolve orderly_pipeline_loop : orderly.

Lemma orderly_do_pipeline token ntokens bg :
  orderly true (do_pipeline token ntokens bg).
Proof.
  unfold do_pipeline, mkpipe. cbv zeta.
  apply orderly_bind; [orderly_auto|]. intros p.
  apply orderly_bracket. intros mask. orderly_auto.
Qed.

Lemma orderly_eval token ntokens : orderly true (eval token ntokens).
Proof.
  pose proof orderly_do_job. pose proof orderly_do_pipeline.
  unfold eval. cbv zeta. orderly_auto.
Qed.

Lemma orderly_main_turn line : orderly true (main_turn line).
Proof.
  pose proof orderly_eval. unfold main_turn. orderly_auto.
Qed.

Lemma orderly_main_loop lines : orderly true (main_loop lines).
Proof.
  pose proof orderly_main_turn. pose proof calm_readline.
  induction lines as [|line rest IH]; simpl; orderly_auto.
Qed.

Lemma orderly_shutdown_from mask k :
  forall j, orderly true (shutdown_from mask k j).
Proof.
  induction k as [|k IH]; intros j; simpl; orderly_auto.
Qed.

Lemma orderly_shutdownjobs : orderly true shutdownjobs.
Proof.
  pose proof orderly_shutdown_from.
  unfold shutdownjobs. apply orderly_bracket. intros mask. orderly_auto.
Qed.
End Orderly.

(** ** The shell between two prompts *)

Lemma bind_ret_inv {A B} (m : M A) (k : A -> M B) (w : world) (b : B) :
  res (bind m k w) = Ret b ->
  exists a, res (m w) = Ret a /\ res (k a (st (m w))) = Ret b.
Proof.
  unfold bind. destruct (res (m w)) as [a|h]; cbn [res];
    [|intros E; discriminate E].
  intros E. exists a. split; [reflexivity | exact E].
Qed.

Section Prompt.
Context `{shell_h}.

(** X1.  The critical sections are closed: when the evaluation of any
    number of lines comes back to the loop of [main], SIGCHLD is blocked
    or not as it was before, whatever the lines did in between. *)
Theorem signal_mask_is_restored (lines : list (list token_t * nat))
    (w : world) :
  res (main_loop lines w) = Ret tt ->
  sigchld_blocked (st (main_loop lines w)) = sigchld_blocked w.
Proof.
  intros Hr. destruct (orderly_main_loop lines w tt Hr) as [Hf _].
  apply Hf. reflexivity.
Qed.

(** X2.  The terminal comes back: when the evaluation of any number of
    lines comes back to the loop of [main], the last [tcsetpgrp] that was
    made, if one was made, gave the terminal to the process group of the
    shell. *)
Theorem terminal_returns_to_the_shell (lines : list (list token_t * nat))
    (w : world) (g : Z) :
  res (main_loop lines w) = Ret tt ->
  last_tcsetpgrp (evs (main_loop lines w)) = Some g ->
  g = sys_getpgrp (os w).
Proof.
  intros Hr Hg. destruct (orderly_main_loop lines w tt Hr) as [_ Ht].
  unfold tty_home in Ht. rewrite Hg in Ht. exact Ht.
Qed.

(** X3.  The jobs table only grows, and the descriptor of the terminal is
    kept: when the evaluation of any number of lines comes back, the table
    has at least the slots it had, and [tty_fd] is what it was. *)
Theorem jobs_table_never_shrinks (lines : list (list token_t * nat))
    (w : world) :
  res (main_loop lines w) = Ret tt ->
  length (jobs w) <= length (jobs (st (main_loop lines w)))
  /\ tty_fd (st (main_loop lines w)) = tty_fd w.
Proof.
  intros Hr. destruct (orderly_main_loop lines w tt Hr) as [Hf _].
  split; apply Hf.
Qed.

Lemma initjobs_run (w : world) :
  sys_isatty_stdin (os w) = true ->
  initjobs w
  = Run (Ret tt)
        (World [zero_job] (sys_dup_stdin (os w)) (sigchld_blocked w)
               (children w) (wakeups w) (forks w) (pipes w) (os w) (arrivals w))
        [ESignal SIGCHLD (Handler "sigchld_handler");
         EFcntl (sys_dup_stdin (os w));
         ETcsetpgrp (sys_dup_stdin (os w)) (sys_getpgrp (os w))].
Proof.
  intros Htty. unfold initjobs, Signal, Tcsetpgrp, getpgrp, assert.
  run_step. run_step. run_step. cbn [os]. rewrite Htty. reflexivity.
Qed.

Lemma initjobs_needs_a_terminal (w : world) :
  sys_isatty_stdin (os w) = false ->
  res (initjobs w) = Halt (Aborted "isatty(STDIN_FILENO)").
Proof.
  intros Htty. unfold initjobs, Signal, Tcsetpgrp, getpgrp, assert.
  run_step. run_step. run_step. cbn [os]. rewrite Htty. reflexivity.
Qed.

Lemma orderly_main_body (lines : list (list token_t * nat)) :
  orderly true
    (Signal SIGINT (Handler "sigint_handler");;
     Signal SIGTSTP SIG_IGN;;
     Signal SIGTTIN SIG_IGN;;
     Signal SIGTTOU SIG_IGN;;
     main_loop lines;;
     msg "\n" [];;
     shutdownjobs;;
     ret 0%Z).
Proof.
  pose proof (orderly_main_loop lines). pose proof orderly_shutdownjobs.
  orderly_auto.
Qed.

(** X4.  A whole run of [main].  [main] returns only when standard input is
    a terminal, and then it returns 0; the last [tcsetpgrp] of the run gave
    the terminal to the process group of the shell; SIGCHLD is blocked or
    not as it was at the start; and [tty_fd] is the duplicate of standard
    input that [initjobs] made. *)
Theorem main_returns_zero_with_the_terminal
    (lines : list (list token_t * nat)) (w : world) (c : Z) :
  res (main lines w) = Ret c ->
  sys_isatty_stdin (os w) = true
  /\ c = 0%Z
  /\ last_tcsetpgrp (evs (main lines w)) = Some (sys_getpgrp (os w))
  /\ sigchld_blocked (st (main lines w)) = sigchld_blocked w
  /\ tty_fd (st (main lines w)) = sys_dup_stdin (os w).
Proof.
  unfold main. destruct (sys_isatty_stdin (os w)) eqn:Htty.
  2: { intros Hr. apply bind_ret_inv in Hr. destruct Hr as (a & Ha & _).
       rewrite (initjobs_needs_a_terminal w Htty) in Ha. discriminate Ha. }
  erewrite bind_run by (apply initjobs_run; exact Htty).
  set (w1 := World _ _ _ _ _ _ _ _ _). set (body := bind _ _).
  unfold prepend. cbn [res st evs]. intros Hr.
  destruct (orderly_main_body lines w1 c Hr) as [Hf Ht].
  fold body in Hf, Ht.
  split; [reflexivity|]. split.
  { subst body. clear Hf Ht.
    do 7 (apply bind_ret_inv in Hr; destruct Hr as (? & _ & Hr)).
    cbn in Hr. inversion Hr. reflexivity. }
  split.
  { unfold tty_home in Ht.
    rewrite (last_tcsetpgrp_app _ (evs (body w1))).
    destruct (last_tcsetpgrp (evs (body w1))) as [g|].
    - rewrite Ht. reflexivity.
    - reflexivity. }
  destruct Hf as (_ & _ & Hfd & Hm). split.
  - rewrite Hm by reflexivity. reflexivity.
  - rewrite Hfd. reflexivity.
Qed.

(** X5.  The terminal around a foreground job.  When [monitorjob] returns,
    the first thing it did was to give the terminal to the process group of
    the job in the foreground slot, the last thing it did was to give it
    back to the process group of the shell, and there is no [tcsetpgrp] in
    between. *)
Theorem monitorjob_brackets_the_terminal (mask : bool) (w : world) (c : Z)
    (fg_job : job_t) :
  jobs w !! 0 = Some fg_job ->
  res (monitorjob mask w) = Ret c ->
  exists mid,
    evs (monitorjob mask w)
    = ETcsetpgrp (tty_fd w) (job_pgid fg_job)
      :: mid ++ [ETcsetpgrp (tty_fd w) (sys_getpgrp (os w))]
    /\ Forall no_tc mid.
Proof.
  intros Hj.
  destruct (monitorjob mask w) as [r w' es] eqn:Em. cbn [res st evs].
  intros Er. subst r. revert Em.
  unfold monitorjob. change (Z.to_nat FG) with 0.
  erewrite bind_run by (apply jobslot_some; exact Hj). rewrite prepend_nil.
  unfold assert. destruct (negb (Z.eqb (job_pgid fg_job) 0)).
  2: { run_step. intros E; discriminate E. }
  run_step. run_step. unfold Tcsetpgrp at 1. run_step.
  destruct (calm_monitor_loop (S (length (wakeups w))) mask w) as [He Hf].
  destruct (monitor_loop (S (length (wakeups w))) mask w)
    as [[c1|h] w1 e1] eqn:El.
  2: { erewrite bind_halt by exact El. intros E; discriminate E. }
  cbn [res st evs] in He, Hf. specialize (Hf c1 eq_refl).
  erewrite bind_run by exact El. unfold getpgrp, Tcsetpgrp.
  run_step. cbn. intros E. inversion E; subst.
  exists e1. split; [|exact He].
  destruct Hf as (_ & Ho & _). rewrite Ho. reflexivity.
Qed.
End Prompt.

(** ** What the SIGCHLD handler leaves alone *)

Section HandlerFrame.
Context `{shell_h}.

Lemma kept_proc_refl (p : proc_t) : kept_proc p p.
Proof. repeat split; auto. Qed.

Lemma reap_proc_kept (proc : proc_t) :
  proc_state proc <> FINISHED ->
  spec any none (kept_proc proc) (reap_proc proc).
Proof.
  intros Hnf. unfold reap_proc.
  eapply spec_bind with (R1 := any).
  { intros w. unfold waitpid. run_step.
    destruct (take_change (proc_pid proc) (children w)) as [[s rest]|];
      cbn; split; try constructor; exact I. }
  intros [s|] _; [|apply spec_ret, kept_proc_refl].
  destruct (WIFEXITED s || WIFSIGNALED s).
  { apply spec_ret. repeat split; [contradiction | right; reflexivity]. }
  destruct (WIFCONTINUED s).
  { apply spec_ret. repeat split; [contradiction | left; reflexivity]. }
  destruct (WIFSTOPPED s).
  { apply spec_ret. repeat split; [contradiction | left; reflexivity]. }
  apply spec_ret, kept_proc_refl.
Qed.

Lemma reap_procs_kept (procs : list proc_t) :
  forall hr hs : bool,
    spec any none (fun r => Forall2 kept_proc procs (fst r))
         (reap_procs procs hr hs).
Proof.
  induction procs as [|proc rest IH]; intros hr hs; simpl.
  - apply spec_ret. constructor.
  - destruct (Z.eqb_spec (proc_state proc) FINISHED) as [Ef|Ef].
    + eapply spec_bind; [apply IH|]. intros r Hr.
      apply spec_ret. constructor; [apply kept_proc_refl | exact Hr].
    + eapply spec_bind; [apply reap_proc_kept; exact Ef|]. intros proc' Hp.
      cbv zeta. eapply spec_bind; [apply IH|]. intros r Hr.
      apply spec_ret. constructor; assumption.
Qed.

Lemma kept_job_refl (job : job_t) : kept_job job job.
Proof.
  repeat split; auto. apply Forall2_same_length_lookup_2; [reflexivity|].
  intros i p p' E E'. rewrite E in E'. inversion E'; subst.
  apply kept_proc_refl.
Qed.

Lemma reap_job_kept (job : job_t) :
  spec any none (kept_job job) (reap_job job).
Proof.
  unfold reap_job. destruct (Z.eqb_spec (job_pgid job) 0) as [E0|E0].
  - apply spec_ret, kept_job_refl.
  - eapply spec_bind; [apply reap_procs_kept|]. intros r Hr.
    apply spec_ret. repeat split; [exact Hr | contradiction].
Qed.

Lemma reap_jobs_kept (slots : list job_t) :
  spec any none (Forall2 kept_job slots) (reap_jobs slots).
Proof.
  induction slots as [|job rest IH]; simpl.
  - apply spec_ret. constructor.
  - eapply spec_bind; [apply reap_job_kept|]. intros job' Hj.
    eapply spec_bind; [apply IH|]. intros rest' Hr.
    apply spec_ret. constructor; assumption.
Qed.

(** X6.  What the SIGCHLD handler leaves alone.  Every run of the handler
    returns, prints nothing, and changes nothing but the jobs table and the
    list of state changes that [waitpid] has yet to report, of which it
    only takes some away.  In the table every slot keeps its process
    group and its command text, and its processes their pids; a free slot
    and a FINISHED process are left as they are; and the exit code of a
    process changes only when the process is FINISHED afterwards. *)
Theorem sigchld_handler_keeps_identities (w : world) :
  exists slots c,
    sigchld_handler w = Run (Ret tt) (with_jobs slots (with_children c w)) []
    /\ sublist c (children w)
    /\ Forall2 kept_job (jobs w) slots.
Proof.
  destruct (reap_jobs_kept (jobs w) w) as [_ Hr].
  destruct (reaps_only_reap_jobs (jobs w) w) as (He & c & Hs & Hc).
  destruct (reap_jobs (jobs w) w) as [[slots|h] w1 e1] eqn:E;
    cbn [res st evs] in *; [|contradiction].
  subst e1 w1. exists slots, c. split; [|split; assumption].
  unfold sigchld_handler. run_step.
  erewrite bind_run by exact E. reflexivity.
Qed.
End HandlerFrame.

(** ** Slots and processes of the jobs table *)

Lemma string_app_assoc (a b c : string) :
  ((a ++ b) ++ c = a ++ (b ++ c))%string.
Proof. induction a as [|x a IH]; simpl; [reflexivity | rewrite IH; reflexivity]. Qed.

Lemma string_app_nil (a : string) : (a ++ "")%string = a.
Proof. induction a as [|x a IH]; simpl; [reflexivity | rewrite IH; reflexivity]. Qed.

Lemma concat_empty_cons (a : string) (l : list string) :
  String.concat "" (a :: l) = (a ++ String.concat "" l)%string.
Proof.
  destruct l as [|b l]; simpl; [rewrite string_app_nil|]; reflexivity.
Qed.

Lemma concat_blank (s : string) (words : list string) :
  String.concat " " (s :: words)
  = (s ++ String.concat "" (map (fun x => " " ++ x) words))%string.
Proof.
  revert s. induction words as [|x words IH]; intros s.
  - simpl. rewrite string_app_nil. reflexivity.
  - change (String.concat " " (s :: x :: words))
      with (s ++ " " ++ String.concat " " (x :: words))%string.
    rewrite IH. cbn [map]. rewrite concat_empty_cons.
    rewrite string_app_assoc. reflexivity.
Qed.

Section Table.
Context `{shell_h}.

Lemma find_free_spec (slots : list job_t) :
  forall j0 : nat,
    match find_free j0 slots with
    | Some j =>
        j0 <= j
        /\ (exists job, slots !! (j - j0) = Some job /\ job_pgid job = 0%Z)
        /\ forall k job, k < j - j0 -> slots !! k = Some job ->
                         job_pgid job <> 0%Z
    | None => Forall (fun job => job_pgid job <> 0%Z) slots
    end.
Proof.
  induction slots as [|job rest IH]; intros j0; simpl; [constructor|].
  destruct (Z.eqb_spec (job_pgid job) 0) as [E0|E0].
  - split; [lia|]. rewrite Nat.sub_diag. split.
    + exists job. split; [reflexivity | exact E0].
    + intros k job' Hk. lia.
  - specialize (IH (S j0)). destruct (find_free (S j0) rest) as [j|].
    + destruct IH as (Hle & (job' & Hj & Hp) & Hlow). split; [lia|]. split.
      * exists job'. replace (j - j0) with (S (j - S j0)) by lia.
        split; [exact Hj | exact Hp].
      * intros k job'' Hk Hl. destruct k as [|k].
        -- simpl in Hl. inversion Hl; subst. exact E0.
        -- simpl in Hl. apply (Hlow k); [lia | exact Hl].
    + constructor; assumption.
Qed.

(** The run of [allocjob]. *)
Lemma allocjob_run (w : world) :
  1 <= length (jobs w) ->
  exists j : nat,
    res (allocjob w) = Ret (Z.of_nat j)
    /\ evs (allocjob w) = []
    /\ 1 <= j
    /\ (forall k job, 1 <= k < j -> jobs w !! k = Some job ->
                      job_pgid job <> 0%Z)
    /\ ((exists job, jobs w !! j = Some job /\ job_pgid job = 0%Z
                     /\ st (allocjob w) = w)
        \/ (j = length (jobs w)
            /\ st (allocjob w) = with_jobs (jobs w ++ [zero_job]) w)).
Proof.
  intros Hlen. unfold allocjob. run_step. change (Z.to_nat BG) with 1.
  pose proof (find_free_spec (drop 1 (jobs w)) 1) as Hf.
  destruct (find_free 1 (drop 1 (jobs w))) as [j|].
  - destruct Hf as (Hle & (job & Hj & Hp) & Hlow).
    rewrite lookup_drop in Hj. replace (1 + (j - 1)) with j in Hj by lia.
    exists j. cbn [res st evs ret]. repeat split; try lia.
    + intros k job' Hk Hl. apply (Hlow (k - 1)); [lia|].
      rewrite lookup_drop. replace (1 + (k - 1)) with k by lia. exact Hl.
    + left. exists job. repeat split; assumption.
  - exists (length (jobs w)). run_step. cbn [res st evs ret].
    repeat split; try (unfold njobmax; reflexivity); try lia.
    + intros k job Hk Hl.
      eapply Forall_lookup_1 in Hf; [exact Hf|].
      rewrite lookup_drop. replace (1 + (k - 1)) with k by lia. exact Hl.
    + right. split; reflexivity.
Qed.

(** X7.  [allocjob] gives the lowest free background slot.  On a table
    with the foreground slot, it returns a number [j] of at least 1 and
    prints nothing; every background slot below [j] is occupied; and
    either slot [j] is free and nothing has changed, or [j] is past the
    table, which has been extended by one slot. *)
Theorem allocjob_gives_the_lowest_free_slot (w : world) :
  1 <= length (jobs w) ->
  exists j : nat,
    res (allocjob w) = Ret (Z.of_nat j)
    /\ evs (allocjob w) = []
    /\ 1 <= j
    /\ (forall k job, 1 <= k < j -> jobs w !! k = Some job ->
                      job_pgid job <> 0%Z)
    /\ ((exists job, jobs w !! j = Some job /\ job_pgid job = 0%Z
                     /\ st (allocjob w) = w)
        \/ (j = length (jobs w)
            /\ st (allocjob w) = with_jobs (jobs w ++ [zero_job]) w)).
Proof. exact (allocjob_run w). Qed.

(** The run of [addjob]. *)
Lemma addjob_run (pgid bg : Z) (w : world) :
  1 <= length (jobs w) ->
  exists (j : nat) (slots : list job_t),
    addjob pgid bg w = Run (Ret (Z.of_nat j)) (with_jobs slots w) []
    /\ (if Z.eqb bg 0 then j = 0
        else 1 <= j
             /\ ((exists free, jobs w !! j = Some free
                               /\ job_pgid free = 0%Z)
                 \/ j = length (jobs w)))
    /\ (forall k job, 1 <= k < j -> jobs w !! k = Some job ->
                      job_pgid job <> 0%Z)
    /\ slots !! j = Some (Job pgid [] RUNNING None)
    /\ (forall k, k <> j -> slots !! k = jobs w !! k)
    /\ length (jobs w) <= length slots <= S (length (jobs w)).
Proof.
  intros Hlen. unfold addjob. destruct (Z.eqb bg 0).
  - exists 0, (<[0 := Job pgid [] RUNNING None]> (jobs w)).
    split; [reflexivity|].
    split; [reflexivity|]. split; [intros k job Hk; lia|].
    split; [apply list_lookup_insert_eq; lia|].
    split; [intros k Hk; apply list_lookup_insert_ne; lia|].
    rewrite length_insert. lia.
  - destruct (allocjob_run w Hlen) as (j & Hr & He & Hj & Hlow & Hst).
    destruct (allocjob w) as [r w1 e1] eqn:Ea. cbn [res st evs] in *.
    subst r e1. erewrite bind_run by exact Ea. rewrite prepend_nil.
    rewrite Nat2Z.id.
    exists j, (<[j := Job pgid [] RUNNING None]> (jobs w1)).
    destruct Hst as [(job & Hl & Hp & ->)|[-> ->]].
    + split; [reflexivity|].
      split; [split; [exact Hj | left; exists job; split; assumption]|].
      split; [exact Hlow|].
      apply lookup_lt_Some in Hl as Hlt.
      split; [apply list_lookup_insert_eq; exact Hlt|].
      split; [intros k Hk; apply list_lookup_insert_ne; lia|].
      rewrite length_insert. lia.
    + split; [reflexivity|].
      split; [split; [exact Hj | right; reflexivity]|].
      split; [exact Hlow|].
      cbn [jobs with_jobs]. split.
      { apply list_lookup_insert_eq. rewrite length_app. simpl. lia. }
      split.
      { intros k Hk. rewrite list_lookup_insert_ne by lia.
        destruct (decide (k < length (jobs w))) as [Hlt|Hge].
        - apply lookup_app_l. exact Hlt.
        - rewrite !lookup_ge_None_2; [reflexivity | lia |].
          rewrite length_app. simpl. lia. }
      rewrite length_insert, length_app. simpl. lia.
Qed.

(** X8.  [addjob] initialises one slot.  On a table with the foreground
    slot, [addjob] prints nothing and returns the number [j] of a slot
    that now holds a RUNNING job of the given process group with no
    process and no command text.  For a foreground job [j] is 0, whatever
    slot 0 held.  For a background job [j] is at least 1, every
    background slot below [j] was occupied, and slot [j] was free or is a
    new slot at the end of the table.  Every other slot is as it was, the
    table has grown by one slot at most, and nothing else of the state of
    the shell has changed. *)
Theorem addjob_initialises_one_slot (pgid bg : Z) (w : world) :
  1 <= length (jobs w) ->
  exists (j : nat) (slots : list job_t),
    addjob pgid bg w = Run (Ret (Z.of_nat j)) (with_jobs slots w) []
    /\ (if Z.eqb bg 0 then j = 0
        else 1 <= j
             /\ ((exists free, jobs w !! j = Some free
                               /\ job_pgid free = 0%Z)
                 \/ j = length (jobs w)))
    /\ (forall k job, 1 <= k < j -> jobs w !! k = Some job ->
                      job_pgid job <> 0%Z)
    /\ slots !! j = Some (Job pgid [] RUNNING None)
    /\ (forall k, k <> j -> slots !! k = jobs w !! k)
    /\ length (jobs w) <= length slots <= S (length (jobs w)).
Proof. exact (addjob_run pgid bg w). Qed.

Lemma mkcommand_args_run (words : list string) :
  forall (cmd : string) (rest : list token_t) (w : world),
    mkcommand_args (Some cmd) (map T_STR words ++ T_NULL :: rest) w
    = Run (Ret (Some (cmd ++ String.concat ""
                                (map (fun x => " " ++ x) words))%string))
          w [].
Proof.
  induction words as [|x words IH]; intros cmd rest w.
  - simpl. rewrite string_app_nil. reflexivity.
  - cbn [map app mkcommand_args strapp]. rewrite IH.
    rewrite concat_empty_cons, !string_app_assoc. reflexivity.
Qed.

Lemma mkcommand_run (old : option string) (s : string)
    (words : list string) (rest : list token_t) (w : world) :
  mkcommand old (map T_STR (s :: words) ++ T_NULL :: rest) w
  = Run (Ret (Some (command_text old (s :: words)))) w [].
Proof.
  unfold mkcommand, command_text. cbn [map app].
  rewrite concat_blank. destruct old as [c|]; cbn [strapp].
  - rewrite mkcommand_args_run. rewrite !string_app_assoc. reflexivity.
  - rewrite mkcommand_args_run. reflexivity.
Qed.

Lemma addproc_run (j : nat) (pid : Z) (s : string)
    (words : list string) (rest : list token_t) (job : job_t) (w : world) :
  jobs w !! j = Some job ->
  addproc (Z.of_nat j) pid (map T_STR (s :: words) ++ T_NULL :: rest) w
  = Run (Ret tt)
        (with_jobs
           (<[j := Job (job_pgid job)
                       (job_proc job ++ [Proc pid RUNNING (-1)])
                       (job_state job)
                       (Some (command_text (job_command job) (s :: words)))]>
              (jobs w)) w)
        [].
Proof.
  intros Hj. unfold addproc. run_step. unfold assert, njobmax.
  apply lookup_lt_Some in Hj as Hlt.
  destruct (Z.ltb_spec (Z.of_nat j) (Z.of_nat (length (jobs w)))) as [_|Hge];
    [|lia].
  run_step. rewrite Nat2Z.id.
  erewrite bind_run by (apply jobslot_some; exact Hj). rewrite prepend_nil.
  cbv zeta. erewrite bind_run by apply mkcommand_run. rewrite prepend_nil.
  unfold set_jobslot. run_step. reflexivity.
Qed.

(** X9.  [addproc] appends one process and one stage of command text.  For
    an argument vector of words ended by the null pointer and a slot [j] of
    the table, [addproc] prints nothing and changes slot [j] only: the
    process group and the state of the job stay, a RUNNING process with
    the given pid and exit code -1 is put after the processes the job had,
    and the command text is the earlier text, a bar between stages, and
    the words of the vector with a blank between them. *)
Theorem addproc_appends_a_running_process (j : nat) (pid : Z) (s : string)
    (words : list string) (rest : list token_t) (job : job_t) (w : world) :
  jobs w !! j = Some job ->
  addproc (Z.of_nat j) pid (map T_STR (s :: words) ++ T_NULL :: rest) w
  = Run (Ret tt)
        (with_jobs
           (<[j := Job (job_pgid job)
                       (job_proc job ++ [Proc pid RUNNING (-1)])
                       (job_state job)
                       (Some (command_text (job_command job) (s :: words)))]>
              (jobs w)) w)
        [].
Proof. exact (addproc_run j pid s words rest job w). Qed.

(** X10.  [jobstate] looks at the state of slot 0 and deletes slot 0.  For a
    slot [j] of the table, [jobstate] prints nothing and returns the state
    of slot [j].  When the job in slot 0 is not FINISHED, nothing changes
    and the status is the one passed in; when it is FINISHED, the status is
    the exit code of the last process of slot [j], and the slot that is
    freed is slot 0: process group 0, no process, no command text. *)
Theorem jobstate_tests_and_frees_slot_zero (j : nat) (status : Z)
    (job fg_job : job_t) (w : world) :
  jobs w !! j = Some job ->
  jobs w !! 0 = Some fg_job ->
  (job_state fg_job <> FINISHED ->
   jobstate (Z.of_nat j) status w = Run (Ret (job_state job, status)) w [])
  /\ (job_state fg_job = FINISHED ->
      forall proc, last (job_proc job) = Some proc ->
        jobstate (Z.of_nat j) status w
        = Run (Ret (job_state job, proc_exitcode proc))
              (with_jobs (<[0 := Job 0 [] FINISHED None]> (jobs w)) w) []).
Proof.
  intros Hj H0. apply lookup_lt_Some in Hj as Hlt.
  assert (jobstate (Z.of_nat j) status w
          = (if Z.eqb (job_state fg_job) FINISHED then
               status' <- exitcode job;;
               fg_job' <- deljob fg_job;;
               set_jobslot 0 fg_job';;
               ret (job_state job, status')
             else ret (job_state job, status)) w) as Hrun.
  { unfold jobstate. run_step. unfold assert, njobmax.
    destruct (Z.ltb_spec (Z.of_nat j) (Z.of_nat (length (jobs w))))
      as [_|Hge]; [|lia].
    run_step. rewrite Nat2Z.id.
    erewrite bind_run by (apply jobslot_some; exact Hj). rewrite prepend_nil.
    cbv zeta.
    erewrite bind_run by (apply jobslot_some; exact H0). rewrite prepend_nil.
    reflexivity. }
  split.
  - intros Hnf. rewrite Hrun.
    destruct (Z.eqb_spec (job_state fg_job) FINISHED); [contradiction|].
    reflexivity.
  - intros Hf proc Hlast. rewrite Hrun. rewrite Hf, Z.eqb_refl.
    unfold exitcode. rewrite Hlast. run_step.
    unfold deljob, assert. rewrite Hf, Z.eqb_refl. reflexivity.
Qed.
End Table.

(** ** The clean-up of finished background jobs *)

Lemma with_jobs_same (w : world) : with_jobs (jobs w) w = w.
Proof. destruct w; reflexivity. Qed.

Section Sweep.
Context `{shell_h}.

Lemma sweep_from_end (slots : list job_t) :
  sweep_from (length slots) slots = slots.
Proof.
  unfold sweep_from. rewrite firstn_all, drop_all. apply app_nil_r.
Qed.

Lemma sweep_from_step (j : nat) (slots : list job_t) (job : job_t) :
  slots !! j = Some job ->
  sweep_from j slots = sweep_from (S j) (<[j := sweep_slot job]> slots).
Proof.
  intros Hj. unfold sweep_from. apply lookup_lt_Some in Hj as Hlt.
  rewrite (drop_S _ _ _ Hj). cbn [map].
  rewrite drop_insert_lt by lia.
  erewrite take_S_r by (apply list_lookup_insert_eq; exact Hlt).
  rewrite take_insert_ge by lia. rewrite <- app_assoc. reflexivity.
Qed.

Lemma sweep_from_skip (j : nat) (slots : list job_t) (job : job_t) :
  slots !! j = Some job -> sweep_slot job = job ->
  sweep_from j slots = sweep_from (S j) slots.
Proof.
  intros Hj Hs. rewrite (sweep_from_step j slots job Hj), Hs.
  rewrite list_insert_id by exact Hj. reflexivity.
Qed.

(** The loop of [watchjobs] from slot [j] on: when it runs to its end it
    has cleaned up the slots from [j] on; it stops before only at an
    occupied FINISHED slot that has no process to take the exit code
    from. *)
Lemma watchjobs_from_sweeps (which : Z) (k : nat) :
  which = ALL \/ which = FINISHED ->
  forall (j : nat) (w : world),
    j + k = length (jobs w) ->
    match res (watchjobs_from which k j w) with
    | Ret _ =>
        st (watchjobs_from which k j w) = with_jobs (sweep_from j (jobs w)) w
    | Halt _ =>
        exists x job, j <= x /\ jobs w !! x = Some job
                      /\ job_pgid job <> 0%Z /\ job_state job = FINISHED
                      /\ job_proc job = []
    end.
Proof.
  intros Hwhich. induction k as [|k IH]; intros j w Hk.
  { cbn [watchjobs_from ret res st].
    replace j with (length (jobs w)) by lia.
    rewrite sweep_from_end, with_jobs_same. reflexivity. }
  destruct (lookup_lt_is_Some_2 (jobs w) j) as [job Hj]; [lia|].
  cbn [watchjobs_from].
  erewrite bind_run by (apply jobslot_some; exact Hj). rewrite prepend_nil.
  destruct (Z.eqb_spec (job_pgid job) 0) as [E0|E0].
  { run_step. specialize (IH (S j) w ltac:(lia)).
    destruct (res (watchjobs_from which k (S j) w)).
    - rewrite IH.
      rewrite (sweep_from_skip j (jobs w) job Hj); [reflexivity|].
      unfold sweep_slot. rewrite E0. reflexivity.
    - destruct IH as (x & job' & Hx & Hrest).
      exists x, job'. split; [lia | exact Hrest]. }
  destruct (Z.eqb_spec (job_state job) FINISHED) as [Ef|Ef].
  - assert (Z.eqb which ALL || Z.eqb (job_state job) which = true) as Hc.
    { rewrite Ef. destruct Hwhich as [-> | ->]; rewrite Z.eqb_refl;
        [reflexivity | apply orb_true_r]. }
    destruct (last (job_proc job)) as [proc|] eqn:Hlast.
    2: { assert (watchjob which j job w
                 = Run (Halt (Undefined "proc[-1]")) w
                       [EMsg "[%d] " [AInt (Z.of_nat j)]]) as Hm.
         { unfold watchjob. rewrite Hc, Ef, Z.eqb_refl. unfold exitcode.
           rewrite Hlast. reflexivity. }
         erewrite bind_halt by exact Hm. cbn [res].
         exists j, job. repeat split; try assumption; try lia.
         destruct (job_proc job) as [|p ps] eqn:Ep; [reflexivity|].
         rewrite last_cons in Hlast.
         destruct (last ps); discriminate Hlast. }
    set (w1 := with_jobs (<[j := Job 0 [] FINISHED None]> (jobs w)) w).
    assert (sweep_slot job = Job 0 [] FINISHED None) as Hsw.
    { unfold sweep_slot. rewrite Ef, Z.eqb_refl.
      destruct (Z.eqb_spec (job_pgid job) 0); [contradiction|]. reflexivity. }
    specialize (IH (S j) w1).
    assert (watchjob which j job w
            = Run (Ret tt) w1
                  [EMsg "[%d] " [AInt (Z.of_nat j)];
                   EMsg "exited, status=%d (%s)\n"
                        [AInt (proc_exitcode proc); AStr (job_command job)]])
      as Hm.
    { unfold watchjob. rewrite Hc, Ef, Z.eqb_refl. unfold exitcode.
      rewrite Hlast. unfold deljob, assert. rewrite Ef, Z.eqb_refl.
      reflexivity. }
    erewrite bind_run by exact Hm. unfold prepend. cbn [res st evs].
    destruct (res (watchjobs_from which k (S j) w1)).
    + rewrite IH by (subst w1; cbn [jobs with_jobs];
                     rewrite length_insert; lia).
      subst w1. cbn [jobs with_jobs].
      rewrite (sweep_from_step j (jobs w) job Hj), Hsw. reflexivity.
    + destruct IH as (x & job' & Hx & Hl & Hrest).
      { subst w1. cbn [jobs with_jobs]. rewrite length_insert. lia. }
      exists x, job'. split; [lia|]. split; [|exact Hrest].
      subst w1. cbn [jobs with_jobs] in Hl.
      rewrite list_lookup_insert_ne in Hl by lia. exact Hl.
  - destruct (watchjob_unfinished which j job w Ef) as [es1 Hes1].
    erewrite bind_run by exact Hes1. unfold prepend. cbn [res st evs].
    specialize (IH (S j) w ltac:(lia)).
    destruct (res (watchjobs_from which k (S j) w)).
    + rewrite IH. rewrite (sweep_from_skip j (jobs w) job Hj); [reflexivity|].
      unfold sweep_slot.
      destruct (Z.eqb_spec (job_state job) FINISHED); [contradiction|].
      rewrite andb_false_r. reflexivity.
    + destruct IH as (x & job' & Hx & Hrest).
      exists x, job'. split; [lia | exact Hrest].
Qed.

Lemma watchjobs_sweeps (which : Z) (w : world) :
  which = ALL \/ which = FINISHED ->
  1 <= length (jobs w) ->
  match res (watchjobs which w) with
  | Ret _ => st (watchjobs which w) = with_jobs (swept (jobs w)) w
  | Halt _ =>
      exists x job, 1 <= x /\ jobs w !! x = Some job
                    /\ job_pgid job <> 0%Z /\ job_state job = FINISHED
                    /\ job_proc job = []
  end.
Proof.
  intros Hwhich Hlen. unfold watchjobs. run_step.
  change (Z.to_nat BG) with 1. unfold njobmax.
  apply (watchjobs_from_sweeps which _ Hwhich 1 w). lia.
Qed.

Lemma swept_no_finished_background (slots : list job_t) :
  no_finished_background (swept slots).
Proof.
  intros j job' Hj Hl Hp Hs. unfold swept, sweep_from in Hl.
  destruct (decide (length slots <= 1)) as [Hshort|Hlong].
  { apply lookup_lt_Some in Hl.
    rewrite length_app, length_take, length_map, length_drop in Hl. lia. }
  rewrite lookup_app_r in Hl by (rewrite length_take; lia).
  rewrite length_take in Hl. rewrite list_lookup_fmap in Hl.
  destruct (drop 1 slots !! (j - 1 `min` length slots)) as [job|];
    [|discriminate Hl].
  cbn in Hl. inversion Hl; subst job'. clear Hl.
  unfold sweep_slot in Hp, Hs.
  destruct (Z.eqb_spec (job_pgid job) 0) as [E0|E0];
    destruct (Z.eqb_spec (job_state job) FINISHED) as [Ef|Ef];
    cbn [negb andb] in Hp, Hs; contradiction.
Qed.

Lemma swept_foreground (slots : list job_t) : swept slots !! 0 = slots !! 0.
Proof.
  unfold swept, sweep_from. destruct slots as [|job rest]; reflexivity.
Qed.

(** X11.  The clean-up of [watchjobs].  Called with ALL, as by [jobs], or
    with FINISHED, as before every prompt, on a table whose occupied
    FINISHED background slots all have a process, [watchjobs] returns and
    changes the table only: every occupied FINISHED background slot has
    been freed (process group 0, no process, no command text), every
    other slot and the foreground slot are as they were, and so
    afterwards no occupied background slot is FINISHED. *)
Theorem watchjobs_frees_finished_jobs (which : Z) (w : world) :
  which = ALL \/ which = FINISHED ->
  1 <= length (jobs w) ->
  (forall x job, 1 <= x -> jobs w !! x = Some job -> job_pgid job <> 0%Z ->
                 job_state job = FINISHED -> job_proc job <> []) ->
  res (watchjobs which w) = Ret tt
  /\ st (watchjobs which w) = with_jobs (swept (jobs w)) w
  /\ swept (jobs w) !! 0 = jobs w !! 0
  /\ no_finished_background (swept (jobs w)).
Proof.
  intros Hwhich Hlen Hprocs.
  pose proof (watchjobs_sweeps which w Hwhich Hlen) as Hs.
  destruct (res (watchjobs which w)) as [[]|h].
  - split; [reflexivity|]. split; [exact Hs|].
    split; [apply swept_foreground | apply swept_no_finished_background].
  - destruct Hs as (x & job & Hx & Hl & Hp & Hf & He).
    contradiction (Hprocs x job Hx Hl Hp Hf He).
Qed.

Lemma main_turn_table (line : list token_t * nat) (w : world) :
  res (main_turn line w) = Ret tt ->
  1 <= length (jobs w) ->
  no_finished_background (jobs (st (main_turn line w))).
Proof.
  unfold main_turn. intros Hr Hlen.
  destruct (eval (fst line) (snd line) w) as [[[]|h] w1 e1] eqn:Ee.
  2: { erewrite bind_halt in Hr by exact Ee. discriminate Hr. }
  erewrite bind_run in Hr |- * by exact Ee.
  unfold prepend in Hr |- *. cbn [res st evs] in Hr |- *.
  assert (1 <= length (jobs w1)) as Hlen1.
  { pose proof (orderly_eval (fst line) (snd line) w tt) as Ho.
    rewrite Ee in Ho. destruct (Ho eq_refl) as [(Hl & _) _].
    cbn [st] in Hl. lia. }
  pose proof (watchjobs_sweeps FINISHED w1 (or_intror eq_refl) Hlen1) as Hs.
  rewrite Hr in Hs. rewrite Hs. apply swept_no_finished_background.
Qed.

(** A prompt at which no SIGCHLD arrives. *)
Lemma readline_quiet (w : world) :
  hd 0 (arrivals w) = 0 ->
  readline w
  = Run (Ret tt)
        (World (jobs w) (tty_fd w) (sigchld_blocked w) (children w)
               (wakeups w) (forks w) (pipes w) (os w) (tail (arrivals w)))
        [].
Proof.
  intros Hq. unfold readline. run_step.
  destruct w as [js tty blocked ch wk fk pp o arr].
  cbn [arrivals] in *. destruct arr as [|k later]; [reflexivity|].
  cbn [hd] in Hq. subst k. run_step. cbn [sigchld_blocked tail].
  destruct blocked; reflexivity.
Qed.

(** A prompt at which one SIGCHLD arrives: its news become visible to
    [waitpid] and the handler runs. *)
Lemma readline_delivers (w : world) (later : list nat)
    (news : list (Z * wstatus)) (coming : list (list (Z * wstatus))) :
  arrivals w = 1 :: later ->
  sigchld_blocked w = false ->
  wakeups w = news :: coming ->
  readline w
  = sigchld_handler
      (World (jobs w) (tty_fd w) false (children w ++ news) coming
             (forks w) (pipes w) (os w) later).
Proof.
  intros Ha Hb Hw. unfold readline. run_step.
  destruct w as [js tty blocked ch wk fk pp o arr].
  cbn [arrivals sigchld_blocked wakeups] in *. subst arr blocked wk.
  run_step. cbn [sigchld_arrives]. run_step. cbn [wakeups].
  run_step. run_step. cbn [children jobs tty_fd forks pipes os].
  destruct (sigchld_handler _) as [[[]|h] w1 e1] eqn:E.
  - erewrite bind_run by exact E. unfold prepend, ret. cbn.
    rewrite app_nil_r. reflexivity.
  - erewrite bind_halt by exact E. reflexivity.
Qed.

(** X12.  What [jobs] prints after a prompt.  When a turn of the loop of
    [main] has come back, no occupied background slot is FINISHED.  The
    shell then waits at the prompt, where a SIGCHLD may arrive and the
    handler change the table.  When none arrives there, [readline] returns
    with the table as it was, and the built-in [jobs] called next returns
    0 and changes nothing: called twice, with nothing in between, it
    prints the same. *)
Theorem jobs_after_a_turn_changes_nothing (line : list token_t * nat)
    (argv : list token_t) (w : world) :
  1 <= length (jobs w) ->
  res (main_turn line w) = Ret tt ->
  hd 0 (arrivals (st (main_turn line w))) = 0 ->
  let w1 := st (readline (st (main_turn line w))) in
  no_finished_background (jobs (st (main_turn line w)))
  /\ res (readline (st (main_turn line w))) = Ret tt
  /\ jobs w1 = jobs (st (main_turn line w))
  /\ exists es, do_jobs argv w1 = Run (Ret 0%Z) w1 es.
Proof.
  intros Hlen Hr Hq w1. pose proof (main_turn_table line w Hr Hlen) as Hno.
  subst w1. rewrite (readline_quiet _ Hq). cbn [res st jobs].
  split; [exact Hno|]. split; [reflexivity|]. split; [reflexivity|].
  apply do_jobs_keeps. exact Hno.
Qed.
End Sweep.

(** ** The code at work *)

Section Runs.
#[local] Existing Instance header.

(** C1.  The pipeline [true | false] in the foreground: the last stage
    exits with 1, the table records it, and [do_pipeline] returns 0 (its
    [exitcode] is never assigned), whereas [do_job] returns what
    [monitorjob] gives it. *)
Theorem pipeline_exit_code_is_dropped :
  let w := fresh [101; 102]%Z [(4, 5); (6, 7)]%Z
                 [[(101%Z, exited 0); (102%Z, exited 1)]] in
  let r := do_pipeline (fst line_true_false) (snd line_true_false) false w in
  res r = Ret 0%Z
  /\ (exists job, jobs (st r) !! 0 = Some job
                  /\ job_state job = FINISHED
                  /\ res (exitcode job (st r)) = Ret 1%Z)
  /\ res (do_job [T_STR "false"; T_NULL] 1 false
                 (fresh [102%Z] [] [[(102%Z, exited 1)]])) = Ret 1%Z.
Proof.
  cbv zeta. split; [vm_compute; reflexivity|]. split.
  - eexists. split; [vm_compute; reflexivity|].
    split; vm_compute; reflexivity.
  - vm_compute. reflexivity.
Qed.

(** C2.  The command [true] in the foreground: [monitorjob] sees the job
    FINISHED and returns its exit code, yet after the turn of the main
    loop slot 0 still holds the job; and at end of input [shutdownjobs]
    waits on that slot for a signal that nothing will send. *)
Theorem finished_foreground_job_is_not_deleted :
  let w := fresh [100%Z] [] [[(100%Z, exited 0)]] in
  let r := main_turn line_true w in
  res r = Ret tt
  /\ jobs (st r)
     = [Job 100 [Proc 100 FINISHED 0] FINISHED (Some "true")]
  /\ res (main [line_true] (boot [100%Z] [] [[(100%Z, exited 0)]]))
     = Halt Suspended.
Proof.
  cbv zeta. split; [vm_compute; reflexivity|].
  split; vm_compute; reflexivity.
Qed.

(** C3 fails on the code: for [cat < nosuch] the open fails, yet a child
    is forked (and monitored as usual) and nothing is printed. *)
Lemma open_failure_forks_anyway :
  let r := do_job (fst line_cat_nosuch) (snd line_cat_nosuch) false
                  (fresh [100%Z] [] [[(100%Z, exited 0)]]) in
  evs r = [EOpen "nosuch" O_RDONLY (-1); EFork 100; ESetpgid 100 100;
           ETcsetpgrp 10 100; ETcsetpgrp 10 50]
  /\ In (EFork 100) (evs r)
  /\ ~ (exists fmt args, In (EMsg fmt args) (evs r)).
Proof.
  cbv zeta. split; [vm_compute; reflexivity|].
  split; [vm_compute; right; left; reflexivity|].
  intros (fmt & args & Hin). vm_compute in Hin.
  repeat (destruct Hin as [Hin|Hin]; [discriminate Hin|]). exact Hin.
Qed.

(** C4 fails on the code: after the line [cat >] the loop of [main] is
    over, the line [true] that follows is never evaluated. *)
Lemma malformed_redirection_ends_the_shell :
  main_loop [line_cat_gt; line_true] (fresh [100%Z] [] [[(100%Z, exited 0)]])
  = Run (Halt (Aborted "i+1 != ntokens && string_p(token[i+1])"))
        (fresh [100%Z] [] [[(100%Z, exited 0)]]) [].
Proof. vm_compute. reflexivity. Qed.

(** C5 fails on the code: [fg 7] with no such slot prints the message and
    returns 0. *)
Lemma fg_not_found_returns_zero :
  ~ (exists c, res (do_fg [T_STR "7"; T_NULL] (fresh [] [] [])) = Ret c
               /\ c <> 0%Z).
Proof. intros (c & E & Hc). vm_compute in E. inversion E. congruence. Qed.

(** C6 fails on the code: [kill 7] prints nothing. *)
Lemma bare_kill_prints_nothing :
  ~ (exists fmt args,
       In (EMsg fmt args)
          (evs (builtin_command (fst line_kill_7) (fresh [] [] [])))).
Proof. intros (fmt & args & Hin). vm_compute in Hin. exact Hin. Qed.


(** C9 fails on the code: with a finished job in the table the first
    [jobs] reports it and deletes it, the second prints nothing. *)
Lemma jobs_twice_differs :
  let first := do_jobs [T_NULL] one_finished in
  let second := do_jobs [T_NULL] (st first) in
  evs first
  = [EMsg "[%d] " [AInt 1];
     EMsg "exited, status=%d (%s)\n" [AInt 0; AStr (Some "sleep 1")]]
  /\ evs second = []
  /\ evs second <> evs first.
Proof.
  cbv zeta. split; [vm_compute; reflexivity|].
  split; [vm_compute; reflexivity|].
  vm_compute. intros E. discriminate E.
Qed.
End Runs.

(** ** The theorems at work on the sample situations *)

Section Witnesses.
#[local] Existing Instance header.

Lemma malformed_redirection_aborts_witness :
  res (do_job (fst line_cat_gt) (snd line_cat_gt) false (fresh [] [] []))
  = Halt (Aborted redir_assertion).
Proof.
  refine (proj1 (proj2 (@malformed_redirection_aborts header
                          (fst line_cat_gt) (snd line_cat_gt) 1
                          (fresh [] [] []) _ _ _ _ _)) false).
  - vm_compute. lia.
  - vm_compute. lia.
  - intros x Hx. destruct x as [|x]; [reflexivity | lia].
  - reflexivity.
  - left. reflexivity.
Defined.

Lemma resume_not_found_returns_zero_witness :
  do_fg [T_STR "7"; T_NULL] (fresh [] [] [])
  = Run (Ret 0%Z) (fresh [] [] [])
        [EMsg "fg: job not found: %s\n" [AStr (Some "7")]]
  /\ do_bg [T_STR "7"; T_NULL] (fresh [] [] [])
  = Run (Ret 0%Z) (fresh [] [] [])
        [EMsg "bg: job not found: %s\n" [AStr (Some "7")]].
Proof.
  refine (@resume_not_found_returns_zero header (fresh [] [] [])
            [T_STR "7"; T_NULL] (Some "7") _ _).
  - reflexivity.
  - left. vm_compute. discriminate.
Defined.

Lemma kill_without_percent_witness :
  do_kill [T_STR "7"; T_NULL] (fresh [100%Z] [] [])
  = Run (Ret (-1)%Z) (fresh [100%Z] [] []) []
  /\ exists post,
       evs (do_job (fst line_kill_7) (snd line_kill_7) false
                   (fresh [100%Z] [] []))
       = evs (do_redir (fst line_kill_7) (snd line_kill_7) (-1) (-1)
                       (fresh [100%Z] [] []))
         ++ EFork 100 :: post.
Proof.
  assert (forall rest, "7" <> String "%" rest) as Harg
    by (intros rest E; discriminate E).
  split.
  - exact (proj1 (@kill_without_percent header (fresh [100%Z] [] [])
                    [T_STR "7"; T_NULL] Harg)).
  - refine (proj2 (proj2 (@kill_without_percent header (fresh [100%Z] [] [])
                            [T_STR "7"; T_NULL] Harg))
                  (fst line_kill_7) (snd line_kill_7) false 2 (-1, -1)%Z
                  100%Z [] _ _).
    + vm_compute. reflexivity.
    + reflexivity.
Defined.


Lemma sigchld_handler_derives_witness :
  res (sigchld_handler one_exiting) = Ret tt
  /\ job_state (Job 100 [Proc 100 0 3] 0 (Some "sh"))
     = derive (job_proc (Job 100 [Proc 100 0 3] 0 (Some "sh"))).
Proof.
  refine (@sigchld_handler_derives header one_exiting 0
            (Job 100 [Proc 100 0 3] 0 (Some "sh")) _ _).
  - vm_compute. reflexivity.
  - intros E. discriminate E.
Defined.

Lemma jobs_twice_same_output_witness :
  res (do_jobs [T_NULL] one_running) = Ret 0%Z
  /\ res (do_jobs [T_NULL] (st (do_jobs [T_NULL] one_running))) = Ret 0%Z
  /\ evs (do_jobs [T_NULL] (st (do_jobs [T_NULL] one_running)))
     = evs (do_jobs [T_NULL] one_running).
Proof.
  refine (@jobs_twice_same_output header [T_NULL] [T_NULL] one_running _).
  intros j job Hj Hl _.
  destruct j as [|[|j]]; [lia | | discriminate Hl].
  inversion Hl. intros E. discriminate E.
Defined.

Lemma deleted_slot_is_not_found_witness :
  exists freed : job_t,
    deljob (Job 100 [Proc 100 0 0] 0 (Some "sleep 1")) one_finished
    = Run (Ret freed) one_finished []
    /\ job_pgid freed = 0%Z /\ job_proc freed = [] /\ job_nproc freed = 0%Z
    /\ job_command freed = None /\ job_state freed = FINISHED
    /\ forall w' : world, jobs w' !! 1 = Some freed ->
         do_fg [T_STR "1"; T_NULL] w' =
           Run (Ret 0%Z) w' [EMsg "fg: job not found: %s\n" [AStr (Some "1")]]
         /\ do_bg [T_STR "1"; T_NULL] w' =
           Run (Ret 0%Z) w' [EMsg "bg: job not found: %s\n" [AStr (Some "1")]]
         /\ do_kill [T_STR "%1"; T_NULL] w' =
           Run (Ret 0%Z) w'
               [EMsg "kill: job not found: %s\n" [AStr (Some "%1")]].
Proof.
  refine (@deleted_slot_is_not_found header one_finished
            (Job 100 [Proc 100 0 0] 0 (Some "sleep 1")) 1 "1" _ _).
  - reflexivity.
  - reflexivity.
Defined.
End Witnesses.

(** ** Resuming and killing a job *)

Section Resume.
Context `{shell_h}.

Lemma last_unfinished_is (slots : list job_t) (k : nat) (job : job_t) :
  slots !! k = Some job ->
  job_state job <> FINISHED ->
  (forall x job', k < x -> slots !! x = Some job' ->
                  job_state job' = FINISHED) ->
  forall n, k <= n -> n < length slots -> last_unfinished slots n = k.
Proof.
  intros Hk Hnf Hlater. induction n as [|n IH]; intros Hkn Hn;
    [simpl; lia|].
  cbn [last_unfinished].
  destruct (lookup_lt_is_Some_2 slots (S n) Hn) as [job' Hj]. rewrite Hj.
  destruct (decide (k = S n)) as [->|Hne].
  - rewrite Hk in Hj. inversion Hj; subst job'.
    destruct (Z.eqb_spec (job_state job) FINISHED); [contradiction|].
    reflexivity.
  - rewrite (Hlater (S n) job') by (try exact Hj; lia).
    rewrite Z.eqb_refl. apply IH; lia.
Qed.

(** The slot that [resumejob] works on, for a job number [j] as given to
    [fg] or [bg]: slot [j] itself, or with a negative [j] the last slot
    that is not FINISHED. *)
Lemma resumejob_selects (j bg : Z) (mask : bool) (k : nat) (job : job_t)
    (w : world) :
  jobs w !! k = Some job ->
  job_state job <> FINISHED ->
  (j = Z.of_nat k
   \/ ((j < 0)%Z
       /\ forall x job', k < x -> jobs w !! x = Some job' ->
                         job_state job' = FINISHED)) ->
  resumejob j bg mask w
  = (Kill (- job_pgid job) SIGCONT;;
     (if Z.eqb bg 0 then
        movejob k (Z.to_nat FG);;
        monitorjob mask;;
        ret tt
      else ret tt);;
     ret true) w.
Proof.
  intros Hk Hnf Hsel. apply lookup_lt_Some in Hk as Hlt.
  unfold resumejob. run_step. unfold njobmax. cbv zeta.
  assert ((if Z.ltb j 0
           then if Z.ltb (Z.of_nat (length (jobs w)) - 1) 0 then (-1)%Z
                else Z.of_nat (last_unfinished (jobs w)
                                 (length (jobs w) - 1))
           else j) = Z.of_nat k) as ->.
  { destruct Hsel as [->|[Hneg Hlater]].
    - destruct (Z.ltb_spec (Z.of_nat k) 0); [lia | reflexivity].
    - destruct (Z.ltb_spec j 0); [|lia].
      destruct (Z.ltb_spec (Z.of_nat (length (jobs w)) - 1) 0); [lia|].
      rewrite (last_unfinished_is (jobs w) k job Hk Hnf Hlater) by lia.
      reflexivity. }
  destruct (Z.geb_spec (Z.of_nat k) (Z.of_nat (length (jobs w)))); [lia|].
  destruct (Z.ltb_spec (Z.of_nat k) 0); [lia|].
  rewrite Nat2Z.id.
  erewrite bind_run by (apply jobslot_some; exact Hk). rewrite prepend_nil.
  destruct (Z.eqb_spec (job_state job) FINISHED); [contradiction|].
  reflexivity.
Qed.


(** X14.  [fg] needs a free foreground slot.  When the foreground slot is
    occupied (its process group is not 0) and [fg] selects a slot that is
    not FINISHED, the job is sent SIGCONT and then the assertion of
    [movejob] fails: the shell aborts, with SIGCHLD still blocked. *)
Theorem fg_aborts_on_an_occupied_foreground_slot (argv : list token_t)
    (arg : option string) (k : nat) (job fg_job : job_t) (w : world) :
  res (argv0 argv w) = Ret arg ->
  jobs w !! 0 = Some fg_job ->
  job_pgid fg_job <> 0%Z ->
  jobs w !! k = Some job ->
  job_state job <> FINISHED ->
  match arg with
  | Some s => atoi s = Z.of_nat k
  | None => forall x job', k < x -> jobs w !! x = Some job' ->
                           job_state job' = FINISHED
  end ->
  res (do_fg argv w) = Halt (Aborted "jobs[to].pgid == 0")
  /\ evs (do_fg argv w) = [EKill (- job_pgid job) SIGCONT]
  /\ sigchld_blocked (st (do_fg argv w)) = true.
Proof.
  intros Harg H0 Hp Hk Hnf Hsel. unfold do_fg.
  erewrite bind_run by (apply argv0_run; exact Harg). rewrite prepend_nil.
  cbv zeta. unfold Sigprocmask_block. run_step.
  match goal with
  | |- context [bind (resumejob ?j FG ?m) _ ?w1] =>
      assert (resumejob j FG m w1
              = Run (Halt (Aborted "jobs[to].pgid == 0")) w1
                    [EKill (- job_pgid job) SIGCONT]) as Hrun;
      [rewrite (resumejob_selects j FG m k job w1 Hk Hnf)|]
  end.
  { unfold Kill. run_step. change (Z.eqb FG 0) with true. cbv iota.
    unfold movejob. change (Z.to_nat FG) with 0.
    erewrite bind_halt; [reflexivity|].
    erewrite bind_halt; [reflexivity|].
    erewrite bind_run by (apply jobslot_some; exact H0).
    rewrite prepend_nil. unfold assert.
    destruct (Z.eqb_spec (job_pgid fg_job) 0); [contradiction|].
    apply bind_halt. reflexivity. }
  { destruct arg as [s|]; [left; exact Hsel | right].
    split; [lia | exact Hsel]. }
  erewrite bind_halt by exact Hrun. cbn. repeat split.
Qed.


End Resume.

(** ** The search along PATH *)

Lemma strcspn_colon_cons (c : ascii) (rest : string) :
  strcspn_colon (String c rest)
  = if Ascii.eqb c ":" then 0 else S (strcspn_colon rest).
Proof.
  destruct c as [[] [] [] [] [] [] [] []]; reflexivity.
Qed.

Lemma split_colon_step (path : string) :
  split_colon path
  = String.substring 0 (strcspn_colon path) path
    :: match string_drop (strcspn_colon path) path with
       | String _ path' => split_colon path'
       | EmptyString => []
       end.
Proof.
  induction path as [|c rest IH]; [reflexivity|].
  rewrite strcspn_colon_cons. cbn [split_colon].
  destruct (Ascii.eqb c ":"); [reflexivity|].
  rewrite IH at 1. reflexivity.
Qed.

Lemma leading_step (path : string) :
  leading (split_colon path)
  = if Nat.eqb (strcspn_colon path) 0 then []
    else String.substring 0 (strcspn_colon path) path
         :: match string_drop (strcspn_colon path) path with
            | String _ path' => leading (split_colon path')
            | EmptyString => []
            end.
Proof.
  rewrite split_colon_step at 1. cbn [leading].
  destruct path as [|c rest]; [reflexivity|].
  rewrite strcspn_colon_cons. destruct (Ascii.eqb c ":"); [reflexivity|].
  cbn [Nat.eqb String.substring].
  destruct (string_drop (S (strcspn_colon rest)) (String c rest));
    reflexivity.
Qed.

Lemma bind_unfold_run {A B} (m : M A) (k : A -> M B) (w : world)
    (r : run A) :
  m w = r ->
  bind m k w
  = match res r with
    | Ret a => prepend (evs r) (k a (st r))
    | Halt h => Run (Halt h) (st r) (evs r)
    end.
Proof. intros <-. unfold bind, prepend. destruct (res (m w)); reflexivity. Qed.

Section Search.
Context `{shell_h}.

Lemma execve_run (file : string) (argv : list token_t) (w : world) :
  execve file argv w
  = Run (if sys_execve (os w) file then Halt (Execed file) else Ret tt)
        w [EExecve file (argv_words argv)].
Proof.
  unfold execve. run_step. run_step.
  destruct (sys_execve (os w) file); reflexivity.
Qed.

(** The [do .. while] of [external_command] tries the name in every
    directory of the PATH in turn, up to the first empty component and up
    to the first file that [execve] takes. *)
Lemma try_path_run (name : string) (argv : list token_t) (w : world)
    (fuel : nat) :
  forall path : string,
    String.length path < fuel ->
    try_path fuel path name argv w
    = let tries :=
        first_hit (os w)
          (map (fun d => (d ++ "/" ++ name)%string)
               (leading (split_colon path))) in
      Run (match snd tries with
           | Some file => Halt (Execed file)
           | None => Ret tt
           end)
          w (map (fun f => EExecve f (argv_words argv)) (fst tries)).
Proof.
  induction fuel as [|fuel IH]; intros path Hlen; [lia|].
  cbn [try_path]. cbv zeta. rewrite leading_step.
  destruct (Nat.eqb (strcspn_colon path) 0); [reflexivity|].
  cbn [map first_hit].
  set (file := (String.substring 0 (strcspn_colon path) path ++ "/" ++ name)%string).
  pose proof (string_drop_length (strcspn_colon path) path) as Hd.
  destruct (sys_execve (os w) file) eqn:Ex.
  { erewrite bind_halt; [reflexivity|]. rewrite execve_run, Ex. reflexivity. }
  erewrite bind_run by (rewrite execve_run, Ex; reflexivity).
  destruct (string_drop (strcspn_colon path) path) as [|c path'].
  - reflexivity.
  - rewrite IH by (simpl in Hd; lia). reflexivity.
Qed.

Lemma external_command_run (name : string)
    (args : list token_t) (w : world) :
  external_command (T_STR name :: args) w
  = let tries := first_hit (os w) (candidates (os w) name) in
    Run (Halt (match snd tries with
               | Some file => Execed file
               | None => Exited 1
               end))
        w
        (map (fun f => EExecve f (name :: argv_words args)) (fst tries)
         ++ match snd tries with
            | Some _ => []
            | None => [EMsg "%s: %s\n" [AStr (Some name); AStrerror]]
            end).
Proof.
  unfold external_command, candidates. run_step. cbv zeta.
  change (name :: argv_words args) with (argv_words (T_STR name :: args)).
  destruct (has_slash name); [|destruct (env_PATH (os w)) as [path|]].
  - cbn [first_hit]. destruct (sys_execve (os w) name) eqn:Ex.
    + erewrite bind_halt; [reflexivity|]. rewrite execve_run, Ex. reflexivity.
    + erewrite bind_run by (rewrite execve_run, Ex; reflexivity).
      reflexivity.
  - rewrite (bind_unfold_run _ _ _ _ (try_path_run name (T_STR name :: args) w
                                      (S (String.length path)) path
                                      (Nat.lt_succ_diag_r _))).
    cbv zeta.
    destruct (snd (first_hit (os w)
                     (map (fun d => (d ++ "/" ++ name)%string)
                          (leading (split_colon path))))); cbn.
    + rewrite app_nil_r. reflexivity.
    + reflexivity.
  - cbn [first_hit]. destruct (sys_execve (os w) name) eqn:Ex.
    + erewrite bind_halt; [reflexivity|]. rewrite execve_run, Ex. reflexivity.
    + erewrite bind_run by (rewrite execve_run, Ex; reflexivity).
      reflexivity.
Qed.

(** X16.  What an external command does.  [external_command] never returns
    and leaves the state of the process as it is.  It tries [execve] on
    the candidate files in turn: on the name as given when the name has a
    slash or PATH is not set, and otherwise on the name in each directory
    of PATH, from the left, up to the first empty component.  The first
    file that [execve] takes becomes the process, and nothing is tried
    after it; when none does, the message with the name and the error is
    printed and the process exits with status 1. *)
Theorem external_command_tries_the_candidates (name : string)
    (args : list token_t) (w : world) :
  external_command (T_STR name :: args) w
  = let tries := first_hit (os w) (candidates (os w) name) in
    Run (Halt (match snd tries with
               | Some file => Execed file
               | None => Exited 1
               end))
        w
        (map (fun f => EExecve f (name :: argv_words args)) (fst tries)
         ++ match snd tries with
            | Some _ => []
            | None => [EMsg "%s: %s\n" [AStr (Some name); AStrerror]]
            end).
Proof. exact (external_command_run name args w). Qed.
End Search.

(** ** What the monitor makes of the foreground job *)

Section Outcome.
Context `{shell_h}.

Lemma movejob_run (from to : nat) (src dst : job_t) (w : world) :
  jobs w !! to = Some dst -> job_pgid dst = 0%Z ->
  jobs w !! from = Some src ->
  movejob from to w
  = Run (Ret tt)
        (with_jobs (<[from := zero_job]> (<[to := src]> (jobs w))) w) [].
Proof.
  intros Hto Hp Hfrom. unfold movejob.
  erewrite bind_run by (apply jobslot_some; exact Hto). rewrite prepend_nil.
  unfold assert. rewrite Hp. change (Z.eqb 0 0) with true. cbv iota.
  run_step.
  erewrite bind_run by (apply jobslot_some; exact Hfrom). rewrite prepend_nil.
  reflexivity.
Qed.

Lemma kept_proc_trans (p1 p2 p3 : proc_t) :
  kept_proc p1 p2 -> kept_proc p2 p3 -> kept_proc p1 p3.
Proof.
  intros (Hp & Hf & He) (Hp' & Hf' & He'). split; [congruence|]. split.
  - intros E. specialize (Hf E). subst p2. apply Hf'. exact E.
  - destruct He' as [He'|He']; [|right; exact He'].
    destruct He as [He|He]; [left; congruence|].
    right. rewrite (Hf' He). exact He.
Qed.

Lemma kept_job_trans (j1 j2 j3 : job_t) :
  kept_job j1 j2 -> kept_job j2 j3 -> kept_job j1 j3.
Proof.
  intros (Hg & Hc & Hp & Hz) (Hg' & Hc' & Hp' & Hz').
  split; [congruence|]. split; [congruence|]. split.
  - revert Hp Hp'. generalize (job_proc j1) (job_proc j2) (job_proc j3).
    intros l1 l2 l3 H12. revert l3.
    induction H12 as [|a b l1 l2 Hab _ IH]; intros l3 H23;
      inversion H23; subst; constructor.
    + eapply kept_proc_trans; eassumption.
    + apply IH. assumption.
  - intros E. specialize (Hz E). subst j2. apply Hz'. exact E.
Qed.

Lemma kept_jobs_trans (l1 l2 l3 : list job_t) :
  Forall2 kept_job l1 l2 -> Forall2 kept_job l2 l3 ->
  Forall2 kept_job l1 l3.
Proof.
  intros H12. revert l3.
  induction H12 as [|a b l1 l2 Hab _ IH]; intros l3 H23;
    inversion H23; subst; constructor.
  - eapply kept_job_trans; eassumption.
  - apply IH. assumption.
Qed.

(** What a wait in [Sigsuspend] that ends has made of the table is what
    the handler makes of it. *)
Lemma Sigsuspend_kept (mask : bool) (w : world) :
  res (Sigsuspend mask w) = Ret tt ->
  Forall2 kept_job (jobs w) (jobs (st (Sigsuspend mask w))).
Proof.
  unfold Sigsuspend. destruct mask; [intros E; discriminate E|].
  run_step. destruct (wakeups w) as [|news later];
    [intros E; discriminate E|].
  intros _. run_step. run_step. unfold sigchld_handler. run_step.
  cbn [jobs].
  match goal with
  | |- context [bind (reap_jobs (jobs w)) _ ?w'] =>
      destruct (reap_jobs_kept (jobs w) w') as [_ Hr];
      destruct (reap_jobs (jobs w) w') as [[slots|h] w1 e1] eqn:E;
      cbn [res] in Hr; [|contradiction]
  end.
  erewrite bind_run by exact E. exact Hr.
Qed.

Lemma to_background_run (job1 : job_t) (w1 : world) :
  jobs w1 !! 0 = Some job1 ->
  job_state job1 = STOPPED ->
  exists slots : list job_t,
    (bg <- addjob 0 BG;; movejob (Z.to_nat FG) (Z.to_nat bg);; ret (-1)%Z) w1
    = Run (Ret (-1)%Z) (with_jobs slots w1) []
    /\ moved_to_background (job_pgid job1) (jobs w1) slots.
Proof.
  intros Hj1 Hst. apply lookup_lt_Some in Hj1 as Hlen.
  destruct (addjob_run 0 BG w1)
    as (j & slots & Ha & Hj & Hlow & Hnew & Hold & Hl); [lia|].
  change (Z.eqb BG 0) with false in Hj. cbv iota in Hj.
  destruct Hj as [Hj Hfree].
  erewrite bind_run by exact Ha. rewrite prepend_nil, Nat2Z.id.
  change (Z.to_nat FG) with 0.
  assert (slots !! 0 = Some job1) as H0.
  { rewrite Hold by lia. exact Hj1. }
  erewrite bind_run
    by (apply (movejob_run 0 j job1 (Job 0 [] RUNNING None));
        [exact Hnew | reflexivity | exact H0]).
  rewrite prepend_nil.
  exists (<[0 := zero_job]> (<[j := job1]> slots)).
  split; [reflexivity|].
  assert (j < length slots) as Hjl by (apply lookup_lt_Some in Hnew; exact Hnew).
  exists j, job1. split; [exact Hj1|]. split; [reflexivity|].
  split; [exact Hst|]. split; [exact Hj|]. split; [exact Hlow|].
  split; [exact Hfree|]. split.
  { apply list_lookup_insert_eq. rewrite length_insert. lia. }
  split.
  { rewrite list_lookup_insert_ne by lia. apply list_lookup_insert_eq. lia. }
  intros k Hk0 Hkj. rewrite !list_lookup_insert_ne by lia.
  apply Hold. exact Hkj.
Qed.

Lemma monitor_loop_outcome (mask : bool) (fuel : nat) :
  forall (w w' : world) (c g : Z) (es : list event),
    (exists job, jobs w !! 0 = Some job /\ job_pgid job = g) ->
    monitor_loop fuel mask w = Run (Ret c) w' es ->
    exists seen : list job_t,
      Forall2 kept_job (jobs w) seen
      /\ ((c = (-1)%Z /\ moved_to_background g seen (jobs w'))
          \/ (jobs w' = seen /\ left_in_foreground g c seen)).
Proof.
  induction fuel as [|fuel IH]; intros w w' c g es (job & Hj & Hp) Hrun;
    [discriminate Hrun|].
  cbn [monitor_loop] in Hrun.
  pose proof (Sigsuspend_kept mask w) as Hkept.
  destruct (Sigsuspend mask w) as [[[]|h] w1 e1] eqn:Es;
    [|erewrite bind_halt in Hrun by exact Es; discriminate Hrun].
  erewrite bind_run in Hrun by exact Es.
  specialize (Hkept eq_refl). cbn [st] in Hkept.
  destruct (Forall2_lookup_l _ _ _ _ _ Hkept Hj) as (job1 & Hj1 & Hk1).
  assert (job_pgid job1 = job_pgid job) as Hp1 by (apply Hk1).
  change (Z.to_nat FG) with 0 in Hrun.
  erewrite bind_run in Hrun by (apply jobslot_some; exact Hj1).
  rewrite prepend_nil in Hrun.
  destruct (Z.eqb_spec (job_state job1) STOPPED) as [Es1|_].
  { exists (jobs w1). split; [exact Hkept|]. left.
    destruct (to_background_run job1 w1 Hj1 Es1) as (js2 & Hr & Hm).
    change (Z.to_nat FG) with 0 in Hr. rewrite Hr in Hrun.
    cbn in Hrun. inversion Hrun; subst.
    split; [reflexivity|]. rewrite <- Hp1. exact Hm. }
  destruct (Z.eqb_spec (job_state job1) FINISHED) as [Ef|_].
  - exists (jobs w1). split; [exact Hkept|]. right.
    unfold assert, exitcode in Hrun.
    destruct (job_proc job1) as [|p0 ps] eqn:Eprocs;
      [cbn in Hrun; discriminate Hrun|].
    cbn [length Nat.eqb negb] in Hrun.
    erewrite bind_run in Hrun by reflexivity. rewrite prepend_nil in Hrun.
    destruct (last (p0 :: ps)) as [proc|] eqn:El;
      [|cbn in Hrun; discriminate Hrun].
    cbn in Hrun. inversion Hrun; subst.
    split; [reflexivity|].
    exists job1, proc. rewrite Eprocs.
    repeat split; try assumption.
  - match type of Hrun with
    | prepend _ ?r = _ =>
        destruct r as [r2 w2 e2] eqn:E2; cbn in Hrun; inversion Hrun; subst
    end.
    destruct (IH w1 w' c (job_pgid job) e2) as (seen & Hs & Hout);
      [exists job1; split; [exact Hj1 | exact Hp1] | exact E2 |].
    exists seen. split; [|exact Hout].
    eapply kept_jobs_trans; eassumption.
Qed.

(** X17.  What [monitorjob] makes of the foreground job.  When [monitorjob]
    returns it has seen the job either STOPPED or FINISHED, in a table
    [seen] that the SIGCHLD handler made of the table at the call: slot
    by slot the same process group, command text and processes (see
    [kept_job]).  STOPPED: it returns -1; the job, as it was seen, has
    been moved to the lowest background slot that was free, or to a new
    slot at the end when none was; the foreground slot is zeroed and
    every other slot is as it was seen.  FINISHED: it returns the exit
    code of the last process of the job, and the table is as it was seen,
    the job still in the foreground slot. *)
Theorem monitorjob_moves_or_leaves_the_job (mask : bool) (w : world)
    (c : Z) (fg_job : job_t) :
  jobs w !! 0 = Some fg_job ->
  res (monitorjob mask w) = Ret c ->
  exists seen : list job_t,
    Forall2 kept_job (jobs w) seen
    /\ ((c = (-1)%Z
         /\ moved_to_background (job_pgid fg_job) seen
              (jobs (st (monitorjob mask w))))
        \/ (jobs (st (monitorjob mask w)) = seen
            /\ left_in_foreground (job_pgid fg_job) c seen)).
Proof.
  intros Hj.
  destruct (monitorjob mask w) as [r w' es] eqn:Em. cbn [res st evs].
  intros Er. subst r. revert Em.
  unfold monitorjob. change (Z.to_nat FG) with 0.
  erewrite bind_run by (apply jobslot_some; exact Hj). rewrite prepend_nil.
  unfold assert. destruct (negb (Z.eqb (job_pgid fg_job) 0)).
  2: { run_step. intros E; discriminate E. }
  run_step. run_step. unfold Tcsetpgrp at 1. run_step.
  destruct (monitor_loop (S (length (wakeups w))) mask w)
    as [[c1|h] w1 e1] eqn:El.
  2: { erewrite bind_halt by exact El. intros E; discriminate E. }
  erewrite bind_run by exact El. unfold getpgrp, Tcsetpgrp.
  run_step. cbn. intros E. inversion E; subst.
  apply (monitor_loop_outcome mask (S (length (wakeups w))) w w' c
           (job_pgid fg_job) e1); [|exact El].
  exists fg_job. split; [exact Hj | reflexivity].
Qed.
End Outcome.

(** ** The redirections of a command, resolved *)

Section Resolve.
Context `{shell_h}.

Lemma reading_stops_at_null (l' : list token_t) :
  forall (n : nat) (l : list token_t),
    length l <= n -> malformed l = false ->
    kept_words (l ++ T_NULL :: l') = kept_words l
    /\ redirections (l ++ T_NULL :: l') = redirections l.
Proof.
  induction n as [|n IH]; intros l Hlen Hm.
  { destruct l; [split; reflexivity | simpl in Hlen; lia]. }
  destruct l as [|t rest]; [split; reflexivity|].
  cbn [app kept_words redirections malformed] in *.
  destruct (token_eqb t T_NULL); [split; reflexivity|].
  destruct (is_redir t).
  - destruct rest as [|[| | | | |f] rest']; try discriminate Hm.
    cbn [app]. destruct (IH rest') as [Hw Hr];
      [simpl in Hlen; lia | exact Hm |].
    rewrite Hw, Hr. split; reflexivity.
  - destruct (IH rest) as [Hw Hr]; [simpl in Hlen; lia | exact Hm |].
    rewrite Hw, Hr. split; reflexivity.
Qed.

Lemma kept_words_length (l : list token_t) :
  length (kept_words l) <= length l.
Proof.
  assert (forall n l, length l <= n -> length (kept_words l) <= length l)
    as Hall.
  { clear l. induction n as [|n IH]; intros l Hlen.
    - destruct l; [simpl; lia | simpl in Hlen; lia].
    - destruct l as [|t rest]; [simpl; lia|]. cbn [kept_words].
      destruct (token_eqb t T_NULL); [simpl; lia|].
      destruct (is_redir t).
      + destruct rest as [|[| | | | |f] rest']; try (simpl; lia).
        specialize (IH rest'). simpl in *. lia.
      + specialize (IH rest). simpl in *. lia. }
  apply (Hall (length l)). lia.
Qed.

Lemma redir_step_run (fd : Z) (file : string) (flags : oflags) {A}
    (k : Z -> M A) (w : world) :
  ((if negb (Z.eqb fd (-1)) then close fd else ret tt);;
   fd' <- open file flags;; k fd') w
  = prepend ((if negb (Z.eqb fd (-1)) then [EClose fd] else [])
             ++ [EOpen file flags (sys_open (os w) file flags)])
            (k (sys_open (os w) file flags) w).
Proof.
  unfold open, close. destruct (negb (Z.eqb fd (-1))).
  - run_step. run_step. unfold prepend. cbn. reflexivity.
  - run_step. run_step. unfold prepend. cbn. reflexivity.
Qed.

(** The loop of [do_redir] on an array whose part still to read, [mid],
    has a file name after every redirection operator. *)
Lemma do_redir_loop_resolves (w : world) (fuel : nat) :
  forall (mid pre post : list token_t) (input output : Z),
    malformed mid = false ->
    live mid < fuel ->
    exists token' : list token_t,
      do_redir_loop fuel (pre ++ mid ++ post) (length pre + length mid)
                    (length pre) (length pre) input output w
      = Run (Ret (token', length pre + length (kept_words mid),
                  snd (resolve (os w) (redirections mid) input output)))
            w (fst (resolve (os w) (redirections mid) input output))
      /\ take (length pre + length (kept_words mid)) token'
         = pre ++ kept_words mid
      /\ length token' = length (pre ++ mid ++ post)
      /\ (length (kept_words mid) < length (mid ++ post) ->
          token' !! (length pre + length (kept_words mid)) = Some T_NULL).
Proof.
  induction fuel as [|fuel IH]; intros mid pre post input output Hm Hfuel;
    [lia|].
  assert (forall mid',
            match mid' with [] => True | t :: _ => t = T_NULL end ->
            kept_words mid' = [] -> redirections mid' = [] ->
            exists token' : list token_t,
              do_redir_loop (S fuel) (pre ++ mid' ++ post)
                (length pre + length mid') (length pre) (length pre)
                input output w
              = Run (Ret (token', length pre + length (kept_words mid'),
                          snd (resolve (os w) (redirections mid')
                                       input output)))
                    w (fst (resolve (os w) (redirections mid') input output))
              /\ take (length pre + length (kept_words mid')) token'
                 = pre ++ kept_words mid'
              /\ length token' = length (pre ++ mid' ++ post)
              /\ (length (kept_words mid') < length (mid' ++ post) ->
                  token' !! (length pre + length (kept_words mid'))
                  = Some T_NULL)) as Hexit.
  { intros mid' Hshape Hw Hr. rewrite Hw, Hr. cbn [length resolve fst snd].
    rewrite Nat.add_0_r, app_nil_r.
    exists (<[length pre := T_NULL]> (pre ++ mid' ++ post)).
    split; [apply loop_exit; exact Hshape|].
    split; [rewrite take_insert_ge by lia; apply take_app_length|].
    split; [apply length_insert|].
    intros Hlt. apply list_lookup_insert_eq. rewrite length_app. lia. }
  destruct mid as [|t rest]; [apply Hexit; [exact I | reflexivity..]|].
  destruct (token_eqb t T_NULL) eqn:Hnull.
  { apply Hexit.
    - destruct t; try discriminate Hnull. reflexivity.
    - cbn [kept_words]. rewrite Hnull. reflexivity.
    - cbn [redirections]. rewrite Hnull. reflexivity. }
  clear Hexit. cbn [live] in Hfuel. rewrite Hnull in Hfuel.
  cbn [malformed kept_words redirections] in *. rewrite Hnull in *.
  destruct (is_redir t) eqn:Hredir.
  - destruct rest as [|[| | | | |file] rest']; try discriminate Hm.
    destruct (reading_stops_at_null [T_NULL] (length rest') rest'
                (le_n _) Hm) as [Hw Hr].
    rewrite loop_redir by assumption. cbv zeta. rewrite redir_step_run.
    cbn [resolve].
    set (fd' := sys_open (os w) file
                  (if token_eqb t T_INPUT then O_RDONLY
                   else O_WRONLY_O_CREAT)).
    destruct (IH (rest' ++ [T_NULL; T_NULL]) pre post
                 (if token_eqb t T_INPUT then fd' else input)
                 (if token_eqb t T_INPUT then output else fd'))
      as (token' & Hrun & Htake & Hlen & Hnul).
    { rewrite malformed_app_null. exact Hm. }
    { rewrite live_app_nulls. simpl in Hfuel. lia. }
    rewrite Hw in Hrun, Htake, Hnul. rewrite Hr in Hrun.
    exists token'. split.
    { rewrite Hrun. unfold prepend. cbn [res st evs fst snd].
      rewrite <- app_assoc. reflexivity. }
    split; [exact Htake|]. split.
    { rewrite Hlen. rewrite !length_app. cbn [length]. lia. }
    intros _. apply Hnul. rewrite !length_app. cbn [length].
    pose proof (kept_words_length rest'). lia.
  - rewrite loop_skip by assumption.
    destruct (IH rest (pre ++ [t]) post input output Hm)
      as (token' & Hrun & Htake & Hlen & Hnul); [lia|].
    rewrite length_app in Hrun, Htake, Hnul. cbn [length] in Hrun, Htake, Hnul.
    exists token'. cbn [length].
    replace (length pre + S (length (kept_words rest)))
      with (length pre + 1 + length (kept_words rest)) by lia.
    split.
    { rewrite length_app. cbn [length].
      replace (S (length pre)) with (length pre + 1) by lia. exact Hrun. }
    split; [rewrite Htake, <- app_assoc; reflexivity|].
    split.
    { rewrite Hlen. rewrite !length_app. cbn [length]. lia. }
    intros Hlt. rewrite ?length_app in Hnul. cbn [length] in Hnul.
    apply Hnul. rewrite length_app in Hlt. cbn [length] in Hlt. lia.
Qed.

Lemma do_redir_run (token : list token_t)
    (ntokens : nat) (input output : Z) (w : world) :
  ntokens <= length token ->
  malformed (take ntokens token) = false ->
  let words := kept_words (take ntokens token) in
  let calls :=
    resolve (os w) (redirections (take ntokens token)) input output in
  exists token' : list token_t,
    do_redir token ntokens input output w
    = Run (Ret (token', length words, snd calls)) w (fst calls)
    /\ take (length words) token' = words
    /\ length token' = length token
    /\ (length words < length token ->
        token' !! length words = Some T_NULL).
Proof.
  intros Hlen Hm words calls. rewrite do_redir_split by exact Hlen.
  destruct (do_redir_loop_resolves w (S ntokens) (take ntokens token) []
              (drop ntokens token) input output Hm)
    as (token' & Hrun & Htake & Hl & Hnul).
  { pose proof (live_le_length (take ntokens token)) as Hlive.
    rewrite length_take in Hlive. lia. }
  exists token'. cbn [length app Nat.add] in *.
  split; [exact Hrun|]. split; [exact Htake|].
  rewrite take_drop in Hl, Hnul. split; [exact Hl | exact Hnul].
Qed.

(** X18.  [do_redir] on a well-formed command.  When every redirection
    operator among the tokens of the command (read up to the first null
    token) has a file name after it, [do_redir] returns and leaves the
    state of the process as it is.  The array it returns has the length of
    the one it was given and begins with the tokens that are neither an
    operator nor its file name, in their order; the number it returns is
    their count, and the cell after them, when the array has one, holds
    the null token.  The redirections are carried out from the left: each
    closes the descriptor held so far for its side, unless that is -1, and
    then opens its file, for reading after [<] and for writing with
    creation after [>]; the descriptors returned are the last ones opened,
    or the ones passed in. *)
Theorem do_redir_resolves_the_redirections (token : list token_t)
    (ntokens : nat) (input output : Z) (w : world) :
  ntokens <= length token ->
  malformed (take ntokens token) = false ->
  let words := kept_words (take ntokens token) in
  let calls :=
    resolve (os w) (redirections (take ntokens token)) input output in
  exists token' : list token_t,
    do_redir token ntokens input output w
    = Run (Ret (token', length words, snd calls)) w (fst calls)
    /\ take (length words) token' = words
    /\ length token' = length token
    /\ (length words < length token ->
        token' !! length words = Some T_NULL).
Proof. exact (do_redir_run token ntokens input output w). Qed.
End Resolve.

(** ** A command in the foreground, from the fork to the exit status *)

Section Foreground.
Context `{shell_h}.

Lemma reap_proc_run (proc : proc_t) (s : wstatus)
    (c1 : list (Z * wstatus)) (w : world) :
  take_change (proc_pid proc) (children w) = Some (s, c1) ->
  reap_proc proc w = Run (Ret (reaped_proc s proc)) (with_children c1 w) [].
Proof.
  intros Ht. unfold reap_proc, waitpid, reaped_proc.
  assert ((w0 <- get;;
           match take_change (proc_pid proc) (children w0) with
           | Some (status, rest) => set_children rest;; ret (Some status)
           | None => ret None
           end) w = Run (Ret (Some s)) (with_children c1 w) []) as Hw.
  { run_step. rewrite Ht. reflexivity. }
  erewrite bind_run by exact Hw. rewrite prepend_nil.
  destruct (WIFEXITED s || WIFSIGNALED s); [reflexivity|].
  destruct (WIFCONTINUED s); [reflexivity|].
  destruct (WIFSTOPPED s); reflexivity.
Qed.

Lemma reap_job_single (g : Z) (proc : proc_t) (js : Z)
    (cmd : option string) (s : wstatus) (c1 : list (Z * wstatus))
    (w : world) :
  g <> 0%Z -> proc_state proc <> FINISHED ->
  take_change (proc_pid proc) (children w) = Some (s, c1) ->
  reap_job (Job g [proc] js cmd) w
  = Run (Ret (Job g [reaped_proc s proc] (derive [reaped_proc s proc]) cmd))
        (with_children c1 w) [].
Proof.
  intros Hg Hnf Ht. unfold reap_job. cbn [job_pgid job_proc job_command].
  destruct (Z.eqb_spec g 0); [contradiction|].
  cbn [reap_procs].
  destruct (Z.eqb_spec (proc_state proc) FINISHED); [contradiction|].
  erewrite bind_run; cycle 1.
  { erewrite bind_run by (apply reap_proc_run; exact Ht).
    rewrite prepend_nil. cbv zeta. reflexivity. }
  rewrite prepend_nil. cbn [fst snd]. unfold derive. cbn [existsb].
  rewrite !orb_false_r.
  destruct (Z.eqb (proc_state (reaped_proc s proc)) RUNNING); [reflexivity|].
  destruct (Z.eqb (proc_state (reaped_proc s proc)) STOPPED); reflexivity.
Qed.

(** The handler on a table whose foreground job has one process, for which
    [waitpid] has a status. *)
Lemma handler_reaps_foreground (g : Z) (proc : proc_t) (js : Z)
    (cmd : option string) (tl : list job_t) (s : wstatus)
    (c1 : list (Z * wstatus)) (w : world) :
  jobs w = Job g [proc] js cmd :: tl ->
  g <> 0%Z -> proc_state proc <> FINISHED ->
  take_change (proc_pid proc) (children w) = Some (s, c1) ->
  exists tl' c2,
    sigchld_handler w
    = Run (Ret tt)
          (with_jobs (Job g [reaped_proc s proc]
                          (derive [reaped_proc s proc]) cmd :: tl')
                     (with_children c2 w)) []
    /\ length tl' = length tl
    /\ Forall2 kept_job tl tl'.
Proof.
  intros Hj Hg Hnf Ht. unfold sigchld_handler. run_step. rewrite Hj.
  cbn [reap_jobs].
  set (w1 := with_children c1 w).
  destruct (reap_jobs_same_pgids tl w1) as [_ Hr].
  destruct (reap_jobs_kept tl w1) as [_ Hk].
  destruct (reaps_only_reap_jobs tl w1) as (He & c2 & Hs & _).
  destruct (reap_jobs tl w1) as [[tl'|h] w2 e2] eqn:Et;
    cbn [res st evs] in *; [|contradiction].
  subst e2 w2. exists tl', c2. split.
  - erewrite bind_run; cycle 1.
    { erewrite bind_run by (apply reap_job_single; eassumption).
      rewrite prepend_nil. fold w1.
      erewrite bind_run by exact Et. reflexivity. }
    reflexivity.
  - split; [|exact Hk]. symmetry. exact (Forall2_length _ _ _ Hr).
Qed.

Lemma Sigsuspend_run (news : list (Z * wstatus))
    (later : list (list (Z * wstatus))) (w : world) :
  wakeups w = news :: later ->
  Sigsuspend false w
  = sigchld_handler
      (World (jobs w) (tty_fd w) (sigchld_blocked w) (children w ++ news)
             later (forks w) (pipes w) (os w) (arrivals w)).
Proof.
  intros Hw. unfold Sigsuspend. run_step. rewrite Hw. run_step. run_step.
  reflexivity.
Qed.

Lemma prepend_prepend {A} (a b : list event) (r : run A) :
  prepend a (prepend b r) = prepend (a ++ b) r.
Proof. unfold prepend. cbn [res st evs]. rewrite app_assoc. reflexivity. Qed.

Lemma parent_closes_run {A} (io : Z * Z) (k : M A) (w : world) :
  ((if negb (Z.eqb (snd io) (-1)) then close (snd io) else ret tt);;
   (if negb (Z.eqb (fst io) (-1)) then close (fst io) else ret tt);;
   k) w
  = prepend (parent_closes io) (k w).
Proof.
  unfold parent_closes, close.
  destruct (negb (Z.eqb (snd io) (-1))), (negb (Z.eqb (fst io) (-1)));
    run_step; run_step; unfold prepend; destruct (k w); reflexivity.
Qed.

Lemma builtin_command_unknown (name : string) (args : list token_t)
    (w : world) :
  builtin_lookup name builtins = None ->
  builtin_command (T_STR name :: args) w = Run (Ret (-1)%Z) w [].
Proof. intros Hn. unfold builtin_command. rewrite Hn. reflexivity. Qed.

(** The array that [do_redir] returns for a command of plain words. *)
Lemma resolved_array (token' : list token_t) (tokens : list token_t) :
  take (length tokens) token' = tokens ->
  token' !! length tokens = Some T_NULL ->
  token' = tokens ++ T_NULL :: drop (S (length tokens)) token'.
Proof.
  intros Htake Hnul. rewrite <- (take_drop (length tokens) token') at 1.
  rewrite Htake. f_equal. apply drop_S. exact Hnul.
Qed.

(** [do_job] up to the monitor, for a command that is not a built-in, in
    the parent of the fork. *)
Lemma do_job_launch (token : list token_t) (ntokens : nat) (name : string)
    (words : list string) (pid : Z) (later : list Z) (w : world) :
  ntokens <= length token ->
  malformed (take ntokens token) = false ->
  kept_words (take ntokens token) = map T_STR (name :: words) ->
  S (length words) < length token ->
  builtin_lookup name builtins = None ->
  1 <= length (jobs w) ->
  forks w = pid :: later ->
  pid <> 0%Z ->
  let calls :=
    resolve (os w) (redirections (take ntokens token)) (-1) (-1) in
  do_job token ntokens false w
  = prepend (fst calls ++ [EFork pid; ESetpgid pid pid]
             ++ parent_closes (snd calls))
      ((exitcode <- monitorjob (sigchld_blocked w);;
        Sigprocmask_setmask (sigchld_blocked w);;
        ret exitcode)
         (World (Job pid [Proc pid RUNNING (-1)] RUNNING
                     (Some (command_text None (name :: words)))
                 :: tail (jobs w))
                (tty_fd w) true (children w) (wakeups w) later (pipes w)
                (os w) (arrivals w))).
Proof.
  intros Hlen Hm Hkw Hcell Hname Hjobs Hforks Hpid calls.
  destruct (do_redir_run token ntokens (-1) (-1) w Hlen Hm)
    as (token' & Hrun & Htake & Hl & Hnul).
  rewrite Hkw in Hrun, Htake, Hnul. fold calls in Hrun.
  rewrite length_map in Hrun. cbn [length] in Hrun.
  assert (token' = map T_STR (name :: words)
                   ++ T_NULL :: drop (S (length (map T_STR (name :: words))))
                                     token') as Htok.
  { apply resolved_array; [exact Htake|]. apply Hnul.
    rewrite length_map. cbn [length]. exact Hcell. }
  set (rest := drop _ token') in Htok.
  destruct w as [js tty blocked ch wk fk pp o arr]. cbn [jobs forks] in *.
  destruct js as [|j0 tl]; [simpl in Hjobs; lia|]. subst fk.
  cbn [tail tty_fd children wakeups pipes os sigchld_blocked].
  unfold do_job. erewrite bind_run by exact Hrun. cbn [fst snd]. cbv zeta.
  rewrite Htok at 1. cbn [map app].
  erewrite bind_run by (apply builtin_command_unknown; exact Hname).
  rewrite prepend_nil. change (Z.geb (-1) 0) with false. cbv iota.
  erewrite bind_run by reflexivity. rewrite prepend_nil.
  erewrite bind_run by (apply Fork_run; reflexivity).
  destruct (Z.eqb_spec pid 0) as [E0|_]; [contradiction|].
  erewrite bind_run by reflexivity. rewrite prepend_nil.
  unfold setpgid. erewrite bind_run by reflexivity.
  erewrite bind_run by reflexivity. rewrite prepend_nil.
  cbn [st Z.b2z].
  rewrite Htok.
  erewrite bind_run
    by (apply (addproc_run 0 pid name words rest (Job pid [] RUNNING None));
        reflexivity).
  rewrite prepend_nil. cbn [job_pgid job_proc job_state job_command app].
  rewrite (parent_closes_run (snd calls)).
  cbn [negb]. rewrite !prepend_prepend.
  cbn [with_jobs jobs insert list_insert tty_fd sigchld_blocked children
       wakeups forks pipes os].
  rewrite <- !app_assoc. reflexivity.
Qed.

(** The first wake-up of the monitor of a one-process foreground job for
    which the SIGCHLD brings a status. *)
Lemma monitor_wakes_up (fuel : nat) (g : Z) (proc : proc_t) (js : Z)
    (cmd : option string) (tl : list job_t) (s : wstatus)
    (c1 : list (Z * wstatus)) (news : list (Z * wstatus))
    (later : list (list (Z * wstatus))) (w : world) :
  jobs w = Job g [proc] js cmd :: tl ->
  g <> 0%Z -> proc_state proc <> FINISHED ->
  wakeups w = news :: later ->
  take_change (proc_pid proc) (children w ++ news) = Some (s, c1) ->
  exists tl' c2,
    length tl' = length tl
    /\ Forall2 kept_job tl tl'
    /\ monitor_loop (S fuel) false w
       = (let fg_job := Job g [reaped_proc s proc]
                            (derive [reaped_proc s proc]) cmd in
          if Z.eqb (job_state fg_job) STOPPED then
            bg <- addjob 0 BG;;
            movejob (Z.to_nat FG) (Z.to_nat bg);;
            ret (-1)%Z
          else if Z.eqb (job_state fg_job) FINISHED then
            assert (negb (Nat.eqb (length (job_proc fg_job)) 0))
                   "fg_job->proc != NULL";;
            exitcode fg_job
          else monitor_loop fuel false)
           (World (Job g [reaped_proc s proc]
                       (derive [reaped_proc s proc]) cmd :: tl')
                  (tty_fd w) (sigchld_blocked w) c2 later (forks w)
                  (pipes w) (os w) (arrivals w)).
Proof.
  intros Hj Hg Hnf Hw Ht.
  destruct (handler_reaps_foreground g proc js cmd tl s c1
              (World (jobs w) (tty_fd w) (sigchld_blocked w)
                     (children w ++ news) later (forks w) (pipes w) (os w) (arrivals w))
              Hj Hg Hnf Ht) as (tl' & c2 & Hh & Hl & Hk).
  exists tl', c2. split; [exact Hl|]. split; [exact Hk|].
  cbn [monitor_loop].
  erewrite bind_run by (rewrite (Sigsuspend_run news later w Hw); exact Hh).
  rewrite prepend_nil. change (Z.to_nat FG) with 0.
  erewrite bind_run by (apply jobslot_some; reflexivity).
  rewrite prepend_nil. reflexivity.
Qed.

(** X19.  A command in the foreground, from the fork to the exit status.
    Take a command that is not a built-in, with a file name after every
    redirection operator, in a shell that has SIGCHLD unblocked; let the
    fork return the pid of the child to the shell, and let the next SIGCHLD
    bring the news that this child has exited or was killed.  Then
    [do_job] returns the exit status of the child.  On the way it has
    carried out the redirections, forked, put the child in a process group
    of its own, closed its copies of the redirected descriptors, given the
    terminal to the child and taken it back, and nothing else.  Afterwards
    SIGCHLD is unblocked again and the job is still in the foreground
    slot, FINISHED, with the exit status recorded for its process and the
    words of the command as its text. *)
Theorem foreground_command_returns_its_exit_status (token : list token_t)
    (ntokens : nat) (name : string) (words : list string) (pid : Z)
    (later : list Z) (news : list (Z * wstatus))
    (coming : list (list (Z * wstatus))) (s : wstatus)
    (c1 : list (Z * wstatus)) (w : world) :
  ntokens <= length token ->
  malformed (take ntokens token) = false ->
  kept_words (take ntokens token) = map T_STR (name :: words) ->
  S (length words) < length token ->
  builtin_lookup name builtins = None ->
  1 <= length (jobs w) ->
  forks w = pid :: later ->
  pid <> 0%Z ->
  sigchld_blocked w = false ->
  wakeups w = news :: coming ->
  take_change pid (children w ++ news) = Some (s, c1) ->
  WIFEXITED s || WIFSIGNALED s = true ->
  let calls :=
    resolve (os w) (redirections (take ntokens token)) (-1) (-1) in
  exists tl' c2,
    length tl' = length (tail (jobs w))
    /\ do_job token ntokens false w
       = Run (Ret (WEXITSTATUS s))
             (World (Job pid [Proc pid FINISHED (WEXITSTATUS s)] FINISHED
                         (Some (command_text None (name :: words)))
                     :: tl')
                    (tty_fd w) false c2 coming later (pipes w) (os w) (arrivals w))
             (fst calls ++ [EFork pid; ESetpgid pid pid]
              ++ parent_closes (snd calls)
              ++ [ETcsetpgrp (tty_fd w) pid;
                  ETcsetpgrp (tty_fd w) (sys_getpgrp (os w))]).
Proof.
  intros Hlen Hm Hkw Hcell Hname Hjobs Hforks Hpid Hmask Hw Ht Hs calls.
  destruct case_labels_distinct as (Hfr & Hfs & Hrs).
  rewrite (do_job_launch token ntokens name words pid later w)
    by assumption.
  fold calls. rewrite Hmask.
  set (w1 := World _ _ _ _ _ _ _ _ _).
  destruct (monitor_wakes_up (length (wakeups w1)) pid
              (Proc pid RUNNING (-1)) RUNNING
              (Some (command_text None (name :: words))) (tail (jobs w))
              s c1 news coming w1)
    as (tl' & c2 & Hl & Hkept & Hloop);
    [reflexivity | exact Hpid | cbn; congruence | exact Hw | exact Ht |].
  exists tl', c2. split; [exact Hl|].
  assert (reaped_proc s (Proc pid RUNNING (-1))
          = Proc pid FINISHED (WEXITSTATUS s)) as Hreaped
    by (unfold reaped_proc; rewrite Hs; reflexivity).
  rewrite Hreaped in Hloop.
  assert (derive [Proc pid FINISHED (WEXITSTATUS s)] = FINISHED) as Hd.
  { unfold derive. cbn [existsb proc_state].
    destruct (Z.eqb_spec FINISHED RUNNING); [contradiction|].
    destruct (Z.eqb_spec FINISHED STOPPED); [contradiction|]. reflexivity. }
  rewrite Hd in Hloop. cbv zeta in Hloop. cbn [job_state] in Hloop.
  destruct (Z.eqb_spec FINISHED STOPPED) as [E|_]; [contradiction|].
  rewrite Z.eqb_refl in Hloop.
  assert (monitorjob false w1
          = Run (Ret (WEXITSTATUS s))
                (World (Job pid [Proc pid FINISHED (WEXITSTATUS s)] FINISHED
                            (Some (command_text None (name :: words)))
                        :: tl')
                       (tty_fd w) true c2 coming later (pipes w) (os w) (arrivals w))
                [ETcsetpgrp (tty_fd w) pid;
                 ETcsetpgrp (tty_fd w) (sys_getpgrp (os w))]) as Hmon.
  { unfold monitorjob. change (Z.to_nat FG) with 0.
    erewrite bind_run by (apply jobslot_some; reflexivity).
    rewrite prepend_nil. cbn [job_pgid]. unfold assert.
    destruct (Z.eqb_spec pid 0); [contradiction|]. cbn [negb].
    erewrite bind_run by reflexivity. rewrite prepend_nil.
    erewrite bind_run by reflexivity. rewrite prepend_nil.
    unfold Tcsetpgrp at 1. erewrite bind_run by reflexivity.
    erewrite bind_run by (rewrite Hloop; reflexivity).
    reflexivity. }
  erewrite bind_run by exact Hmon. unfold prepend. cbn [res st evs].
  rewrite <- !app_assoc. reflexivity.
Qed.

(** X20.  A command in the foreground that is stopped.  In the situation
    of the theorem before, let the next SIGCHLD bring the news that the
    child has stopped.  Then [do_job] returns -1 with SIGCHLD unblocked
    again.  The handler has seen the job STOPPED in the foreground slot,
    with the child as its one process and the words of the command as its
    text, and has made [seen] of the background slots, each with the
    process group, command text and processes it had.  That job has been
    moved, as it was, to the lowest background slot that was free, or to
    a new slot at the end when none was; the foreground slot is zeroed
    and every other slot is as the handler left it.  What the shell did
    to the outside is the same: the redirections, the fork, the process
    group, the closing of its copies of the descriptors, and the terminal
    given to the child and taken back. *)
Theorem stopped_foreground_command_goes_to_background
    (token : list token_t) (ntokens : nat) (name : string)
    (words : list string) (pid : Z) (later : list Z)
    (news : list (Z * wstatus)) (coming : list (list (Z * wstatus)))
    (s : wstatus) (c1 : list (Z * wstatus)) (w : world) :
  ntokens <= length token ->
  malformed (take ntokens token) = false ->
  kept_words (take ntokens token) = map T_STR (name :: words) ->
  S (length words) < length token ->
  builtin_lookup name builtins = None ->
  1 <= length (jobs w) ->
  forks w = pid :: later ->
  pid <> 0%Z ->
  sigchld_blocked w = false ->
  wakeups w = news :: coming ->
  take_change pid (children w ++ news) = Some (s, c1) ->
  WIFEXITED s || WIFSIGNALED s = false ->
  WIFCONTINUED s = false ->
  WIFSTOPPED s = true ->
  let calls :=
    resolve (os w) (redirections (take ntokens token)) (-1) (-1) in
  exists seen : list job_t,
    Forall2 kept_job (tail (jobs w)) seen
    /\ res (do_job token ntokens false w) = Ret (-1)%Z
    /\ moved_to_background pid
         (Job pid [Proc pid STOPPED (-1)] STOPPED
              (Some (command_text None (name :: words))) :: seen)
         (jobs (st (do_job token ntokens false w)))
    /\ sigchld_blocked (st (do_job token ntokens false w)) = false
    /\ evs (do_job token ntokens false w)
       = fst calls ++ [EFork pid; ESetpgid pid pid]
         ++ parent_closes (snd calls)
         ++ [ETcsetpgrp (tty_fd w) pid;
             ETcsetpgrp (tty_fd w) (sys_getpgrp (os w))].
Proof.
  intros Hlen Hm Hkw Hcell Hname Hjobs Hforks Hpid Hmask Hw Ht Hs Hc Hstop
         calls.
  destruct case_labels_distinct as (Hfr & Hfs & Hrs).
  rewrite (do_job_launch token ntokens name words pid later w)
    by assumption.
  fold calls. rewrite Hmask.
  set (w1 := World _ _ _ _ _ _ _ _ _).
  destruct (monitor_wakes_up (length (wakeups w1)) pid
              (Proc pid RUNNING (-1)) RUNNING
              (Some (command_text None (name :: words))) (tail (jobs w))
              s c1 news coming w1)
    as (tl' & c2 & Hl & Hkept & Hloop);
    [reflexivity | exact Hpid | cbn; congruence | exact Hw | exact Ht |].
  assert (reaped_proc s (Proc pid RUNNING (-1))
          = Proc pid STOPPED (-1)) as Hreaped
    by (unfold reaped_proc; rewrite Hs, Hc, Hstop; reflexivity).
  rewrite Hreaped in Hloop.
  assert (derive [Proc pid STOPPED (-1)] = STOPPED) as Hd.
  { unfold derive. cbn [existsb proc_state].
    destruct (Z.eqb_spec STOPPED RUNNING) as [E|_];
      [symmetry in E; contradiction|].
    rewrite Z.eqb_refl. reflexivity. }
  rewrite Hd in Hloop. cbv zeta in Hloop. cbn [job_state] in Hloop.
  rewrite Z.eqb_refl in Hloop.
  set (job1 := Job pid [Proc pid STOPPED (-1)] STOPPED
                   (Some (command_text None (name :: words)))) in Hloop.
  set (w2 := World (job1 :: tl') _ _ _ _ _ _ _ _) in Hloop.
  destruct (to_background_run job1 w2 eq_refl eq_refl)
    as (js3 & Hbg & Hmoved).
  assert (monitorjob false w1
          = Run (Ret (-1)%Z) (with_jobs js3 w2)
                [ETcsetpgrp (tty_fd w) pid;
                 ETcsetpgrp (tty_fd w) (sys_getpgrp (os w))]) as Hmon.
  { unfold monitorjob. change (Z.to_nat FG) with 0.
    erewrite bind_run by (apply jobslot_some; reflexivity).
    rewrite prepend_nil. cbn [job_pgid]. unfold assert.
    destruct (Z.eqb_spec pid 0); [contradiction|]. cbn [negb].
    erewrite bind_run by reflexivity. rewrite prepend_nil.
    erewrite bind_run by reflexivity. rewrite prepend_nil.
    unfold Tcsetpgrp at 1. erewrite bind_run by reflexivity.
    erewrite bind_run by (rewrite Hloop; exact Hbg).
    reflexivity. }
  exists tl'. split; [exact Hkept|].
  erewrite bind_run by exact Hmon. unfold prepend. cbn [res st evs].
  split; [reflexivity|]. split; [exact Hmoved|].
  split; [reflexivity|].
  rewrite <- !app_assoc. reflexivity.
Qed.
End Foreground.

(** ** A redirection that cannot be opened, for a command with a name *)

Section Unreported.
Context `{shell_h}.

(** C3, as the code has it.  Take a single command with a file name after
    every redirection operator, whose first word is not the name of a
    built-in, and let the target of one of its redirections fail to open.
    Then [do_redir] returns all the same and has printed nothing, and the
    command is not given up: when [fork] succeeds, the next thing
    [do_job] does after the redirections is the fork. *)
Theorem open_failure_goes_unreported (token : list token_t) (ntokens : nat)
    (bg : bool) (w : world) (file : string) (flags : oflags)
    (name : string) (rest : list token_t) (pid : Z) (later : list Z) :
  ntokens <= length token ->
  malformed (take ntokens token) = false ->
  kept_words (take ntokens token) = T_STR name :: rest ->
  builtin_lookup name builtins = None ->
  In (EOpen file flags (-1)) (evs (do_redir token ntokens (-1) (-1) w)) ->
  forks w = pid :: later ->
  (exists r, res (do_redir token ntokens (-1) (-1) w) = Ret r)
  /\ (forall fmt args,
        ~ In (EMsg fmt args) (evs (do_redir token ntokens (-1) (-1) w)))
  /\ exists post,
       evs (do_job token ntokens bg w)
       = evs (do_redir token ntokens (-1) (-1) w) ++ EFork pid :: post.
Proof.
  intros Hlen Hm Hkw Hname _ Hf.
  destruct (do_redir_run token ntokens (-1) (-1) w Hlen Hm)
    as (token' & Hrun & Htake & _).
  rewrite Hkw in Hrun, Htake. cbn [length] in Hrun, Htake.
  destruct token' as [|t args]; [discriminate Htake|].
  cbn [take] in Htake. injection Htake as -> _.
  split; [eexists; rewrite Hrun; reflexivity|].
  split.
  { apply redir_event_not_msg. apply (do_redir_spec token ntokens).
    exact Hlen. }
  eapply (do_job_forks token ntokens bg w);
    [rewrite Hrun; reflexivity | | | exact Hf].
  - rewrite (builtin_command_unknown name args w Hname). reflexivity.
  - lia.
Qed.
End Unreported.

(** ** A command in the background *)

Section Background.
Context `{shell_h}.


End Background.

(** ** The process group of a pipeline *)

Lemma forked_app (a b : list event) : forked (a ++ b) = forked a ++ forked b.
Proof.
  induction a as [|e a IH]; [reflexivity|].
  destruct e; cbn [app forked]; rewrite IH; reflexivity.
Qed.

Lemma setpgids_app (a b : list event) :
  setpgids (a ++ b) = setpgids a ++ setpgids b.
Proof.
  induction a as [|e a IH]; [reflexivity|].
  destruct e; cbn [app setpgids]; rewrite IH; reflexivity.
Qed.

Lemma quiet_forked (es : list event) :
  Forall quiet es -> forked es = [] /\ setpgids es = [].
Proof.
  induction 1 as [|e es He _ [IHf IHs]]; [split; reflexivity|].
  destruct e; cbn [forked setpgids quiet] in *;
    try contradiction; split; assumption.
Qed.

Lemma one_group_later (g : Z) (pids : list Z) :
  one_group g false pids = map (fun p => (p, g)) pids.
Proof. destruct pids; reflexivity. Qed.

(** A property of the forks and [setpgid] calls of a run passes over
    a quiet first part. *)
Lemma after_quiet {A B} (R : A -> Prop)
    (Q : list Z -> list (Z * Z) -> Prop) (m : M A) (k : A -> M B) :
  spec quiet any R m ->
  Q [] [] ->
  (forall a w', R a -> Q (forked (evs (k a w'))) (setpgids (evs (k a w')))) ->
  forall w, Q (forked (evs (bind m k w))) (setpgids (evs (bind m k w))).
Proof.
  intros Hm Hnil Hk w. destruct (Hm w) as [He Hr]. unfold bind.
  destruct (quiet_forked _ He) as [Ef Es].
  destruct (res (m w)) as [a|h]; cbn [res st evs].
  - rewrite forked_app, setpgids_app, Ef, Es. apply Hk. exact Hr.
  - rewrite Ef, Es. exact Hnil.
Qed.

Lemma tame_quiet {A} (m : M A) : tame m -> spec quiet any any m.
Proof.
  intros Hm. eapply spec_weaken; [exact Hm | auto | intros; exact I | auto].
Qed.

Lemma quiet_Pipe : spec quiet any any Pipe.
Proof.
  unfold Pipe. eapply spec_bind with (R1 := any);
    [apply spec_get; intros; exact I | intros w _].
  destruct (pipes w) as [|[r wr] later]; [apply spec_stop; exact I|].
  eapply spec_bind with (R1 := any).
  { intros w'. split; [constructor | exact I]. }
  intros _ _. eapply spec_bind with (R1 := any);
    [apply spec_emit; exact I | intros _ _].
  apply spec_ret. exact I.
Qed.

Section Group.
Context `{shell_h}.

Lemma addjob_not_minus_one (pgid bg : Z) :
  spec quiet any (fun j => j <> (-1)%Z) (addjob pgid bg).
Proof.
  unfold addjob.
  eapply spec_bind with (R1 := fun j => j <> (-1)%Z).
  { destruct (Z.eqb bg 0); [apply spec_ret; discriminate|].
    unfold allocjob. eapply spec_bind with (R1 := any);
      [apply spec_get; intros; exact I | intros w _].
    destruct (find_free _ _) as [j|]; [apply spec_ret; lia|].
    eapply spec_bind with (R1 := any);
      [apply tame_quiet, tame_set_jobs | intros _ _].
    apply spec_ret. lia. }
  intros j Hj. eapply spec_bind with (R1 := any);
    [apply tame_quiet, tame_set_jobslot | intros _ _].
  apply spec_ret. exact Hj.
Qed.

(** What one stage adds to the forks and [setpgid] calls of a run. *)
Lemma do_stage_launch (pgid : Z) (mask : bool) (input output : Z)
    (token : list token_t) (ntokens : nat) (w : world) :
  ntokens <= length token ->
  exists pre : list event,
    Forall quiet pre
    /\ ((exists h, do_stage pgid mask input output token ntokens w
                   = Run (Halt h) (st (do_stage pgid mask input output
                                                token ntokens w)) pre)
        \/ (exists h post,
              res (do_stage pgid mask input output token ntokens w) = Halt h
              /\ evs (do_stage pgid mask input output token ntokens w)
                 = pre ++ EFork 0 :: post)
        \/ (exists pid tok,
              pid <> 0%Z
              /\ res (do_stage pgid mask input output token ntokens w)
                 = Ret (pid, tok)
              /\ length tok = length token
              /\ evs (do_stage pgid mask input output token ntokens w)
                 = pre ++ [EFork pid; ESetpgid pid pgid])).
Proof.
  intros Hlen.
  pose proof (do_stage_bounded pgid mask input output token ntokens Hlen w)
    as [_ Hres].
  revert Hres. unfold do_stage.
  pose proof (do_redir_spec token ntokens input output Hlen w) as [He1 _].
  apply redir_events_quiet in He1.
  destruct (do_redir token ntokens input output w) as [[r1|h1] w1 e1] eqn:E1;
    cbn [evs] in He1.
  { erewrite bind_run by exact E1. cbn [fst snd].
    destruct (forks w1) as [|p later] eqn:Ef.
    { erewrite bind_halt by (apply Fork_fails; exact Ef). intros _.
      exists e1. split; [exact He1|]. left. exists (Fatal "Fork").
      unfold prepend. cbn [res st evs]. rewrite app_nil_r. reflexivity. }
    erewrite (bind_run Fork) by (apply Fork_run; exact Ef).
    destruct (Z.eqb_spec p 0) as [->|Hp].
    - destruct (noreturn_run
                  (do_stage_child mask (fst (snd r1)) (snd (snd r1))
                                  (fst (fst r1)))
                  (World (jobs w1) (tty_fd w1) (sigchld_blocked w1)
                         (children w1) (wakeups w1) later (pipes w1) (os w1) (arrivals w1))
                  (do_stage_child_noreturn _ _ _ _))
        as (h & w' & es & Ec & Hes).
      erewrite bind_halt by exact Ec. intros _.
      exists e1. split; [exact He1|]. right. left. exists h, es.
      split; reflexivity.
    - run_step. unfold setpgid. run_step.
      cbn [prepend evs res st ret app fst snd]. intros Hl.
      exists e1. split; [exact He1|]. right. right.
      exists p, (fst (fst r1)). repeat split; assumption. }
  erewrite bind_halt by exact E1. intros _.
  exists e1. split; [exact He1|]. left. exists h1. reflexivity.
Qed.

(** The loop of [do_pipeline]: the first stage it launches is given the
    group of its variables, and every later stage the pid of the first
    when the pipeline has no job yet, and the same group when it has. *)
Lemma pipeline_loop_groups (ntokens : nat) (bg mask : bool) (fuel : nat) :
  forall (stage_start : nat) (v : pipeline_vars) (w : world),
    ntokens <= length (pl_token v) ->
    ~ In 0%Z (forked (evs (pipeline_loop fuel ntokens bg mask stage_start
                                         v w))) ->
    setpgids (evs (pipeline_loop fuel ntokens bg mask stage_start v w))
    = one_group (pl_pgid v) (Z.eqb (pl_job v) (-1))
        (forked (evs (pipeline_loop fuel ntokens bg mask stage_start v w))).
Proof.
  induction fuel as [|fuel IH]; intros stage_start v w Hlen;
    [intros _; reflexivity|].
  cbn [pipeline_loop].
  destruct (Nat.ltb_spec stage_start ntokens) as [Hlt|_];
    [|intros _; reflexivity].
  pose proof (scan_stage_range (ntokens - stage_start) stage_start
                               (pl_token v)) as Hscan.
  cbv zeta in Hscan. cbv zeta.
  destruct (scan_stage (ntokens - stage_start) stage_start (pl_token v))
    as [[stage_end is_last] token] eqn:Escan.
  cbn [fst snd] in *. destruct Hscan as [Hrange Hl].
  set (output := if is_last then (-1)%Z else pl_output v).
  destruct (do_stage_launch (pl_pgid v) mask (pl_input v) output
              (drop stage_start token) (stage_end - stage_start) w)
    as (pre & Hpre & Hcase).
  { rewrite length_drop. lia. }
  destruct (quiet_forked pre Hpre) as [Hpf Hps].
  destruct Hcase as [(h & Hrun) | [(h & post & Hres & Hevs)
                                  | (pid & tok & Hpid & Hres & Htok & Hevs)]].
  - erewrite bind_halt by exact Hrun. cbn [evs]. rewrite Hpf, Hps.
    intros _. reflexivity.
  - intros Hno. exfalso. apply Hno. clear Hno.
    destruct (do_stage (pl_pgid v) mask (pl_input v) output
                (drop stage_start token) (stage_end - stage_start) w)
      as [r1 w1 e1] eqn:Es.
    cbn [res evs] in Hres, Hevs. subst r1 e1.
    erewrite bind_halt by exact Es. cbn [evs].
    rewrite forked_app, Hpf. left. reflexivity.
  - destruct (do_stage (pl_pgid v) mask (pl_input v) output
                (drop stage_start token) (stage_end - stage_start) w)
      as [r1 w1 e1] eqn:Es.
    cbn [res evs] in Hres, Hevs. subst r1 e1.
    erewrite bind_run by exact Es. cbn [fst snd].
    unfold prepend. cbn [evs].
    rewrite !forked_app, !setpgids_app, Hpf, Hps.
    cbn [forked setpgids app one_group].
    set (g' := if Z.eqb (pl_job v) (-1) then pid else pl_pgid v).
    match goal with
    | |- ~ In _ (_ :: forked (evs (?k w1))) -> _ =>
        assert (~ In 0%Z (forked (evs (k w1))) ->
                setpgids (evs (k w1))
                = map (fun p => (p, g')) (forked (evs (k w1)))) as Hrest
    end.
    { revert w1 Es.
      assert (forall (A : Type) (m : M A), tame m -> spec quiet any any m)
        as Htq by (intros; apply tame_quiet; assumption).
      intros w1 _.
      apply (after_quiet any (fun fs ss => ~ In 0%Z fs ->
                                ss = map (fun p => (p, g')) fs));
        [apply Htq; tame_auto | intros _; reflexivity | intros _ w2 _].
      apply (after_quiet any (fun fs ss => ~ In 0%Z fs ->
                                ss = map (fun p => (p, g')) fs));
        [apply Htq; tame_auto | intros _; reflexivity | intros _ w3 _].
      apply (after_quiet (fun pj => snd pj <> (-1)%Z /\ fst pj = g')
                         (fun fs ss => ~ In 0%Z fs ->
                                ss = map (fun p => (p, g')) fs)).
      { subst g'. destruct (Z.eqb_spec (pl_job v) (-1)) as [E|E].
        - eapply spec_bind; [apply addjob_not_minus_one|].
          intros job Hj. apply spec_ret. split; [exact Hj | reflexivity].
        - apply spec_ret. split; [exact E | reflexivity]. }
      { intros _; reflexivity. }
      intros pj w4 [Hjob Hg].
      apply (after_quiet any (fun fs ss => ~ In 0%Z fs ->
                                ss = map (fun p => (p, g')) fs));
        [apply Htq; tame_auto | intros _; reflexivity | intros _ w5 _].
      apply (after_quiet any (fun fs ss => ~ In 0%Z fs ->
                                ss = map (fun p => (p, g')) fs)).
      { destruct (negb is_last); [apply quiet_Pipe | apply spec_ret; exact I]. }
      { intros _; reflexivity. }
      intros p w6 _ Hno.
      rewrite (IH (stage_end + 1)
                  (PipelineVars (take stage_start token ++ tok) (fst pj)
                                (snd pj) (pl_next_input v) (snd p) (fst p))
                  w6); [| |exact Hno].
      - cbn [pl_pgid pl_job].
        destruct (Z.eqb_spec (snd pj) (-1)); [contradiction|].
        rewrite one_group_later, Hg. reflexivity.
      - cbn [pl_token]. rewrite length_app, length_take, Htok, length_drop.
        lia. }
    intros Hno. rewrite Hrest.
    + subst g'. reflexivity.
    + intros Hin. apply Hno. right. exact Hin.
Qed.

(** X22.  One process group for a pipeline.  Take any run of [do_pipeline]
    that stays in the shell, that is, in which no fork returned 0.  Then
    the calls of [setpgid] the shell makes are one for each fork, in the
    order of the forks: the first child is put in a group of its own
    ([setpgid(pid, 0)]), and every later child in the group of the first,
    whose number is the pid of the first child. *)
Theorem pipeline_stages_share_one_group (token : list token_t)
    (ntokens : nat) (bg : bool) (w : world) :
  ntokens <= length token ->
  ~ In 0%Z (forked (evs (do_pipeline token ntokens bg w))) ->
  setpgids (evs (do_pipeline token ntokens bg w))
  = match forked (evs (do_pipeline token ntokens bg w)) with
    | [] => []
    | first :: others => (first, 0%Z) :: map (fun p => (p, first)) others
    end.
Proof.
  intros Hlen. unfold do_pipeline, mkpipe. cbv zeta.
  set (Q := fun (fs : list Z) (ss : list (Z * Z)) =>
              ~ In 0%Z fs ->
              ss = match fs with
                   | [] => []
                   | first :: others =>
                       (first, 0%Z) :: map (fun p => (p, first)) others
                   end).
  revert w. change (forall w, Q (forked (evs (do_pipeline token ntokens bg w)))
                                (setpgids (evs (do_pipeline token ntokens bg w)))).
  unfold do_pipeline, mkpipe. cbv zeta.
  apply (after_quiet any Q); [apply quiet_Pipe | intros _; reflexivity|].
  intros p w1 _.
  apply (after_quiet any Q);
    [apply tame_quiet, tame_Sigprocmask_block | intros _; reflexivity|].
  intros mask w2 _.
  pose proof (pipeline_loop_groups ntokens bg mask (S ntokens) 0
                (PipelineVars token 0 (-1) (-1) (snd p) (fst p)) w2 Hlen)
    as Hloop.
  cbn [pl_pgid pl_job] in Hloop.
  change (Z.eqb (-1) (-1)) with true in Hloop.
  destruct (pipeline_loop (S ntokens) ntokens bg mask 0
              (PipelineVars token 0 (-1) (-1) (snd p) (fst p)) w2)
    as [[v|h] w3 e3] eqn:El; cbn [res st evs] in Hloop.
  2: { erewrite bind_halt by exact El. cbn [evs]. exact Hloop. }
  erewrite bind_run by exact El. unfold prepend. cbn [evs].
  assert (tame (close (pl_next_input v);;
                (if negb bg then monitorjob mask;; ret tt
                 else cmd <- jobcmd (pl_job v);;
                      msg "[%d] running '%s'\n" [AInt (pl_job v); AStr cmd]);;
                Sigprocmask_setmask mask;; ret 0%Z)) as Htail by tame_auto.
  destruct (Htail w3) as [He _].
  destruct (quiet_forked _ He) as [Ef Es].
  unfold Q. rewrite forked_app, setpgids_app, Ef, Es, !app_nil_r.
  exact Hloop.
Qed.
End Group.

(** ** Built-ins in the shell, commands in the child *)

Section InTheShell.
Context `{shell_h}.

Lemma do_redir_loop_quiet (fuel : nat) :
  forall token ntokens i n input output,
    spec quiet any any (do_redir_loop fuel token ntokens i n input output).
Proof.
  induction fuel as [|fuel IH]; intros token ntokens i n input output;
    [apply spec_stop; exact I|].
  cbn [do_redir_loop].
  destruct (Nat.ltb i ntokens && negb (token_eqb (tok_at token i) T_NULL));
    [|apply spec_ret; exact I].
  destruct (is_redir (tok_at token i)); [|apply IH].
  eapply spec_bind with (R1 := any);
    [apply tame_quiet, tame_assert | intros _ _].
  cbv zeta. eapply spec_bind with (R1 := any).
  { destruct (negb _); apply tame_quiet; [apply tame_close | apply tame_ret]. }
  intros _ _. eapply spec_bind with (R1 := any);
    [apply tame_quiet, tame_open | intros fd _].
  apply IH.
Qed.

(** X23.  A built-in runs in the shell itself.  When the words left by
    [do_redir] are a built-in that gives a status of 0 or more, [do_job]
    carries out the redirections, runs the built-in and returns its
    status at once: the state and the trace are those of the redirections
    followed by those of the built-in, and nothing is forked.  So nothing
    is done with the descriptors that the redirections opened. *)
Theorem builtin_runs_in_the_shell (token : list token_t) (ntokens : nat)
    (bg : bool) (w : world) (token' : list token_t) (n : nat) (io : Z * Z)
    (c : Z) :
  res (do_redir token ntokens (-1) (-1) w) = Ret (token', n, io) ->
  res (builtin_command token' w) = Ret c ->
  (0 <= c)%Z ->
  do_job token ntokens bg w
  = Run (Ret c) (st (builtin_command token' w))
        (evs (do_redir token ntokens (-1) (-1) w)
         ++ evs (builtin_command token' w))
  /\ forked (evs (do_job token ntokens bg w)) = [].
Proof.
  intros Hr Hb Hc.
  pose proof (stateless_do_redir token ntokens (-1) (-1) w) as Hst.
  pose proof (do_redir_loop_quiet (S ntokens) token ntokens 0 0 (-1) (-1) w)
    as [Hq1 _].
  fold (do_redir token ntokens (-1) (-1)) in Hq1.
  destruct (do_redir token ntokens (-1) (-1) w) as [r1 w1 e1] eqn:E1.
  cbn [res st evs] in *. subst r1 w1.
  pose proof (tame_builtin_command token' w) as [Hq _].
  destruct (builtin_command token' w) as [r2 w2 e2] eqn:E2.
  cbn [res st evs] in *. subst r2.
  assert (do_job token ntokens bg w = Run (Ret c) w2 (e1 ++ e2)) as Hrun.
  { unfold do_job. erewrite bind_run by exact E1. cbn [fst snd].
    erewrite bind_run by exact E2.
    destruct (Z.geb_spec c 0) as [_|Hlt]; [|lia].
    unfold prepend, ret. cbn [res st evs]. rewrite app_nil_r. reflexivity. }
  rewrite Hrun. cbn [evs]. split; [reflexivity|].
  rewrite forked_app, (proj1 (quiet_forked e1 Hq1)),
    (proj1 (quiet_forked e2 Hq)). reflexivity.
Qed.

Lemma signals_and_dup2_run {A} (mask : bool) (first second : Z)
    (to_first to_second : Z) (k : M A) (w : world) :
  (Sigprocmask_setmask mask;;
   Signal SIGTSTP SIG_DFL;;
   Signal SIGTTIN SIG_DFL;;
   Signal SIGTTOU SIG_DFL;;
   (if negb (Z.eqb first (-1)) then dup2 first to_first else ret tt);;
   (if negb (Z.eqb second (-1)) then dup2 second to_second else ret tt);;
   k) w
  = prepend ([ESignal SIGTSTP SIG_DFL; ESignal SIGTTIN SIG_DFL;
              ESignal SIGTTOU SIG_DFL]
             ++ (if negb (Z.eqb first (-1)) then [EDup2 first to_first]
                 else [])
             ++ (if negb (Z.eqb second (-1)) then [EDup2 second to_second]
                 else []))
            (k (World (jobs w) (tty_fd w) mask (children w) (wakeups w)
                      (forks w) (pipes w) (os w) (arrivals w))).
Proof.
  unfold Sigprocmask_setmask, Signal, dup2.
  destruct (negb (Z.eqb first (-1))), (negb (Z.eqb second (-1)));
    run_step; run_step; run_step; run_step; run_step; run_step;
    unfold prepend; cbn; reflexivity.
Qed.

(** X24.  The child of a single command.  In the child of the fork,
    [do_job] unblocks SIGCHLD, gives SIGTSTP, SIGTTIN and SIGTTOU their
    default action, makes the output of the redirections standard output
    and their input standard input, each when there is one, and then does
    what an external command does: it tries [execve] on the candidate
    files in turn and becomes the first that is taken, or prints the
    message and exits with status 1.  It never returns. *)
Theorem child_prepares_and_executes (input output : Z) (name : string)
    (args : list token_t) (w : world) :
  do_job_child input output (T_STR name :: args) w
  = let tries := first_hit (os w) (candidates (os w) name) in
    Run (Halt (match snd tries with
               | Some file => Execed file
               | None => Exited 1
               end))
        (World (jobs w) (tty_fd w) false (children w) (wakeups w)
               (forks w) (pipes w) (os w) (arrivals w))
        ([ESignal SIGTSTP SIG_DFL; ESignal SIGTTIN SIG_DFL;
          ESignal SIGTTOU SIG_DFL]
         ++ (if negb (Z.eqb output (-1)) then [EDup2 output STDOUT_FILENO]
             else [])
         ++ (if negb (Z.eqb input (-1)) then [EDup2 input STDIN_FILENO]
             else [])
         ++ map (fun f => EExecve f (name :: argv_words args)) (fst tries)
         ++ match snd tries with
            | Some _ => []
            | None => [EMsg "%s: %s\n" [AStr (Some name); AStrerror]]
            end).
Proof.
  unfold do_job_child. rewrite signals_and_dup2_run.
  rewrite external_command_run. cbv zeta. unfold prepend. cbn [res st evs os].
  rewrite <- !app_assoc. reflexivity.
Qed.

End InTheShell.

(** ** The further theorems at work on the sample situations *)

Section MoreWitnesses.
#[local] Existing Instance header.

Lemma signal_mask_is_restored_witness :
  let w := fresh [100%Z] [] [[(100%Z, exited 0)]] in
  sigchld_blocked (st (main_loop [line_true] w)) = sigchld_blocked w.
Proof.
  cbv zeta.
  apply (@signal_mask_is_restored header [line_true]
           (fresh [100%Z] [] [[(100%Z, exited 0)]])).
  vm_compute. reflexivity.
Defined.

Lemma terminal_returns_to_the_shell_witness :
  50%Z = sys_getpgrp (os (fresh [100%Z] [] [[(100%Z, exited 0)]])).
Proof.
  apply (@terminal_returns_to_the_shell header [line_true]
           (fresh [100%Z] [] [[(100%Z, exited 0)]]) 50%Z).
  - vm_compute. reflexivity.
  - vm_compute. reflexivity.
Defined.

Lemma jobs_table_never_shrinks_witness :
  let w := fresh [100%Z] [] [[(100%Z, exited 0)]] in
  length (jobs w) <= length (jobs (st (main_loop [line_true] w)))
  /\ tty_fd (st (main_loop [line_true] w)) = tty_fd w.
Proof.
  cbv zeta.
  apply (@jobs_table_never_shrinks header [line_true]
           (fresh [100%Z] [] [[(100%Z, exited 0)]])).
  vm_compute. reflexivity.
Defined.

Lemma main_returns_zero_with_the_terminal_witness :
  let w := boot [] [] [] in
  sys_isatty_stdin (os w) = true
  /\ 0%Z = 0%Z
  /\ last_tcsetpgrp (evs (main [] w)) = Some (sys_getpgrp (os w))
  /\ sigchld_blocked (st (main [] w)) = sigchld_blocked w
  /\ tty_fd (st (main [] w)) = sys_dup_stdin (os w).
Proof.
  cbv zeta.
  apply (@main_returns_zero_with_the_terminal header [] (boot [] [] []) 0%Z).
  vm_compute. reflexivity.
Defined.

Lemma monitorjob_brackets_the_terminal_witness :
  let w := one_foreground [(100%Z, exited 3)] in
  exists mid,
    evs (monitorjob false w)
    = ETcsetpgrp 10 100 :: mid ++ [ETcsetpgrp 10 50]
    /\ Forall no_tc mid.
Proof.
  cbv zeta.
  apply (@monitorjob_brackets_the_terminal header false
           (one_foreground [(100%Z, exited 3)]) 3%Z
           (Job 100 [Proc 100 1 (-1)] 1 (Some "sh"))).
  - reflexivity.
  - vm_compute. reflexivity.
Defined.

Lemma allocjob_gives_the_lowest_free_slot_witness :
  exists j : nat,
    res (allocjob one_running) = Ret (Z.of_nat j) /\ 1 <= j.
Proof.
  destruct (allocjob_gives_the_lowest_free_slot one_running)
    as (j & Hr & _ & Hj & _).
  - vm_compute. lia.
  - exists j. split; assumption.
Defined.

Lemma addjob_initialises_one_slot_witness :
  exists (j : nat) (slots : list job_t),
    addjob 200 1 one_running
    = Run (Ret (Z.of_nat j)) (with_jobs slots one_running) []
    /\ slots !! j = Some (Job 200 [] RUNNING None)
    /\ ((exists free, jobs one_running !! j = Some free
                      /\ job_pgid free = 0%Z)
        \/ j = length (jobs one_running)).
Proof.
  destruct (@addjob_initialises_one_slot header 200%Z 1%Z one_running)
    as (j & slots & Ha & Hj & _ & Hn & _).
  - vm_compute. lia.
  - change (Z.eqb 1 0) with false in Hj. cbv iota in Hj.
    exists j, slots. split; [exact Ha|]. split; [exact Hn|]. apply Hj.
Defined.

Lemma addproc_appends_a_running_process_witness :
  addproc (Z.of_nat 1) 101
          (map T_STR ["wc"; "-l"] ++ [T_NULL]) one_running
  = Run (Ret tt)
        (with_jobs
           (<[1 := Job 100 ([Proc 100 1 (-1)] ++ [Proc 101 RUNNING (-1)]) 1
                       (Some (command_text (Some "sleep 9") ["wc"; "-l"]))]>
              (jobs one_running)) one_running)
        [].
Proof.
  apply (@addproc_appends_a_running_process header 1 101%Z "wc" ["-l"] []
           (Job 100 [Proc 100 1 (-1)] 1 (Some "sleep 9")) one_running).
  reflexivity.
Defined.

Lemma jobstate_tests_and_frees_slot_zero_witness :
  jobstate (Z.of_nat 1) 7 one_finished
  = Run (Ret (0%Z, 0%Z))
        (with_jobs (<[0 := Job 0 [] FINISHED None]> (jobs one_finished))
                   one_finished) [].
Proof.
  refine (proj2 (@jobstate_tests_and_frees_slot_zero header 1 7%Z
                   (Job 100 [Proc 100 0 0] 0 (Some "sleep 1")) zero_job
                   one_finished _ _) _ (Proc 100 0 0) _).
  - reflexivity.
  - reflexivity.
  - reflexivity.
  - reflexivity.
Defined.

Lemma watchjobs_frees_finished_jobs_witness :
  res (watchjobs FINISHED one_finished) = Ret tt
  /\ st (watchjobs FINISHED one_finished)
     = with_jobs (swept (jobs one_finished)) one_finished
  /\ swept (jobs one_finished) !! 0 = jobs one_finished !! 0
  /\ no_finished_background (swept (jobs one_finished)).
Proof.
  apply (@watchjobs_frees_finished_jobs header FINISHED one_finished).
  - right. reflexivity.
  - vm_compute. lia.
  - intros x job Hx Hl _ _.
    destruct x as [|[|x]]; [lia | | discriminate Hl].
    inversion Hl. intros E. discriminate E.
Defined.

Lemma jobs_after_a_turn_changes_nothing_witness :
  let w0 := st (main_turn line_true one_running_quiet_prompt) in
  let w1 := st (readline w0) in
  jobs w0 !! 1 = Some (Job 90 [Proc 90 1 (-1)] 1 (Some "sleep 9"))
  /\ no_finished_background (jobs w0)
  /\ res (readline w0) = Ret tt
  /\ jobs w1 = jobs w0
  /\ exists es, do_jobs [T_NULL] w1 = Run (Ret 0%Z) w1 es.
Proof.
  cbv zeta. split; [vm_compute; reflexivity|].
  apply (@jobs_after_a_turn_changes_nothing header line_true [T_NULL]
           one_running_quiet_prompt).
  - vm_compute. lia.
  - vm_compute. reflexivity.
  - vm_compute. reflexivity.
Defined.


Lemma fg_aborts_on_an_occupied_foreground_slot_witness :
  res (do_fg [T_STR "1"; T_NULL] stale_foreground)
  = Halt (Aborted "jobs[to].pgid == 0")
  /\ evs (do_fg [T_STR "1"; T_NULL] stale_foreground)
     = [EKill (-101) SIGCONT]
  /\ sigchld_blocked (st (do_fg [T_STR "1"; T_NULL] stale_foreground)) = true.
Proof.
  apply (@fg_aborts_on_an_occupied_foreground_slot header
           [T_STR "1"; T_NULL] (Some "1") 1
           (Job 101 [Proc 101 2 (-1)] 2 (Some "sleep 9"))
           (Job 100 [Proc 100 0 0] 0 (Some "true")) stale_foreground).
  - reflexivity.
  - reflexivity.
  - intros E. discriminate E.
  - reflexivity.
  - intros E. discriminate E.
  - reflexivity.
Defined.


Lemma monitorjob_moves_or_leaves_the_job_witness :
  let w := one_foreground [(100%Z, stopped)] in
  exists seen : list job_t,
    Forall2 kept_job (jobs w) seen
    /\ (((-1)%Z = (-1)%Z
         /\ moved_to_background 100 seen (jobs (st (monitorjob false w))))
        \/ (jobs (st (monitorjob false w)) = seen
            /\ left_in_foreground 100 (-1) seen)).
Proof.
  cbv zeta.
  apply (@monitorjob_moves_or_leaves_the_job header false
           (one_foreground [(100%Z, stopped)]) (-1)%Z
           (Job 100 [Proc 100 1 (-1)] 1 (Some "sh"))).
  - reflexivity.
  - vm_compute. reflexivity.
Defined.

Lemma do_redir_resolves_the_redirections_witness :
  exists token' : list token_t,
    do_redir (fst line_sort) (snd line_sort) (-1) (-1) (fresh [] [] [])
    = Run (Ret (token', 2, (3, 3)%Z)) (fresh [] [] [])
          [EOpen "in" O_RDONLY 3; EOpen "out" O_WRONLY_O_CREAT 3]
    /\ take 2 token' = [T_STR "sort"; T_STR "-r"]
    /\ token' !! 2 = Some T_NULL.
Proof.
  destruct (do_redir_resolves_the_redirections (fst line_sort)
              (snd line_sort) (-1)%Z (-1)%Z (fresh [] [] []))
    as (token' & Hrun & Htake & _ & Hnul).
  - vm_compute. lia.
  - vm_compute. reflexivity.
  - exists token'. split; [exact Hrun|]. split; [exact Htake|].
    apply Hnul. vm_compute. lia.
Defined.

Lemma foreground_command_returns_its_exit_status_witness :
  res (do_job (fst line_true) (snd line_true) false
              (fresh [100%Z] [] [[(100%Z, exited 7)]]))
  = Ret 7%Z.
Proof.
  destruct (@foreground_command_returns_its_exit_status header
              (fst line_true) (snd line_true) "true" [] 100%Z []
              [(100%Z, exited 7)] [] (exited 7) []
              (fresh [100%Z] [] [[(100%Z, exited 7)]]))
    as (tl' & c2 & _ & Hrun).
  - vm_compute. lia.
  - reflexivity.
  - reflexivity.
  - vm_compute. lia.
  - reflexivity.
  - vm_compute. lia.
  - reflexivity.
  - intros E. discriminate E.
  - reflexivity.
  - reflexivity.
  - reflexivity.
  - reflexivity.
  - rewrite Hrun. reflexivity.
Defined.

Lemma stopped_foreground_command_goes_to_background_witness :
  let w := fresh [100%Z] [] [[(100%Z, stopped)]] in
  exists seen : list job_t,
    res (do_job (fst line_true) (snd line_true) false w) = Ret (-1)%Z
    /\ moved_to_background 100
         (Job 100 [Proc 100 STOPPED (-1)] STOPPED (Some "true") :: seen)
         (jobs (st (do_job (fst line_true) (snd line_true) false w))).
Proof.
  cbv zeta.
  destruct (@stopped_foreground_command_goes_to_background header
              (fst line_true) (snd line_true) "true" [] 100%Z []
              [(100%Z, stopped)] [] stopped []
              (fresh [100%Z] [] [[(100%Z, stopped)]]))
    as (seen & _ & Hres & Hmoved & _).
  - vm_compute. lia.
  - reflexivity.
  - reflexivity.
  - vm_compute. lia.
  - reflexivity.
  - vm_compute. lia.
  - reflexivity.
  - intros E. discriminate E.
  - reflexivity.
  - reflexivity.
  - reflexivity.
  - reflexivity.
  - reflexivity.
  - reflexivity.
  - exists seen. split; assumption.
Defined.


Lemma pipeline_stages_share_one_group_witness :
  let w := fresh [101; 102]%Z [(4, 5); (6, 7)]%Z
                 [[(101%Z, exited 0); (102%Z, exited 1)]] in
  setpgids (evs (do_pipeline (fst line_true_false) (snd line_true_false)
                             false w))
  = match forked (evs (do_pipeline (fst line_true_false)
                                   (snd line_true_false) false w)) with
    | [] => []
    | first :: others => (first, 0%Z) :: map (fun p => (p, first)) others
    end.
Proof.
  cbv zeta.
  apply (@pipeline_stages_share_one_group header (fst line_true_false)
           (snd line_true_false) false
           (fresh [101; 102]%Z [(4, 5); (6, 7)]%Z
                  [[(101%Z, exited 0); (102%Z, exited 1)]])).
  - vm_compute. lia.
  - vm_compute. intros [E|[E|[]]]; discriminate E.
Defined.
Lemma open_failure_goes_unreported_witness :
  let w := fresh [100%Z] [] [[(100%Z, exited 0)]] in
  In (EOpen "nosuch" O_RDONLY (-1))
     (evs (do_redir (fst line_cat_nosuch) (snd line_cat_nosuch) (-1) (-1) w))
  /\ (forall fmt args,
        ~ In (EMsg fmt args)
             (evs (do_redir (fst line_cat_nosuch) (snd line_cat_nosuch)
                            (-1) (-1) w)))
  /\ exists post,
       evs (do_job (fst line_cat_nosuch) (snd line_cat_nosuch) false w)
       = evs (do_redir (fst line_cat_nosuch) (snd line_cat_nosuch)
                       (-1) (-1) w)
         ++ EFork 100 :: post.
Proof.
  cbv zeta.
  assert (In (EOpen "nosuch" O_RDONLY (-1))
            (evs (do_redir (fst line_cat_nosuch) (snd line_cat_nosuch)
                           (-1) (-1) (fresh [100%Z] [] [[(100%Z, exited 0)]]))))
    as Hin by (vm_compute; left; reflexivity).
  split; [exact Hin|].
  refine (proj2 (@open_failure_goes_unreported header
                   (fst line_cat_nosuch) (snd line_cat_nosuch) false
                   (fresh [100%Z] [] [[(100%Z, exited 0)]])
                   "nosuch" O_RDONLY "cat" [] 100%Z [] _ _ _ _ Hin _)).
  - vm_compute. lia.
  - reflexivity.
  - reflexivity.
  - reflexivity.
  - reflexivity.
Defined.
End MoreWitnesses.

(** ** What the SIGCHLD handler records *)

Lemma first_status_cons (pid p : Z) (s : wstatus) (c : list (Z * wstatus)) :
  first_status pid ((p, s) :: c)
  = if Z.eqb p pid then Some s else first_status pid c.
Proof.
  unfold first_status. cbn [take_change]. destruct (Z.eqb p pid);
    [reflexivity|].
  destruct (take_change pid c) as [[s' rest']|]; reflexivity.
Qed.

Lemma take_change_other (pid q : Z) (c c' : list (Z * wstatus))
    (s : wstatus) :
  take_change q c = Some (s, c') -> q <> pid ->
  first_status pid c' = first_status pid c.
Proof.
  intros Ht Hne. revert c' Ht.
  induction c as [|[p0 s0] c IH]; intros c' Ht; [discriminate Ht|].
  cbn [take_change] in Ht. destruct (Z.eqb_spec p0 q) as [->|Hp0].
  - inversion Ht; subst. rewrite first_status_cons.
    destruct (Z.eqb_spec q pid); [contradiction | reflexivity].
  - destruct (take_change q c) as [[s' rest']|]; [|discriminate Ht].
    inversion Ht; subst. rewrite !first_status_cons.
    destruct (Z.eqb p0 pid); [reflexivity|]. apply IH. reflexivity.
Qed.

Lemma keeps_status_bind {A B} (pid : Z) (m : M A) (k : A -> M B) :
  keeps_status pid m -> (forall a, keeps_status pid (k a)) ->
  keeps_status pid (bind m k).
Proof.
  intros Hm Hk w. unfold bind. specialize (Hm w).
  destruct (res (m w)) as [a|h]; cbn [res st evs]; [|exact Hm].
  rewrite Hk. exact Hm.
Qed.

Lemma keeps_status_ret {A} (pid : Z) (a : A) : keeps_status pid (ret a).
Proof. intros w. reflexivity. Qed.

Section Records.
Context `{shell_h}.

Lemma reap_proc_total_run (proc : proc_t) (w : world) :
  exists proc' w', reap_proc proc w = Run (Ret proc') w' []
    /\ proc' = match first_status (proc_pid proc) (children w) with
               | Some s => reaped_proc s proc
               | None => proc
               end
    /\ forall pid, proc_pid proc <> pid ->
         first_status pid (children w') = first_status pid (children w).
Proof.
  unfold first_status.
  destruct (take_change (proc_pid proc) (children w)) as [[s c1]|] eqn:Et.
  - exists (reaped_proc s proc), (with_children c1 w).
    split; [apply reap_proc_run; exact Et|]. split; [reflexivity|].
    intros pid Hne. exact (take_change_other pid _ _ _ _ Et Hne).
  - exists proc, w. split; [|split; [reflexivity | reflexivity]].
    unfold reap_proc, waitpid.
    assert ((w0 <- get;;
             match take_change (proc_pid proc) (children w0) with
             | Some (status, rest) => set_children rest;; ret (Some status)
             | None => ret None
             end) w = Run (Ret None) w []) as Hw.
    { run_step. rewrite Et. reflexivity. }
    erewrite bind_run by exact Hw. reflexivity.
Qed.

Lemma reap_procs_at (pid : Z) (procs : list proc_t) :
  forall (p : nat) (proc : proc_t) (hr hs : bool) (w : world),
    procs !! p = Some proc ->
    proc_pid proc = pid ->
    proc_state proc <> FINISHED ->
    other_procs pid (take p procs) ->
    exists r w',
      reap_procs procs hr hs w = Run (Ret r) w' []
      /\ fst r !! p
         = Some (match first_status pid (children w) with
                 | Some s => reaped_proc s proc
                 | None => proc
                 end).
Proof.
  induction procs as [|a rest IH]; intros p proc hr hs w Hp Hpid Hnf Hother;
    [discriminate Hp|].
  assert (forall hr hs w, exists r w',
            reap_procs rest hr hs w = Run (Ret r) w' []) as Htotal.
  { clear. intros hr hs w.
    destruct (reap_procs_flags rest hr hs w) as [_ Hr].
    destruct (reaps_only_reap_procs rest hr hs w) as (He & _).
    destruct (reap_procs rest hr hs w) as [[r|h] w' e];
      cbn [res evs] in *; [|contradiction].
    subst e. exists r, w'. reflexivity. }
  cbn [reap_procs]. destruct p as [|p].
  - cbn in Hp. inversion Hp; subst a. clear Hp.
    destruct (Z.eqb_spec (proc_state proc) FINISHED); [contradiction|].
    destruct (reap_proc_total_run proc w) as (proc' & w1 & Hrun & Hproc' & _).
    erewrite bind_run by exact Hrun. rewrite prepend_nil. cbv zeta.
    match goal with
    | |- context [reap_procs rest ?a ?b] =>
        destruct (Htotal a b w1) as (r & w2 & Hrest)
    end.
    erewrite bind_run by exact Hrest. rewrite prepend_nil.
    eexists _, _. split; [reflexivity|]. cbn [fst lookup list_lookup].
    rewrite Hproc', Hpid. reflexivity.
  - cbn in Hp. cbn [take] in Hother.
    apply Forall_cons in Hother as [Ha Hrest].
    destruct (Z.eqb_spec (proc_state a) FINISHED) as [Ef|Ef].
    + destruct (IH p proc hr hs w Hp Hpid Hnf Hrest)
        as (r & w2 & Hrun & Hat).
      erewrite bind_run by exact Hrun. rewrite prepend_nil.
      eexists _, _. split; [reflexivity|]. exact Hat.
    + destruct (reap_proc_total_run a w) as (a' & w1 & Hrun & _ & Hkeep).
      erewrite bind_run by exact Hrun. rewrite prepend_nil. cbv zeta.
      match goal with
      | |- context [reap_procs rest ?x ?y] =>
          destruct (IH p proc x y w1 Hp Hpid Hnf Hrest)
            as (r & w2 & Hrun2 & Hat)
      end.
      erewrite bind_run by exact Hrun2. rewrite prepend_nil.
      eexists _, _. split; [reflexivity|]. cbn [fst].
      change ((a' :: fst r) !! S p) with (fst r !! p).
      rewrite Hat, (Hkeep _ (Ha Ef)). reflexivity.
Qed.

Lemma keeps_status_reap_procs (pid : Z) (procs : list proc_t) :
  other_procs pid procs ->
  forall hr hs, keeps_status pid (reap_procs procs hr hs).
Proof.
  induction 1 as [|a rest Ha _ IH]; intros hr hs; cbn [reap_procs];
    [apply keeps_status_ret|].
  destruct (Z.eqb_spec (proc_state a) FINISHED) as [Ef|Ef].
  - apply keeps_status_bind; [apply IH | intros r; apply keeps_status_ret].
  - apply keeps_status_bind.
    + intros w.
      destruct (reap_proc_total_run a w) as (a' & w1 & Hrun & _ & Hkeep).
      rewrite Hrun. apply Hkeep, Ha, Ef.
    + intros a'. cbv zeta.
      apply keeps_status_bind; [apply IH | intros r; apply keeps_status_ret].
Qed.

Lemma keeps_status_reap_job (pid : Z) (job : job_t) :
  other_job pid job -> keeps_status pid (reap_job job).
Proof.
  intros Ho. unfold reap_job.
  destruct (Z.eqb_spec (job_pgid job) 0) as [E0|E0];
    [apply keeps_status_ret|].
  apply keeps_status_bind; [apply keeps_status_reap_procs, Ho, E0|].
  intros r. apply keeps_status_ret.
Qed.

Lemma reap_jobs_total_run (slots : list job_t) (w : world) :
  exists slots' w', reap_jobs slots w = Run (Ret slots') w' [].
Proof.
  destruct (reap_jobs_same_pgids slots w) as [_ Hr].
  destruct (reaps_only_reap_jobs slots w) as (He & _).
  destruct (reap_jobs slots w) as [[r|h] w' e];
    cbn [res evs] in *; [|contradiction].
  subst e. exists r, w'. reflexivity.
Qed.

Lemma reap_jobs_at (pid : Z) (slots : list job_t) :
  forall (j : nat) (job : job_t) (p : nat) (proc : proc_t) (w : world),
    slots !! j = Some job ->
    job_pgid job <> 0%Z ->
    job_proc job !! p = Some proc ->
    proc_pid proc = pid ->
    proc_state proc <> FINISHED ->
    Forall (other_job pid) (take j slots) ->
    other_procs pid (take p (job_proc job)) ->
    exists slots' w' job',
      reap_jobs slots w = Run (Ret slots') w' []
      /\ slots' !! j = Some job'
      /\ job_proc job' !! p
         = Some (match first_status pid (children w) with
                 | Some s => reaped_proc s proc
                 | None => proc
                 end).
Proof.
  induction slots as [|a rest IH];
    intros j job p proc w Hj Hg Hp Hpid Hnf Hbefore Hother;
    [discriminate Hj|].
  cbn [reap_jobs]. destruct j as [|j].
  - cbn in Hj. inversion Hj; subst a. clear Hj.
    destruct (reap_procs_at pid (job_proc job) p proc false false w
                Hp Hpid Hnf Hother) as (r & w1 & Hrun & Hat).
    assert (reap_job job w
            = Run (Ret (Job (job_pgid job) (fst r)
                            (if fst (snd r) then RUNNING
                             else if snd (snd r) then STOPPED
                             else FINISHED)
                            (job_command job))) w1 []) as Hjob.
    { unfold reap_job. destruct (Z.eqb_spec (job_pgid job) 0);
        [contradiction|].
      erewrite bind_run by exact Hrun. reflexivity. }
    erewrite bind_run by exact Hjob. rewrite prepend_nil.
    destruct (reap_jobs_total_run rest w1) as (rest' & w2 & Hrest).
    erewrite bind_run by exact Hrest. rewrite prepend_nil.
    eexists _, _, _. split; [reflexivity|]. split; [reflexivity|].
    exact Hat.
  - cbn in Hj. cbn [take] in Hbefore.
    apply Forall_cons in Hbefore as [Ha Hrest].
    pose proof (keeps_status_reap_job pid a Ha w) as Hkeep.
    destruct (reap_job_derived a w) as [_ Hra].
    destruct (reaps_only_reap_job a w) as (Hea & _).
    destruct (reap_job a w) as [[a'|h] w1 e1] eqn:Ea;
      cbn [res st evs] in *; [|contradiction].
    subst e1. erewrite bind_run by exact Ea. rewrite prepend_nil.
    destruct (IH j job p proc w1 Hj Hg Hp Hpid Hnf Hrest Hother)
      as (rest' & w2 & job' & Hrun & Hat & Hproc).
    erewrite bind_run by exact Hrun. rewrite prepend_nil.
    eexists _, _, job'. split; [reflexivity|]. split; [exact Hat|].
    rewrite Hproc, Hkeep. reflexivity.
Qed.

(** X26.  What the SIGCHLD handler records.  Take a process of an occupied
    slot that is not FINISHED, whose pid no other process of the table
    that the handler would wait for has.  After the handler has run, the
    process is what the first unreported status of that pid makes of it:
    FINISHED with the exit status when the child has exited or was killed,
    RUNNING when it was continued, STOPPED when it was stopped, with the
    exit code untouched in the last two cases; and with nothing to report
    the process is as it was. *)
Theorem sigchld_handler_records_the_first_status (w : world) (j p : nat)
    (job : job_t) (proc : proc_t) :
  jobs w !! j = Some job ->
  job_pgid job <> 0%Z ->
  job_proc job !! p = Some proc ->
  proc_state proc <> FINISHED ->
  (forall j' p' job' proc',
     jobs w !! j' = Some job' -> job_pgid job' <> 0%Z ->
     job_proc job' !! p' = Some proc' -> proc_state proc' <> FINISHED ->
     (j', p') <> (j, p) -> proc_pid proc' <> proc_pid proc) ->
  exists job',
    jobs (st (sigchld_handler w)) !! j = Some job'
    /\ job_proc job' !! p
       = Some (match first_status (proc_pid proc) (children w) with
               | Some s => reaped_proc s proc
               | None => proc
               end).
Proof.
  intros Hj Hg Hp Hnf Huniq.
  destruct (reap_jobs_at (proc_pid proc) (jobs w) j job p proc w
              Hj Hg Hp eq_refl Hnf) as (slots' & w' & job' & Hrun & Hat & Hproc).
  - apply Forall_forall. intros a Ha.
    apply list_elem_of_lookup_1 in Ha. destruct Ha as [j' Ha].
    apply lookup_take_Some in Ha. destruct Ha as [Ha Hlt].
    intros Hga. apply Forall_forall. intros b Hb.
    apply list_elem_of_lookup_1 in Hb. destruct Hb as [p' Hb].
    intros Hnfb. apply (Huniq j' p' a b Ha Hga Hb Hnfb).
    intros E. inversion E. lia.
  - apply Forall_forall. intros b Hb.
    apply list_elem_of_lookup_1 in Hb. destruct Hb as [p' Hb].
    apply lookup_take_Some in Hb. destruct Hb as [Hb Hlt].
    intros Hnfb. apply (Huniq j p' job b Hj Hg Hb Hnfb).
    intros E. inversion E. lia.
  - exists job'. unfold sigchld_handler.
    erewrite bind_run by reflexivity. rewrite prepend_nil.
    erewrite bind_run by exact Hrun. cbn. split; assumption.
Qed.
End Records.

Section LastWitnesses.
#[local] Existing Instance header.

Lemma builtin_runs_in_the_shell_witness :
  do_job (fst line_jobs_out) (snd line_jobs_out) false one_running
  = Run (Ret 0%Z)
        (st (builtin_command [T_STR "jobs"; T_NULL; T_NULL; T_NULL]
                             one_running))
        (evs (do_redir (fst line_jobs_out) (snd line_jobs_out) (-1) (-1)
                       one_running)
         ++ evs (builtin_command [T_STR "jobs"; T_NULL; T_NULL; T_NULL]
                                 one_running))
  /\ forked (evs (do_job (fst line_jobs_out) (snd line_jobs_out) false
                         one_running)) = [].
Proof.
  apply (@builtin_runs_in_the_shell header (fst line_jobs_out)
           (snd line_jobs_out) false one_running
           [T_STR "jobs"; T_NULL; T_NULL; T_NULL] 1 (-1, 3)%Z 0%Z).
  - vm_compute. reflexivity.
  - vm_compute. reflexivity.
  - lia.
Defined.


Lemma sigchld_handler_records_the_first_status_witness :
  exists job',
    jobs (st (sigchld_handler one_exiting)) !! 0 = Some job'
    /\ job_proc job' !! 0 = Some (Proc 100 FINISHED 3).
Proof.
  destruct (@sigchld_handler_records_the_first_status header one_exiting 0 0
              (Job 100 [Proc 100 1 (-1)] 1 (Some "sh")) (Proc 100 1 (-1)))
    as (job' & Hj & Hp).
  - reflexivity.
  - intros E. discriminate E.
  - reflexivity.
  - intros E. discriminate E.
  - intros j' p' job1 proc1 Hj1 _ Hp1 _ Hne.
    destruct j' as [|j']; [|discriminate Hj1].
    inversion Hj1; subst job1.
    destruct p' as [|p']; [|discriminate Hp1].
    contradiction Hne. reflexivity.
  - exists job'. split; [exact Hj | exact Hp].
Defined.
End LastWitnesses.
